(** * Crush plugin runtime: registry, hook pipelines, loader, skills.

    A shallow embedding of [internal/plugin], [internal/plugin/skills] and
    the plugin part of [internal/app] together with the properties of the
    hook pipelines, the loader and the skill discovery; further, the
    skills plugin and its tools, the example plugin [auto-approve], the
    forwarding of events, the non-interactive run and the shutdown of
    the application. *)

From Stdlib Require Import ZArith List String Ascii Bool Lia DecimalString.
From stdpp Require Import gmap strings list.



(** ** Go values shared by all packages *)

(** Go's [error] interface: a non-nil error is either a plain message
    ([errors.New], [fmt.Errorf] without [%w]) or a message prefix wrapping
    another error ([fmt.Errorf("prefix: %w", err)]).  A nilable [error]
    is an [option error]. *)
Inductive error : Type :=
| errorString (msg : string)
| wrapError (pfx : string) (err : error).

Fixpoint Error (e : error) : string :=
  match e with
  | errorString msg => msg
  | wrapError pfx err => pfx +:+ Error err
  end.

(** [errors.Unwrap]. *)
Definition Unwrap (e : error) : option error :=
  match e with
  | errorString _ => None
  | wrapError _ err => Some err
  end.

(** [%d] of a non-negative [int]. *)
Definition itoa (n : nat) : string := NilZero.string_of_uint (Nat.to_uint n).

Definition newline : string := String (ascii_of_nat 10) "".

(** Values of Go's [any] as they occur in JSON-serialisable argument maps. *)
Inductive any : Type :=
| anyNull
| anyBool (b : bool)
| anyInt (z : Z)
| anyString (s : string).

(** ** Go strings

    A Go [string] is a sequence of bytes: Rocq's [string], one [ascii]
    per byte.  [len(s)] is [String.length s]. *)
Module gostrings.

(** [s[n:]] and [s[:n]]. *)
Fixpoint sliceFrom (n : nat) (s : string) : string :=
  match n, s with
  | 0, _ => s
  | S n', String _ s' => sliceFrom n' s'
  | S _, "" => ""
  end.

Fixpoint sliceTo (n : nat) (s : string) : string :=
  match n, s with
  | 0, _ => ""
  | S n', String c s' => String c (sliceTo n' s')
  | S _, "" => ""
  end.

Fixpoint HasPrefix (s pfx : string) : bool :=
  match pfx, s with
  | "", _ => true
  | String a pfx', String b s' => if Ascii.eqb a b then HasPrefix s' pfx' else false
  | String _ _, "" => false
  end.

Definition HasSuffix (s sfx : string) : bool :=
  (String.length sfx <=? String.length s)%nat
  && String.eqb (sliceFrom (String.length s - String.length sfx) s) sfx.

Definition TrimPrefix (s pfx : string) : string :=
  if HasPrefix s pfx then sliceFrom (String.length pfx) s else s.

Definition TrimSuffix (s sfx : string) : string :=
  if HasSuffix s sfx then sliceTo (String.length s - String.length sfx) s else s.

(** Position of the first and of the last occurrence of [sep] in [s]. *)
Fixpoint index (s sep : string) : option nat :=
  if HasPrefix s sep then Some 0
  else match s with
       | "" => None
       | String _ s' => S <$> index s' sep
       end.

Fixpoint lastIndex (s sep : string) : option nat :=
  match s with
  | "" => if HasPrefix "" sep then Some 0 else None
  | String c s' =>
      match lastIndex s' sep with
      | Some i => Some (S i)
      | None => if HasPrefix (String c s') sep then Some 0 else None
      end
  end.

(** [strings.Index] and [strings.LastIndex]: -1 when [sep] does not occur. *)
Definition Index (s sep : string) : Z :=
  match index s sep with Some i => Z.of_nat i | None => (-1)%Z end.

Definition LastIndex (s sep : string) : Z :=
  match lastIndex s sep with Some i => Z.of_nat i | None => (-1)%Z end.

(** [strings.SplitN] and [strings.Split] for a non-empty separator (the
    only kind the runtime passes; Go's explode for [sep = ""] is not
    modelled).  [splitN n] returns at most [n] pieces, the last one the
    unsplit remainder. *)
Fixpoint splitN (n : nat) (s sep : string) : list string :=
  match n with
  | 0 => []
  | S n' =>
      match n' with
      | 0 => [s]
      | S _ =>
          match index s sep with
          | None => [s]
          | Some m => sliceTo m s :: splitN n' (sliceFrom (m + String.length sep) s) sep
          end
      end
  end.

Definition SplitN (s sep : string) (n : Z) : list string :=
  if (n =? 0)%Z then []
  else if (n <? 0)%Z then splitN (S (String.length s)) s sep
  else splitN (Z.to_nat n) s sep.

Definition Split (s sep : string) : list string := SplitN s sep (-1).

(** [strings.Join]. *)
Fixpoint Join (elems : list string) (sep : string) : string :=
  match elems with
  | [] => ""
  | [e] => e
  | e :: rest => e +:+ sep +:+ Join rest sep
  end.

(** [strings.ReplaceAll] for a non-empty [old]: non-overlapping
    occurrences, left to right.  [skip] bytes of a matched occurrence are
    still to be passed over. *)
Fixpoint replaceAll (skip : nat) (s old new : string) : string :=
  match s with
  | "" => ""
  | String c s' =>
      match skip with
      | S k => replaceAll k s' old new
      | 0 =>
          if HasPrefix (String c s') old
          then new +:+ replaceAll (String.length old - 1) s' old new
          else String c (replaceAll 0 s' old new)
      end
  end.

Definition ReplaceAll (s old new : string) : string := replaceAll 0 s old new.

Definition byte (c : ascii) : nat := nat_of_ascii c.

Definition between (lo hi : nat) (c : ascii) : bool :=
  (lo <=? byte c)%nat && (byte c <=? hi)%nat.

Definition isLower (c : ascii) : bool := between 97 122 c.
Definition isUpper (c : ascii) : bool := between 65 90 c.
Definition isDigit (c : ascii) : bool := between 48 57 c.

(** [strings.ToLower] on strings of ASCII bytes, the only ones
    [generateToolName] applies it to (the regular-expression replacement
    before it leaves nothing else). *)
Definition toLowerByte (c : ascii) : ascii :=
  if isUpper c then ascii_of_nat (byte c + 32) else c.

Fixpoint ToLower (s : string) : string :=
  match s with
  | "" => ""
  | String c s' => String (toLowerByte c) (ToLower s')
  end.

(** [utf8.DecodeRuneInString]: the number of bytes of the first rune of
    [s].  An invalid or truncated encoding is the rune U+FFFD of width 1. *)
Definition continuation (lo hi : nat) (s : string) : option string :=
  match s with
  | String c s' => if between lo hi c then Some s' else None
  | "" => None
  end.

Definition runeWidth (s : string) : nat :=
  match s with
  | "" => 0
  | String c s1 =>
      let b := byte c in
      if (b <? 128)%nat then 1
      else if (b <? 194)%nat then 1
      else if (b <? 224)%nat then
        match continuation 128 191 s1 with Some _ => 2 | None => 1 end
      else if (b <? 240)%nat then
        let lo := if (b =? 224)%nat then 160 else 128 in
        let hi := if (b =? 237)%nat then 159 else 191 in
        match continuation lo hi s1 with
        | Some s2 =>
            match continuation 128 191 s2 with Some _ => 3 | None => 1 end
        | None => 1
        end
      else if (b <? 245)%nat then
        let lo := if (b =? 240)%nat then 144 else 128 in
        let hi := if (b =? 244)%nat then 143 else 191 in
        match continuation lo hi s1 with
        | Some s2 =>
            match continuation 128 191 s2 with
            | Some s3 =>
                match continuation 128 191 s3 with Some _ => 4 | None => 1 end
            | None => 1
            end
        | None => 1
        end
      else 1
  end.

End gostrings.

(** ** Package [path/filepath] on Unix *)
Module filepath.
Import gostrings.

Definition isSlash (c : ascii) : bool := Ascii.eqb c "/".

(** The path elements of [path]: the pieces between slashes. *)
Fixpoint elements (path : string) : list string :=
  match path with
  | "" => [""]
  | String c rest =>
      if isSlash c then "" :: elements rest
      else match elements rest with
           | e :: es => String c e :: es
           | [] => [String c ""]
           end
  end.

(** One step of [Clean]'s loop.  [out] holds the elements written so
    far, the last one first. *)
Definition cleanStep (rooted : bool) (out : list string) (e : string)
    : list string :=
  if String.eqb e "" then out
  else if String.eqb e "." then out
  else if String.eqb e ".." then
    match out with
    | top :: below =>
        if String.eqb top ".." then ".." :: out else below
    | [] => if rooted then [] else [".."]
    end
  else e :: out.

(** [filepath.Clean]. *)
Definition Clean (path : string) : string :=
  if String.eqb path "" then "."
  else
    let rooted := HasPrefix path "/" in
    let out := fold_left (cleanStep rooted) (elements path) [] in
    match out, rooted with
    | [], false => "."
    | _, true => "/" +:+ Join (rev out) "/"
    | _, false => Join (rev out) "/"
    end.

(** Drop trailing slashes. *)
Fixpoint stripTrailingSlashes (path : string) : string :=
  match path with
  | "" => ""
  | String c rest =>
      match stripTrailingSlashes rest with
      | "" => if isSlash c then "" else String c ""
      | r => String c r
      end
  end.

(** [filepath.Base]. *)
Definition Base (path : string) : string :=
  if String.eqb path "" then "."
  else
    let p := stripTrailingSlashes path in
    let p := match lastIndex p "/" with
             | Some i => sliceFrom (S i) p
             | None => p
             end in
    if String.eqb p "" then "/" else p.

(** [filepath.Dir]. *)
Definition Dir (path : string) : string :=
  match lastIndex path "/" with
  | Some i => Clean (sliceTo (S i) path)
  | None => Clean ""
  end.

(** [filepath.Join]. *)
Fixpoint Join (elem : list string) : string :=
  match elem with
  | [] => ""
  | e :: rest =>
      if String.eqb e "" then Join rest
      else Clean (gostrings.Join (e :: rest) "/")
  end.

End filepath.

(** ** Package [plugin]: the contract, the registry and the loader *)
Module plugin.

(** Modelled from the spec: [config.Config] of package
    [internal/config], the parsed configuration.  The record has what
    the loader and [app.New] read from it: the ordered list of plugin
    paths ([GetPluginPaths]), [WorkingDir], [IsConfigured] and the ID of
    the coder agent's configuration. *)
Record Config : Type := {
  GetPluginPaths : list string;
  WorkingDir : string;
  IsConfigured : bool;
  CoderAgentID : string
}.

Record PluginInfo : Type := {
  Name : string;
  Version : string;
  Description : string;
  Author : string
}.

Record PluginContext : Type := {
  ctx_Config : Config;
  ctx_WorkingDir : string
}.

(** Modelled from the spec: [permission.CreatePermissionRequest],
    [session.Session] and [message.Message] of the packages
    [internal/permission], [internal/session] and [internal/message],
    with the fields the example extensions read. *)
Record CreatePermissionRequest : Type := {
  req_SessionID : string;
  req_ToolName : string;
  req_Action : string
}.

Record Session : Type := { sess_ID : string; sess_Title : string }.
Record Message : Type := { msg_ID : string; msg_SessionID : string }.

Record ToolExecuteInput : Type := {
  ToolName : string;
  SessionID : string;
  MessageID : string;
  ToolCallID : string;
  Arguments : option (gmap string any)
}.

Definition with_Arguments (input : ToolExecuteInput)
    (args : option (gmap string any)) : ToolExecuteInput :=
  {| ToolName := ToolName input; SessionID := SessionID input;
     MessageID := MessageID input; ToolCallID := ToolCallID input;
     Arguments := args |}.

Record ToolExecuteResult : Type := {
  Output : string;
  ResultError : option error;
  Metadata : option (gmap string any)
}.

Record AgentStartInput : Type := { start_SessionID : string; Prompt : string }.
Record AgentStepInput : Type := { step_SessionID : string; StepNumber : Z }.
Record AgentFinishInput : Type := { finish_SessionID : string; TotalSteps : Z }.

Section Contract.
(** Everything extension code can read and write on its own: the state
    of all plugins and hooks.  Hook and plugin methods are functions on
    it; the registry is not reachable from it. *)
Context {World : Type}.

(** Each hook interface has the contract's no-op implementation
    ([NilConfigHook{}] ...) and implementations supplied by plugins.  A
    nil interface value is [None] of the [option]. *)
Inductive ConfigHook : Type :=
| NilConfigHook
| UserConfigHook (onConfigLoad : Config -> World -> option error * Config * World).

Inductive SessionHook : Type :=
| NilSessionHook
| UserSessionHook
    (onSessionCreated onSessionUpdated : Session -> World -> option error * World)
    (onSessionDeleted : string -> World -> option error * World).

Inductive MessageHook : Type :=
| NilMessageHook
| UserMessageHook
    (onMessageCreated onMessageUpdated : Message -> World -> option error * World).

Inductive PermissionHook : Type :=
| NilPermissionHook
| UserPermissionHook
    (onPermissionRequest :
       CreatePermissionRequest -> World -> (option bool * option error) * World).

Inductive ToolHook : Type :=
| NilToolHook
| UserToolHook
    (onToolExecuteBefore :
       ToolExecuteInput -> World -> (option (gmap string any) * option error) * World)
    (onToolExecuteAfter :
       ToolExecuteInput -> ToolExecuteResult -> World ->
       (option ToolExecuteResult * option error) * World).

Inductive AgentHook : Type :=
| NilAgentHook
| UserAgentHook
    (onAgentStart : AgentStartInput -> World -> option error * World)
    (onAgentStep : AgentStepInput -> World -> option error * World)
    (onAgentFinish : AgentFinishInput -> World -> option error * World).

Definition OnConfigLoad (h : ConfigHook) (cfg : Config) (w : World)
    : option error * Config * World :=
  match h with
  | NilConfigHook => (None, cfg, w)
  | UserConfigHook f => f cfg w
  end.

Definition OnPermissionRequest (h : PermissionHook)
    (req : CreatePermissionRequest) (w : World)
    : (option bool * option error) * World :=
  match h with
  | NilPermissionHook => ((None, None), w)
  | UserPermissionHook f => f req w
  end.

Definition OnToolExecuteBefore (h : ToolHook) (input : ToolExecuteInput)
    (w : World) : (option (gmap string any) * option error) * World :=
  match h with
  | NilToolHook => ((None, None), w)
  | UserToolHook before _ => before input w
  end.

Definition OnToolExecuteAfter (h : ToolHook) (input : ToolExecuteInput)
    (result : ToolExecuteResult) (w : World)
    : (option ToolExecuteResult * option error) * World :=
  match h with
  | NilToolHook => ((None, None), w)
  | UserToolHook _ after => after input result w
  end.

(** The [Hooks] interface: six getters, each of which may return nil. *)
Record Hooks : Type := {
  Config_ : option ConfigHook;
  Session_ : option SessionHook;
  Message_ : option MessageHook;
  Permission_ : option PermissionHook;
  Tool_ : option ToolHook;
  Agent_ : option AgentHook
}.

(** [NewBaseHooks]: every getter returns the no-op implementation. *)
Definition NewBaseHooks : Hooks :=
  {| Config_ := Some NilConfigHook;
     Session_ := Some NilSessionHook;
     Message_ := Some NilMessageHook;
     Permission_ := Some NilPermissionHook;
     Tool_ := Some NilToolHook;
     Agent_ := Some NilAgentHook |}.

(** The [Plugin] interface.  [Info] is constant metadata; [Hooks()] reads
    the plugin's state (plugins set their hooks up before or during
    [Init]).  [Init] and [Shutdown] act on the state of the extensions,
    [World], which is also where what an extension prints or logs is
    kept (the [logs] of the machine are the lines the host writes); an
    [Init] that writes through the pointer [pluginCtx.Config] is not
    part of this model. *)
Record Plugin : Type := {
  Info : PluginInfo;
  Init : PluginContext -> World -> option error * World;
  GetHooks : World -> Hooks;
  PluginShutdown : World -> option error * World
}.

Record Registry : Type := {
  plugins : gmap string Plugin;
  configHooks : list ConfigHook;
  sessionHooks : list SessionHook;
  messageHooks : list MessageHook;
  permHooks : list PermissionHook;
  toolHooks : list ToolHook;
  agentHooks : list AgentHook
}.

Definition NewRegistry : Registry :=
  {| plugins := ∅; configHooks := []; sessionHooks := [];
     messageHooks := []; permHooks := []; toolHooks := [];
     agentHooks := [] |}.

(** Calls from the host into extension code, in the order they happen. *)
Inductive Event : Type :=
| EvInit (p : Plugin) (pluginCtx : PluginContext)
| EvHooks (p : Plugin) (hooks : Hooks)
| EvShutdown (name : string) (p : Plugin)
| EvConfigLoad (h : ConfigHook) (cfg : Config)
| EvPermissionRequest (h : PermissionHook) (req : CreatePermissionRequest)
| EvToolExecuteBefore (h : ToolHook) (input : ToolExecuteInput)
| EvToolExecuteAfter (h : ToolHook) (input : ToolExecuteInput)
    (result : ToolExecuteResult).

(** Lines written to the diagnostic stream and to the structured log. *)
Inductive LogLine : Type :=
| Stderr (line : string)
| SlogWarn (msg : string) (err : option error)
| SlogError (msg : string) (err : error)
| SlogInfo (msg : string) (count : nat).

(** The state of the process: the registry object, the configuration
    object the host and the config hooks share, the extensions' own
    state, and what was called and logged so far. *)
Record Machine : Type := {
  registry : Registry;
  config : Config;
  world : World;
  trace : list Event;
  logs : list LogLine
}.

Definition M (A : Type) : Type := Machine -> A * Machine.

Definition ret {A} (a : A) : M A := fun m => (a, m).
Definition bind {A B} (c : M A) (k : A -> M B) : M B :=
  fun m => let (a, m1) := c m in k a m1.

Definition emit (e : Event) : M unit := fun m =>
  (tt, {| registry := registry m; config := config m; world := world m;
          trace := trace m ++ [e]; logs := logs m |}).

Definition logLine (l : LogLine) : M unit := fun m =>
  (tt, {| registry := registry m; config := config m; world := world m;
          trace := trace m; logs := logs m ++ [l] |}).

Definition getRegistry : M Registry := fun m => (registry m, m).

Definition putRegistry (r : Registry) : M unit := fun m =>
  (tt, {| registry := r; config := config m; world := world m;
          trace := trace m; logs := logs m |}).

(** Run extension code on the extensions' state. *)
Definition onWorld {A} (f : World -> A * World) : M A := fun m =>
  let (a, w) := f (world m) in
  (a, {| registry := registry m; config := config m; world := w;
         trace := trace m; logs := logs m |}).

(** Run a config hook: it sees and may mutate the shared configuration. *)
Definition onConfig (f : Config -> World -> option error * Config * World)
    : M (option error) := fun m =>
  let '(err, cfg, w) := f (config m) (world m) in
  (err, {| registry := registry m; config := cfg; world := w;
           trace := trace m; logs := logs m |}).

Notation "x <- c ;; k" := (bind c (fun x => k))
  (at level 100, c at next level, right associativity).
Notation "c ;;; k" := (bind c (fun _ => k))
  (at level 100, right associativity).

(** *** registry.go *)

(** [registerHooks]: a getter's value is appended to its pipeline when it
    is not nil. *)
Definition appendHook {H : Type} (pipeline : list H) (hook : option H) : list H :=
  match hook with
  | Some h => pipeline ++ [h]
  | None => pipeline
  end.

Definition registerHooks (r : Registry) (hooks : Hooks) : Registry :=
  {| plugins := plugins r;
     configHooks := appendHook (configHooks r) (Config_ hooks);
     sessionHooks := appendHook (sessionHooks r) (Session_ hooks);
     messageHooks := appendHook (messageHooks r) (Message_ hooks);
     permHooks := appendHook (permHooks r) (Permission_ hooks);
     toolHooks := appendHook (toolHooks r) (Tool_ hooks);
     agentHooks := appendHook (agentHooks r) (Agent_ hooks) |}.

Definition storePlugin (name : string) (p : Plugin) (r : Registry) : Registry :=
  {| plugins := <[name := p]> (plugins r);
     configHooks := configHooks r; sessionHooks := sessionHooks r;
     messageHooks := messageHooks r; permHooks := permHooks r;
     toolHooks := toolHooks r; agentHooks := agentHooks r |}.

Definition deletePlugin (name : string) (r : Registry) : Registry :=
  {| plugins := delete name (plugins r);
     configHooks := configHooks r; sessionHooks := sessionHooks r;
     messageHooks := messageHooks r; permHooks := permHooks r;
     toolHooks := toolHooks r; agentHooks := agentHooks r |}.

Definition LoadPlugin (p : Plugin) (pluginCtx : PluginContext) : M (option error) :=
  let info := Info p in
  r <- getRegistry ;;
  match plugins r !! Name info with
  | Some _ =>
      ret (Some (errorString ("plugin " +:+ Name info +:+ " is already loaded")))
  | None =>
      emit (EvInit p pluginCtx) ;;;
      err <- onWorld (Init p pluginCtx) ;;
      match err with
      | Some e =>
          ret (Some (wrapError
                 ("failed to initialize plugin " +:+ Name info +:+ ": ") e))
      | None =>
          r1 <- getRegistry ;;
          putRegistry (storePlugin (Name info) p r1) ;;;
          hooks <- onWorld (fun w => (GetHooks p w, w)) ;;
          emit (EvHooks p hooks) ;;;
          r2 <- getRegistry ;;
          putRegistry (registerHooks r2 hooks) ;;;
          ret None
      end
  end.

Definition UnloadPlugin (name : string) : M (option error) :=
  r <- getRegistry ;;
  match plugins r !! name with
  | None => ret (Some (errorString ("plugin " +:+ name +:+ " is not loaded")))
  | Some p =>
      emit (EvShutdown name p) ;;;
      err <- onWorld (PluginShutdown p) ;;
      match err with
      | Some e =>
          ret (Some (wrapError ("failed to shutdown plugin " +:+ name +:+ ": ") e))
      | None =>
          r1 <- getRegistry ;;
          putRegistry (deletePlugin name r1) ;;;
          ret None
      end
  end.

Definition GetPlugin (name : string) : M (option Plugin) :=
  r <- getRegistry ;; ret (plugins r !! name).

(** The order in which [csync.Map.Range] visits the entries of the
    plugin map is Go's map iteration order: the runtime supplies some
    enumeration of the entries. *)
Definition RangeOrder : Type := gmap string Plugin -> list (string * Plugin).

Definition ListPlugins (range : RangeOrder) : M (list PluginInfo) :=
  r <- getRegistry ;;
  ret (map (fun kv => Info (snd kv)) (range (plugins r))).

(** The body of [Shutdown]'s [Range] callback over the entries still to
    be visited; [errors] accumulates. *)
Fixpoint shutdownRange (entries : list (string * Plugin)) (errors : list error)
    : M (list error) :=
  match entries with
  | [] => ret errors
  | (name, p) :: rest =>
      emit (EvShutdown name p) ;;;
      err <- onWorld (PluginShutdown p) ;;
      match err with
      | Some e =>
          shutdownRange rest (errors ++ [wrapError ("plugin " +:+ name +:+ ": ") e])
      | None => shutdownRange rest errors
      end
  end.

(** [%v] of a slice of errors. *)
Definition formatErrors (errors : list error) : string :=
  "[" +:+ gostrings.Join (map Error errors) " " +:+ "]".

Definition Shutdown (range : RangeOrder) : M (option error) :=
  r <- getRegistry ;;
  errors <- shutdownRange (range (plugins r)) [] ;;
  match errors with
  | _ :: _ =>
      ret (Some (errorString
             ("failed to shutdown " +:+ itoa (length errors)
              +:+ " plugin(s): " +:+ formatErrors errors)))
  | [] => ret None
  end.

(** The loop of [TriggerConfigHooks] over the snapshot of the pipeline. *)
Fixpoint runConfigHooks (hooks : list ConfigHook) : M (option error) :=
  match hooks with
  | [] => ret None
  | hook :: rest =>
      (fun m => emit (EvConfigLoad hook (config m)) m) ;;;
      err <- onConfig (OnConfigLoad hook) ;;
      match err with
      | Some e => ret (Some (wrapError "config hook failed: " e))
      | None => runConfigHooks rest
      end
  end.

Definition TriggerConfigHooks : M (option error) :=
  r <- getRegistry ;; runConfigHooks (configHooks r).

(** The loop of [TriggerPermissionRequest]. *)
Fixpoint runPermissionHooks (hooks : list PermissionHook)
    (req : CreatePermissionRequest) : M (option bool * option error) :=
  match hooks with
  | [] => ret (None, None)
  | hook :: rest =>
      emit (EvPermissionRequest hook req) ;;;
      res <- onWorld (OnPermissionRequest hook req) ;;
      match res with
      | (_, Some e) => ret (None, Some (wrapError "permission hook failed: " e))
      | (Some decision, None) => ret (Some decision, None)
      | (None, None) => runPermissionHooks rest req
      end
  end.

Definition TriggerPermissionRequest (req : CreatePermissionRequest)
    : M (option bool * option error) :=
  r <- getRegistry ;; runPermissionHooks (permHooks r) req.

(** The loop of [TriggerToolExecuteBefore]; [args] and [input] are the
    local variables of the same names. *)
Fixpoint runToolBeforeHooks (hooks : list ToolHook) (input : ToolExecuteInput)
    (args : option (gmap string any))
    : M (option (gmap string any) * option error) :=
  match hooks with
  | [] => ret (args, None)
  | hook :: rest =>
      emit (EvToolExecuteBefore hook input) ;;;
      res <- onWorld (OnToolExecuteBefore hook input) ;;
      match res with
      | (_, Some e) =>
          ret (None, Some (wrapError "tool execute before hook failed: " e))
      | (Some modifiedArgs, None) =>
          runToolBeforeHooks rest (with_Arguments input (Some modifiedArgs))
            (Some modifiedArgs)
      | (None, None) => runToolBeforeHooks rest input args
      end
  end.

Definition TriggerToolExecuteBefore (input : ToolExecuteInput)
    : M (option (gmap string any) * option error) :=
  r <- getRegistry ;; runToolBeforeHooks (toolHooks r) input (Arguments input).

(** The loop of [TriggerToolExecuteAfter]; [result] is the local variable
    of that name. *)
Fixpoint runToolAfterHooks (hooks : list ToolHook) (input : ToolExecuteInput)
    (result : ToolExecuteResult) : M (ToolExecuteResult * option error) :=
  match hooks with
  | [] => ret (result, None)
  | hook :: rest =>
      emit (EvToolExecuteAfter hook input result) ;;;
      res <- onWorld (OnToolExecuteAfter hook input result) ;;
      match res with
      | (_, Some e) =>
          ret (result, Some (wrapError "tool execute after hook failed: " e))
      | (Some modifiedResult, None) => runToolAfterHooks rest input modifiedResult
      | (None, None) => runToolAfterHooks rest input result
      end
  end.

Definition TriggerToolExecuteAfter (input : ToolExecuteInput)
    (result : ToolExecuteResult) : M (ToolExecuteResult * option error) :=
  r <- getRegistry ;; runToolAfterHooks (toolHooks r) input result.

(** *** registry.go: the triggers that only notify *)

Definition OnSessionCreated (h : SessionHook) (sess : Session) (w : World)
    : option error * World :=
  match h with
  | NilSessionHook => (None, w)
  | UserSessionHook created _ _ => created sess w
  end.

Definition OnSessionUpdated (h : SessionHook) (sess : Session) (w : World)
    : option error * World :=
  match h with
  | NilSessionHook => (None, w)
  | UserSessionHook _ updated _ => updated sess w
  end.

Definition OnSessionDeleted (h : SessionHook) (sessionID : string) (w : World)
    : option error * World :=
  match h with
  | NilSessionHook => (None, w)
  | UserSessionHook _ _ deleted => deleted sessionID w
  end.

Definition OnMessageCreated (h : MessageHook) (msg : Message) (w : World)
    : option error * World :=
  match h with
  | NilMessageHook => (None, w)
  | UserMessageHook created _ => created msg w
  end.

Definition OnMessageUpdated (h : MessageHook) (msg : Message) (w : World)
    : option error * World :=
  match h with
  | NilMessageHook => (None, w)
  | UserMessageHook _ updated => updated msg w
  end.

Definition OnAgentStart (h : AgentHook) (input : AgentStartInput) (w : World)
    : option error * World :=
  match h with
  | NilAgentHook => (None, w)
  | UserAgentHook start _ _ => start input w
  end.

Definition OnAgentStep (h : AgentHook) (input : AgentStepInput) (w : World)
    : option error * World :=
  match h with
  | NilAgentHook => (None, w)
  | UserAgentHook _ step _ => step input w
  end.

Definition OnAgentFinish (h : AgentHook) (input : AgentFinishInput) (w : World)
    : option error * World :=
  match h with
  | NilAgentHook => (None, w)
  | UserAgentHook _ _ finish => finish input w
  end.

(** The loop the session, message and agent triggers share, each with
    its own hook method [call] and its own text [failure] in front of
    the error: the first error ends the loop.  These calls are not
    recorded in the trace. *)
Fixpoint runNotifyHooks {H : Type} (call : H -> World -> option error * World)
    (failure : string) (hooks : list H) : M (option error) :=
  match hooks with
  | [] => ret None
  | hook :: rest =>
      err <- onWorld (call hook) ;;
      match err with
      | Some e => ret (Some (wrapError failure e))
      | None => runNotifyHooks call failure rest
      end
  end.

Definition TriggerSessionCreated (sess : Session) : M (option error) :=
  r <- getRegistry ;;
  runNotifyHooks (fun hook => OnSessionCreated hook sess)
    "session created hook failed: " (sessionHooks r).

Definition TriggerSessionUpdated (sess : Session) : M (option error) :=
  r <- getRegistry ;;
  runNotifyHooks (fun hook => OnSessionUpdated hook sess)
    "session updated hook failed: " (sessionHooks r).

Definition TriggerSessionDeleted (sessionID : string) : M (option error) :=
  r <- getRegistry ;;
  runNotifyHooks (fun hook => OnSessionDeleted hook sessionID)
    "session deleted hook failed: " (sessionHooks r).

Definition TriggerMessageCreated (msg : Message) : M (option error) :=
  r <- getRegistry ;;
  runNotifyHooks (fun hook => OnMessageCreated hook msg)
    "message created hook failed: " (messageHooks r).

Definition TriggerMessageUpdated (msg : Message) : M (option error) :=
  r <- getRegistry ;;
  runNotifyHooks (fun hook => OnMessageUpdated hook msg)
    "message updated hook failed: " (messageHooks r).

Definition TriggerAgentStart (input : AgentStartInput) : M (option error) :=
  r <- getRegistry ;;
  runNotifyHooks (fun hook => OnAgentStart hook input)
    "agent start hook failed: " (agentHooks r).

Definition TriggerAgentStep (input : AgentStepInput) : M (option error) :=
  r <- getRegistry ;;
  runNotifyHooks (fun hook => OnAgentStep hook input)
    "agent step hook failed: " (agentHooks r).

Definition TriggerAgentFinish (input : AgentFinishInput) : M (option error) :=
  r <- getRegistry ;;
  runNotifyHooks (fun hook => OnAgentFinish hook input)
    "agent finish hook failed: " (agentHooks r).

(** *** loader.go *)

(** What [plugin.Lookup] finds under a name: a value that implements the
    [Plugin] interface, or any other value. *)
Inductive Symbol : Type :=
| SymPlugin (p : Plugin)
| SymOther.

Record DirEntry : Type := { entry_Name : string; entry_IsDir : bool }.

(** What the runtime and the operating system answer: the enumeration
    order of the plugin map, [filepath.Abs], [os.Stat] (is it a
    directory?), [os.ReadDir], and [plugin.Open] (the symbol table of the
    artifact). *)
Record Host : Type := {
  Range : RangeOrder;
  Abs : string -> error + string;
  Stat : string -> error + bool;
  ReadDir : string -> error + list DirEntry;
  Open : string -> error + gmap string Symbol
}.

(** [Lookup] on an opened artifact of Go's package [plugin]. *)
Definition Lookup (p : gmap string Symbol) (symName : string) : error + Symbol :=
  match p !! symName with
  | Some sym => inr sym
  | None => inl (errorString ("plugin: symbol " +:+ symName +:+ " not found"))
  end.

Definition loadGoPlugin (host : Host) (path : string) (pluginCtx : PluginContext)
    : M (option error) :=
  match Open host path with
  | inl err => ret (Some (wrapError "failed to open plugin: " err))
  | inr p =>
      match Lookup p "Plugin" with
      | inl err =>
          ret (Some (wrapError "plugin does not export 'Plugin' symbol: " err))
      | inr symbol =>
          match symbol with
          | SymOther =>
              ret (Some (errorString
                     "Plugin symbol does not implement plugin.Plugin interface"))
          | SymPlugin pluginImpl =>
              err <- LoadPlugin pluginImpl pluginCtx ;;
              match err with
              | Some e => ret (Some (wrapError "failed to load plugin: " e))
              | None => ret None
              end
          end
      end
  end.

Fixpoint firstSharedObject (dir : string) (entries : list DirEntry)
    : option string :=
  match entries with
  | [] => None
  | entry :: rest =>
      if negb (entry_IsDir entry) && gostrings.HasSuffix (entry_Name entry) ".so"
      then Some (filepath.Join [dir; entry_Name entry])
      else firstSharedObject dir rest
  end.

Definition findPluginInDir (host : Host) (dir : string) : error + string :=
  match ReadDir host dir with
  | inl err => inl (wrapError "failed to read plugin directory: " err)
  | inr entries =>
      match firstSharedObject dir entries with
      | Some path => inr path
      | None => inl (errorString ("no .so file found in directory: " +:+ dir))
      end
  end.

Definition LoadFromPath (host : Host) (path : string) (pluginCtx : PluginContext)
    : M (option error) :=
  match Abs host path with
  | inl err => ret (Some (wrapError "failed to resolve plugin path: " err))
  | inr absPath =>
      match Stat host absPath with
      | inl err => ret (Some (wrapError "plugin path does not exist: " err))
      | inr isDir =>
          match (if isDir then findPluginInDir host absPath else inr absPath) with
          | inl err => ret (Some err)
          | inr pluginPath =>
              if negb (gostrings.HasSuffix pluginPath ".so")
              then ret (Some (errorString
                          ("plugin must be a .so file, got: " +:+ pluginPath)))
              else loadGoPlugin host pluginPath pluginCtx
          end
      end
  end.

Fixpoint loadPaths (host : Host) (pluginPaths : list string)
    (pluginCtx : PluginContext) : M unit :=
  match pluginPaths with
  | [] => ret tt
  | path :: rest =>
      err <- LoadFromPath host path pluginCtx ;;
      match err with
      | Some e =>
          logLine (Stderr ("Warning: failed to load plugin from " +:+ path
                           +:+ ": " +:+ Error e +:+ newline)) ;;;
          loadPaths host rest pluginCtx
      | None => loadPaths host rest pluginCtx
      end
  end.

Definition LoadFromConfig (host : Host) (pluginCtx : PluginContext)
    : M (option error) :=
  (cfg <- (fun m => (config m, m)) ;;
   loadPaths host (GetPluginPaths cfg) pluginCtx) ;;;
  ret None.

(** *** tool.go *)

(** [fantasy.ToolInfo] and [fantasy.ToolCall] with the fields the
    plugins fill in and read; a text [fantasy.ToolResponse] is its
    text. *)
Record ToolInfo : Type := {
  info_Name : string;
  info_Description : string;
  info_Parameters : gmap string any
}.

Record ToolCall : Type := { call_ID : string; call_Name : string; call_Input : string }.

(** A value of the interface [PluginTool]: its two methods. *)
Record PluginTool : Type := {
  tool_Info : ToolInfo;
  tool_Run : ToolCall -> World -> (string * option error) * World
}.

Record pluginToolAdapter : Type := { tool : PluginTool }.

Definition NewAgentTool (t : PluginTool) : pluginToolAdapter := {| tool := t |}.

Definition adapter_Info (a : pluginToolAdapter) : ToolInfo := tool_Info (tool a).

Definition adapter_Run (a : pluginToolAdapter) (params : ToolCall) (w : World)
    : (string * option error) * World :=
  tool_Run (tool a) params w.

(** The type assertion [plugin.(ToolProvider)]: whether the dynamic type
    of a plugin has the method [GetTools], which reads the plugin's
    state. *)
Definition ToolProvider : Type := Plugin -> option (World -> list PluginTool).

Definition GetPluginTools (range : RangeOrder) (asToolProvider : ToolProvider)
    : M (list pluginToolAdapter) :=
  r <- getRegistry ;;
  w <- (fun m => (world m, m)) ;;
  ret (concat (map (fun kv =>
                      match asToolProvider (snd kv) with
                      | Some GetTools => map NewAgentTool (GetTools w)
                      | None => []
                      end)
                   (range (plugins r)))).

End Contract.
End plugin.


(** ** Package [skills]: discovery of SKILL.md bundles *)
Module skills.
Import gostrings.

Record SkillFrontmatter : Type := {
  fm_Name : string;
  fm_Description : string;
  fm_License : string;
  fm_AllowedTools : list string;
  fm_Metadata : option (gmap string string)
}.

Record Skill : Type := {
  Name : string;
  FullPath : string;
  ToolName : string;
  Description : string;
  AllowedTools : list string;
  Metadata : option (gmap string string);
  License : string;
  Content : string;
  Path : string
}.

(** One call of the function [discoverSkills] passes to
    [filepath.WalkDir]: the path, whether the walk reports an error for
    it, and the directory entry's [IsDir()] and [Name()]. *)
Record WalkEntry : Type := {
  walk_path : string;
  walk_err : bool;
  walk_IsDir : bool;
  walk_Name : string
}.

(** What lies outside the package: the file system ([os.ReadFile],
    whether [os.Stat]'s error is [IsNotExist], the calls [filepath.WalkDir]
    makes for a root, in its lexical order), the process environment
    ([os.Getenv], [os.UserHomeDir]), [yaml.Unmarshal] into a
    [SkillFrontmatter], and [strings.TrimSpace]. *)
Record Env : Type := {
  ReadFile : string -> error + string;
  IsNotExist : string -> bool;
  WalkDir : string -> list WalkEntry;
  Getenv : string -> string;
  UserHomeDir : error + string;
  Unmarshal : string -> error + SkillFrontmatter;
  TrimSpace : string -> string
}.

Fixpoint allBytes (P : ascii -> bool) (s : string) : bool :=
  match s with
  | "" => true
  | String c s' => P c && allBytes P s'
  end.

(** The character class [[a-z0-9-]]. *)
Definition isNameByte (c : ascii) : bool :=
  isLower c || isDigit c || Ascii.eqb c "-".

(** The character class [[a-zA-Z0-9_]]. *)
Definition isWordByte (c : ascii) : bool :=
  isLower c || isUpper c || isDigit c || Ascii.eqb c "_".

(** [regexp.MatchString("^[a-z0-9-]+$", name)]: without the [m] flag [$]
    is the end of the text, so the match is of the whole of [name]. *)
Definition validateSkillName (name : string) : bool :=
  negb (String.eqb name "") && allBytes isNameByte name.

(** [regexp.MustCompile("[^a-zA-Z0-9_]").ReplaceAllString(s, "_")]: every
    rune outside the class, whatever its width in bytes, becomes one
    underscore.  [skip] bytes of the current rune are still to be passed
    over. *)
Fixpoint replaceNonWord (skip : nat) (s : string) : string :=
  match s with
  | "" => ""
  | String c s' =>
      match skip with
      | S k => replaceNonWord k s'
      | 0 =>
          if isWordByte c then String c (replaceNonWord 0 s')
          else String "_" (replaceNonWord (runeWidth (String c s') - 1) s')
      end
  end.

Definition generateToolName (skillPath : string) : string :=
  let cleaned := TrimPrefix skillPath "./" in
  let cleaned := TrimSuffix cleaned "/" in
  let toolName := ReplaceAll cleaned "/" "_" in
  let toolName := replaceNonWord 0 toolName in
  let toolName := ToLower toolName in
  "skills_" +:+ toolName.

Definition parseSkillMD (env : Env) (skillPath : string) : error + Skill :=
  match ReadFile env skillPath with
  | inl err => inl (wrapError "failed to read skill file: " err)
  | inr contentStr =>
      match SplitN contentStr "---" 3 with
      | [_; frontmatterText; body] =>
          match Unmarshal env frontmatterText with
          | inl err => inl (wrapError "failed to parse frontmatter: " err)
          | inr frontmatter =>
              if String.eqb (fm_Name frontmatter) ""
              then inl (errorString "skill name is required in frontmatter")
              else if negb (validateSkillName (fm_Name frontmatter))
              then inl (errorString
                     ("invalid skill name format: " +:+ fm_Name frontmatter
                      +:+ " (must be lowercase alphanumeric with hyphens)"))
              else if (String.length (fm_Description frontmatter) <? 20)%nat
              then inl (errorString
                     "skill description must be at least 20 characters")
              else
                let skillDir := filepath.Dir skillPath in
                let skillDirName := filepath.Base skillDir in
                if negb (String.eqb (fm_Name frontmatter) skillDirName)
                then inl (errorString
                       ("skill name '" +:+ fm_Name frontmatter
                        +:+ "' does not match directory name '"
                        +:+ skillDirName +:+ "'"))
                else
                  let skillsIdx := LastIndex skillDir "/skills/" in
                  let relPath :=
                    if (0 <=? skillsIdx)%Z
                    then sliceFrom (Z.to_nat (skillsIdx + 8)) skillDir
                    else skillDirName in
                  inr {| Name := fm_Name frontmatter;
                         FullPath := skillDir;
                         ToolName := generateToolName relPath;
                         Description := fm_Description frontmatter;
                         AllowedTools := fm_AllowedTools frontmatter;
                         Metadata := fm_Metadata frontmatter;
                         License := fm_License frontmatter;
                         Content := TrimSpace env body;
                         Path := skillPath |}
          end
      | _ => inl (errorString "invalid SKILL.md format: missing frontmatter")
      end
  end.

(** The local variables of [discoverSkills] and what it has written to
    the diagnostic stream. *)
Record Discovery : Type := {
  allSkills : list Skill;
  seenToolNames : gmap string string;
  stderr : list string
}.

(** The loop that removes the old skill: the first entry with the tool
    name goes, then [break]. *)
Fixpoint removeFirst (toolName : string) (skills : list Skill) : list Skill :=
  match skills with
  | [] => []
  | s :: rest =>
      if String.eqb (ToolName s) toolName then rest
      else s :: removeFirst toolName rest
  end.

(** The function passed to [filepath.WalkDir]; it always returns nil. *)
Definition visit (env : Env) (st : Discovery) (e : WalkEntry) : Discovery :=
  if walk_err e then st
  else if negb (walk_IsDir e) && String.eqb (walk_Name e) "SKILL.md" then
    let path := walk_path e in
    match parseSkillMD env path with
    | inl parseErr =>
        {| allSkills := allSkills st;
           seenToolNames := seenToolNames st;
           stderr := stderr st ++
             ["Warning: Failed to parse skill at " +:+ path +:+ ": "
              +:+ Error parseErr +:+ newline] |}
    | inr skill =>
        let st1 :=
          match seenToolNames st !! ToolName skill with
          | Some existingPath =>
              {| allSkills := removeFirst (ToolName skill) (allSkills st);
                 seenToolNames := seenToolNames st;
                 stderr := stderr st ++
                   ["Warning: Duplicate tool name '" +:+ ToolName skill
                    +:+ "' for skills at " +:+ existingPath +:+ " and "
                    +:+ path +:+ ". Using the later one." +:+ newline] |}
          | None => st
          end in
        {| allSkills := allSkills st1 ++ [skill];
           seenToolNames := <[ToolName skill := path]> (seenToolNames st1);
           stderr := stderr st1 |}
    end
  else st.

(** One iteration of the loop over [basePaths].  The walk function never
    returns an error, so neither does [filepath.WalkDir], and the warning
    after it is never printed. *)
Definition walkBase (env : Env) (st : Discovery) (basePath : string) : Discovery :=
  if IsNotExist env basePath then st
  else fold_left (visit env) (WalkDir env basePath) st.

Definition discover (env : Env) (basePaths : list string) : Discovery :=
  fold_left (walkBase env) basePaths
    {| allSkills := []; seenToolNames := ∅; stderr := [] |}.

Definition discoverSkills (env : Env) (basePaths : list string)
    : list Skill * option error :=
  (allSkills (discover env basePaths), None).

Definition getSkillBasePaths (env : Env) (workingDir : string) : list string :=
  let configDir := Getenv env "XDG_CONFIG_HOME" in
  let configDir :=
    if String.eqb configDir "" then
      match UserHomeDir env with
      | inr homeDir => filepath.Join [homeDir; ".config"]
      | inl _ => configDir
      end
    else configDir in
  let paths :=
    if negb (String.eqb configDir "")
    then [filepath.Join [configDir; "crush"; "skills"]]
    else [] in
  let paths :=
    match UserHomeDir env with
    | inr homeDir => (paths ++ [filepath.Join [homeDir; ".crush"; "skills"]])%list
    | inl _ => paths
    end in
  (paths ++ [filepath.Join [workingDir; ".crush"; "skills"]])%list.

End skills.

(** ** Package [skills]: the plugin and its tools *)
Module skillsplugin.
Import skills.

Record skillTool : Type := {
  name : string;
  description : string;
  skill : Skill
}.

(** The fields of [Plugin] that [Init] assigns; [info] and [hooks] are
    what [NewPlugin] sets them to. *)
Record Plugin : Type := {
  skills : list Skill;
  tools : list skillTool
}.

Definition info : plugin.PluginInfo :=
  {| plugin.Name := "crush-skills";
     plugin.Version := "1.0.0";
     plugin.Description := "Implements Anthropic's Agent Skills Specification for Crush";
     plugin.Author := "Crush Team" |}.

Definition NewPlugin : Plugin := {| skills := []; tools := [] |}.

(** [Init]: the result, the plugin afterwards, and the lines written to
    the diagnostic stream, those of the discovery first. *)
Definition Init (env : Env) (pluginCtx : plugin.PluginContext) (p : Plugin)
    : option error * Plugin * list string :=
  let basePaths := getSkillBasePaths env (plugin.ctx_WorkingDir pluginCtx) in
  let warnings := stderr (discover env basePaths) in
  match discoverSkills env basePaths with
  | (_, Some err) =>
      (Some (wrapError "failed to discover skills: " err), p, warnings)
  | (found, None) =>
      let registered :=
        map (fun s => {| name := ToolName s; description := Description s;
                         skill := s |}) found in
      let summary :=
        if (0 <? length found)%nat
        then ("Skills Plugin: Loaded " +:+ itoa (length found) +:+ " skill(s)"
              +:+ newline)
             :: map (fun s => "  - " +:+ ToolName s +:+ ": " +:+ Description s
                              +:+ newline) found
        else [] in
      (None, {| skills := found; tools := (tools p ++ registered)%list |},
       (warnings ++ summary)%list)
  end.

(** The methods of [skillTool]. *)
Definition Info (t : skillTool) : plugin.ToolInfo :=
  {| plugin.info_Name := name t;
     plugin.info_Description := description t;
     plugin.info_Parameters := ∅ |}.

Definition Run (t : skillTool) (params : plugin.ToolCall) : string * option error :=
  ("Launching skill: " +:+ Name (skill t) +:+ newline +:+ newline
   +:+ "Base directory for this skill: " +:+ FullPath (skill t)
   +:+ newline +:+ newline +:+ Content (skill t),
   None).

(** The plugin as a value of the [plugin.Plugin] interface.  Its state
    is the [Plugin] object and the diagnostic stream. *)
Definition World : Type := Plugin * list string.

Definition GetTools (w : World) : list (plugin.PluginTool (World:=World)) :=
  map (fun t => {| plugin.tool_Info := Info t;
                   plugin.tool_Run := fun params w => (Run t params, w) |})
      (tools (fst w)).

Definition asPlugin (env : Env) : plugin.Plugin (World:=World) :=
  {| plugin.Info := info;
     plugin.Init := fun pluginCtx w =>
       let '(err, p, lines) := Init env pluginCtx (fst w) in
       (err, (p, (snd w ++ lines)%list));
     plugin.GetHooks := fun _ => plugin.NewBaseHooks;
     plugin.PluginShutdown := fun w => (None, w) |}.

End skillsplugin.

(** ** The example plugin [auto-approve] and the helpers of [crushsdk] *)
Module autoapprove.
Import plugin.

(** [crushsdk.Allow], [Deny] and [NoDecision]. *)
Definition Allow : option bool := Some true.
Definition Deny : option bool := Some false.
Definition NoDecision : option bool := None.

(** [strings.Contains]. *)
Definition Contains (s substr : string) : bool :=
  match gostrings.index s substr with
  | Some _ => true
  | None => false
  end.

Definition info : PluginInfo :=
  {| Name := "auto-approve";
     Version := "1.0.0";
     Description := "Automatically approves permission requests for read-only tools";
     Author := "Crush Examples" |}.

Definition readOnlyTools : gmap string bool :=
  {[ "view" := true; "glob" := true; "grep" := true; "ls" := true;
     "fetch" := true ]}.

(** A record handed to the structured log ([log/slog]): the level, the
    message and the attributes in the order of the call. *)
Inductive slogLevel : Type := LevelDebug | LevelInfo.

Inductive slogValue : Type :=
| StringValue (s : string)
| IntValue (n : Z).

Record slogRecord : Type := {
  rec_Level : slogLevel;
  rec_Message : string;
  rec_Attrs : list (string * slogValue)
}.

Section Hook.
Context {World : Type}.

(** What the plugin takes from outside: [strings.ToLower], which maps
    every Unicode letter to lower case ([gostrings.ToLower] is it on
    ASCII text); the default logger of [log/slog], which decides what
    becomes of a record; and the field [initialized] of the embedded
    [SimplePlugin], set by [SimplePlugin.Init]. *)
Context (ToLower : string -> string) (slog : slogRecord -> World -> World)
  (markInitialized : World -> World).

Definition slogDebug (msg : string) (attrs : list (string * slogValue))
    : World -> World :=
  slog {| rec_Level := LevelDebug; rec_Message := msg; rec_Attrs := attrs |}.

Definition slogInfo (msg : string) (attrs : list (string * slogValue))
    : World -> World :=
  slog {| rec_Level := LevelInfo; rec_Message := msg; rec_Attrs := attrs |}.

(** [autoApprovePermissionHook.OnPermissionRequest]; an absent key of
    the map reads as [false]. *)
Definition OnPermissionRequest (req : CreatePermissionRequest) (w : World)
    : (option bool * option error) * World :=
  if default false (readOnlyTools !! req_ToolName req) then
    ((Allow, None),
     slogDebug "Auto-approving read-only tool"
       [("tool", StringValue (req_ToolName req));
        ("session", StringValue (req_SessionID req))] w)
  else if Contains (ToLower (req_Action req)) "read" then
    ((Allow, None),
     slogDebug "Auto-approving read action"
       [("tool", StringValue (req_ToolName req));
        ("action", StringValue (req_Action req))] w)
  else ((NoDecision, None), w).

Definition autoApprovePermissionHook : PermissionHook (World:=World) :=
  UserPermissionHook OnPermissionRequest.

(** The plugin [init] builds: the hooks of [NewBaseHooks()] with the
    permission hook replaced.  [Init] logs the number of read-only
    tools and calls [SimplePlugin.Init]. *)
Definition Plugin : plugin.Plugin (World:=World) :=
  {| Info := info;
     Init := fun _ w =>
       (None,
        markInitialized
          (slogInfo "Auto-approve plugin initialized"
             [("read_only_tools", IntValue (Z.of_nat (size readOnlyTools)))] w));
     GetHooks := fun _ =>
       {| Config_ := Config_ NewBaseHooks;
          Session_ := Session_ NewBaseHooks;
          Message_ := Message_ NewBaseHooks;
          Permission_ := Some autoApprovePermissionHook;
          Tool_ := Tool_ NewBaseHooks;
          Agent_ := Agent_ NewBaseHooks |};
     PluginShutdown := fun w => (None, w) |}.

End Hook.
End autoapprove.

(** ** Package [app]: start-up *)
Module app.
Import plugin.

Section App.
Context {World : Type}.

Notation "x <- c ;; k" := (bind (World:=World) c (fun x => k))
  (at level 100, c at next level, right associativity).
Notation "c ;;; k" := (bind (World:=World) c (fun _ => k))
  (at level 100, right associativity).

(** The functions [New] and [initPlugins] register for shutdown. *)
Inductive Cleanup : Type :=
| cleanupEvents
| cleanupPlugins
| cleanupDB
| cleanupMCP.

(** The fields of [App] that start-up fills in; [PluginRegistry] and
    [config] are the registry and the configuration of the [Machine]. *)
Record App : Type := {
  cleanupFuncs : list Cleanup;
  AgentCoordinator : bool
}.

Definition addCleanup (app : App) (c : Cleanup) : App :=
  {| cleanupFuncs := cleanupFuncs app ++ [c];
     AgentCoordinator := AgentCoordinator app |}.

Definition getConfig : M (World:=World) Config := fun m => (config m, m).

Definition initPlugins (host : Host) (app : App) : M (option error * App) :=
  cfg <- getConfig ;;
  let pluginCtx := {| ctx_Config := cfg; ctx_WorkingDir := WorkingDir cfg |} in
  err <- LoadFromConfig host pluginCtx ;;
  match err with
  | Some e => ret (Some (wrapError "failed to load plugins from config: " e), app)
  | None =>
      err <- TriggerConfigHooks ;;
      match err with
      | Some e =>
          ret (Some (wrapError "failed to trigger config hooks: " e), app)
      | None =>
          infos <- ListPlugins (Range host) ;;
          logLine (SlogInfo "Plugins initialized" (length infos)) ;;;
          ret (None, addCleanup app cleanupPlugins)
      end
  end.

(** [agent.NewCoordinator] belongs to package [internal/agent]:
    [newCoordinator] says whether it fails for a configuration. *)
Definition InitCoderAgent (newCoordinator : Config -> option error) (app : App)
    : M (option error * App) :=
  cfg <- getConfig ;;
  if String.eqb (CoderAgentID cfg) ""
  then ret (Some (errorString "coder agent configuration is missing"), app)
  else
    match newCoordinator cfg with
    | Some e =>
        logLine (SlogError "Failed to create coder agent" e) ;;;
        ret (Some e, app)
    | None =>
        ret (None, {| cleanupFuncs := cleanupFuncs app ++ [cleanupMCP];
                      AgentCoordinator := true |})
    end.

(** [New]: the services, the event subscribers and the LSP clients it
    sets up first do not touch the plugin runtime and are left out,
    apart from the clean-up function [setupEvents] registers. *)
Definition New (host : Host) (newCoordinator : Config -> option error)
    : M (option App * option error) :=
  putRegistry NewRegistry ;;;
  let app := {| cleanupFuncs := [cleanupEvents]; AgentCoordinator := false |} in
  res <- initPlugins host app ;;
  (match fst res with
   | Some e => logLine (SlogWarn "Failed to initialize plugins" (Some e))
   | None => ret tt
   end) ;;;
  let app := addCleanup (snd res) cleanupDB in
  cfg <- getConfig ;;
  if negb (IsConfigured cfg)
  then logLine (SlogWarn "No agent configuration found" None) ;;;
       ret (Some app, None)
  else
    res <- InitCoderAgent newCoordinator app ;;
    match fst res with
    | Some e => ret (None, Some (wrapError "failed to initialize coder agent: " e))
    | None => ret (Some (snd res), None)
    end.

(** *** Event forwarding *)

(** Modelled from the spec: [pubsub.Event] of package [internal/pubsub],
    an event type and a payload. *)
Inductive EventType : Type := CreatedEvent | UpdatedEvent | DeletedEvent.

Record pubsub_Event (T : Type) : Type := {
  event_Type : EventType;
  event_Payload : T
}.
Arguments event_Type {T} _.
Arguments event_Payload {T} _.

Definition logHookError (msg : string) (err : option error) : M (World:=World) unit :=
  match err with
  | Some e => logLine (SlogError msg e)
  | None => ret tt
  end.

(** The two goroutines of [setupPluginEventForwarding], each on the
    events [ch] its subscription delivers before the channel is closed
    or the context is done. *)
Fixpoint forwardSessionEvents (ch : list (pubsub_Event Session)) : M unit :=
  match ch with
  | [] => ret tt
  | event :: rest =>
      match event_Type event with
      | CreatedEvent =>
          err <- TriggerSessionCreated (event_Payload event) ;;
          logHookError "Plugin session created hook failed" err
      | UpdatedEvent =>
          err <- TriggerSessionUpdated (event_Payload event) ;;
          logHookError "Plugin session updated hook failed" err
      | DeletedEvent =>
          err <- TriggerSessionDeleted (sess_ID (event_Payload event)) ;;
          logHookError "Plugin session deleted hook failed" err
      end ;;;
      forwardSessionEvents rest
  end.

Fixpoint forwardMessageEvents (ch : list (pubsub_Event Message)) : M unit :=
  match ch with
  | [] => ret tt
  | event :: rest =>
      match event_Type event with
      | CreatedEvent =>
          err <- TriggerMessageCreated (event_Payload event) ;;
          logHookError "Plugin message created hook failed" err
      | UpdatedEvent =>
          err <- TriggerMessageUpdated (event_Payload event) ;;
          logHookError "Plugin message updated hook failed" err
      | DeletedEvent => ret tt
      end ;;;
      forwardMessageEvents rest
  end.

(** *** Shutdown *)




End App.

Arguments event_Type {T} _.
Arguments event_Payload {T} _.

(** *** RunNonInteractive *)

(** Modelled from the spec: [message.Message] of package
    [internal/message] as the loop of [RunNonInteractive] reads it: the
    ID, the session, whether the role is [message.Assistant], the number
    of parts, and the text of [Content()]. *)
Record StreamedMessage : Type := {
  stream_ID : string;
  stream_SessionID : string;
  stream_Assistant : bool;
  stream_Parts : nat;
  stream_Content : string
}.

(** What an iteration of the loop selects: a response from [done] with
    its error, an event from [messageEvents], or [ctx.Done()] with
    [ctx.Err()]. *)
Inductive Selected : Type :=
| SelDone (err : option error)
| SelMessage (msg : StreamedMessage)
| SelCtxDone (err : error).

(** What the loop writes to standard output: the two escape sequences
    of package [ansi] and the parts of the messages. *)
Inductive Written : Type :=
| SetIndeterminateProgressBar
| ResetProgressBar
| Text (part : string).

Record Loop : Type := {
  messageReadBytes : gmap string nat;
  stdout : list Written
}.

Definition print (st : Loop) (o : Written) : Loop :=
  {| messageReadBytes := messageReadBytes st; stdout := stdout st ++ [o] |}.

(** The [for] loop of [RunNonInteractive] on the cases its [select]
    takes, for the session [sessID].  The result is the error the
    function returns, or nothing while the loop waits for the next
    case; the deferred reset of the progress bar runs on return.
    [isCancelled] is [errors.Is] against [context.Canceled] and
    [agent.ErrRequestCancelled]; the spinner and the structured log are
    left out. *)
Fixpoint streamLoop (isCancelled : error -> bool) (sessID : string)
    (selected : list Selected) (st : Loop) : option (option error) * Loop :=
  let st := print st SetIndeterminateProgressBar in
  match selected with
  | [] => (None, st)
  | SelDone (Some e) :: _ =>
      if isCancelled e then (Some None, print st ResetProgressBar)
      else (Some (Some (wrapError "agent processing failed: " e)),
            print st ResetProgressBar)
  | SelDone None :: _ => (Some None, print st ResetProgressBar)
  | SelMessage msg :: rest =>
      if String.eqb (stream_SessionID msg) sessID && stream_Assistant msg
         && (0 <? stream_Parts msg)%nat
      then
        let content := stream_Content msg in
        let readBytes := default 0 (messageReadBytes st !! stream_ID msg) in
        if (String.length content <? readBytes)%nat
        then (Some (Some (errorString
                      ("message content is shorter than read bytes: "
                       +:+ itoa (String.length content) +:+ " < "
                       +:+ itoa readBytes))),
              print st ResetProgressBar)
        else
          let part := gostrings.sliceFrom readBytes content in
          streamLoop isCancelled sessID rest
            {| messageReadBytes :=
                 <[stream_ID msg := String.length content]> (messageReadBytes st);
               stdout := stdout st ++ [Text part] |}
      else streamLoop isCancelled sessID rest st
  | SelCtxDone err :: _ => (Some (Some err), print st ResetProgressBar)
  end.

End app.

(** * Reference definitions

    What the properties below are stated with: the pipelines as the
    specification describes them, and the concrete extensions, artifacts
    and files the properties are exercised on. *)
Module reference.
Import plugin.

Section Pipelines.
Context {World : Type}.

Definition setWorld (m : Machine (World:=World)) (w : World) : Machine :=
  {| registry := registry m; config := config m; world := w;
     trace := trace m; logs := logs m |}.

Definition addTrace (m : Machine (World:=World)) (evs : list Event) : Machine :=
  {| registry := registry m; config := config m; world := world m;
     trace := trace m ++ evs; logs := logs m |}.

(** The answers [(decision, err)] the permission hooks of a pipeline give
    when each runs on the state its predecessor left. *)
Fixpoint decisions (hooks : list (PermissionHook (World:=World)))
    (req : CreatePermissionRequest) (w : World)
    : list (option bool * option error) :=
  match hooks with
  | [] => []
  | h :: rest =>
      let (res, w1) := OnPermissionRequest h req w in
      res :: decisions rest req w1
  end.

(** The state the hooks of a pipeline leave when all of them run. *)
Fixpoint worldAfterPermission (hooks : list (PermissionHook (World:=World)))
    (req : CreatePermissionRequest) (w : World) : World :=
  match hooks with
  | [] => w
  | h :: rest =>
      worldAfterPermission rest req (snd (OnPermissionRequest h req w))
  end.

Definition permissionCalls (req : CreatePermissionRequest)
    (hooks : list (PermissionHook (World:=World))) : list Event :=
  map (fun h => EvPermissionRequest h req) hooks.

(** The last non-nil value among [ms], or [x0] if there is none. *)
Definition lastNonNil {A : Type} (x0 : A) (ms : list (option A)) : A :=
  fold_left (fun acc m => match m with Some x => x | None => acc end) ms x0.

(** The tool-before pipeline as the specification words it: hook [i]
    receives the input record with the last non-nil of the earlier
    returns [ms] for arguments.  The list has, for every hook, the input
    it receives and what it returns. *)
Fixpoint beforeRun (hooks : list (ToolHook (World:=World)))
    (input0 : ToolExecuteInput) (ms : list (option (option (gmap string any))))
    (w : World)
    : list (ToolHook * ToolExecuteInput * (option (gmap string any) * option error)) :=
  match hooks with
  | [] => []
  | h :: rest =>
      let input := with_Arguments input0 (lastNonNil (Arguments input0) ms) in
      let (res, w1) := OnToolExecuteBefore h input w in
      (h, input, res) :: beforeRun rest input0 (ms ++ [Some <$> fst res]) w1
  end.

(** The tool-after pipeline likewise: hook [i] receives the last non-nil
    of the earlier modified results, or the caller's result. *)
Fixpoint afterRun (hooks : list (ToolHook (World:=World)))
    (input : ToolExecuteInput) (result0 : ToolExecuteResult)
    (ms : list (option ToolExecuteResult)) (w : World)
    : list (ToolHook * ToolExecuteResult * (option ToolExecuteResult * option error)) :=
  match hooks with
  | [] => []
  | h :: rest =>
      let result := lastNonNil result0 ms in
      let (res, w1) := OnToolExecuteAfter h input result w in
      (h, result, res) :: afterRun rest input result0 (ms ++ [fst res]) w1
  end.

Definition beforeCall
    (c : ToolHook (World:=World) * ToolExecuteInput
         * (option (gmap string any) * option error)) : Event :=
  EvToolExecuteBefore (fst (fst c)) (snd (fst c)).

Definition afterCall (input : ToolExecuteInput)
    (c : ToolHook (World:=World) * ToolExecuteResult
         * (option ToolExecuteResult * option error)) : Event :=
  EvToolExecuteAfter (fst (fst c)) input (snd (fst c)).

(** No hook of the run reports an error. *)
Definition noError {A B : Type} (run : list (A * (B * option error))) : Prop :=
  Forall (fun c => snd (snd c) = None) run.

(** The machine after a call [ev] into extension code that left the
    extensions' state [w]. *)
Definition stepped (m : Machine (World:=World)) (ev : Event) (w : World)
    : Machine :=
  {| registry := registry m; config := config m; world := w;
     trace := trace m ++ [ev]; logs := logs m |}.

(** What a hook of a run returned, as the next value of the threaded
    variable: nil leaves it as it is. *)
Definition returnedArgs
    (c : ToolHook (World:=World) * ToolExecuteInput
         * (option (gmap string any) * option error))
    : option (option (gmap string any)) :=
  Some <$> fst (snd c).

Definition modifiedResult
    (c : ToolHook (World:=World) * ToolExecuteResult
         * (option ToolExecuteResult * option error))
    : option ToolExecuteResult := fst (snd c).

(** Loading a sequence of plugins, one [LoadPlugin] after the other;
    the list has the outcome of each. *)
Fixpoint loadAll (ps : list (Plugin (World:=World))) (pluginCtx : PluginContext)
    : M (list (option error)) :=
  match ps with
  | [] => ret []
  | p :: rest =>
      bind (LoadPlugin p pluginCtx) (fun err =>
      bind (loadAll rest pluginCtx) (fun errs => ret (err :: errs)))
  end.

(** The values the [Hooks()] calls of a trace returned, one per plugin
    that was loaded. *)
Definition hooksOf (ev : Event (World:=World)) : option Hooks :=
  match ev with
  | EvHooks _ hooks => Some hooks
  | _ => None
  end.

Definition hooksReturned (tr : list (Event (World:=World))) : list Hooks :=
  omap hooksOf tr.

Fixpoint countIf {A : Type} (P : A -> bool) (l : list A) : nat :=
  match l with
  | [] => 0
  | x :: rest => (if P x then 1 else 0) + countIf P rest
  end.

(** A getter's value is not nil. *)
Definition nonNil {A : Type} (o : option A) : bool :=
  match o with Some _ => true | None => false end.

(** A getter's value is an implementation other than the contract's
    no-op one. *)
Definition customConfig (hooks : Hooks (World:=World)) : bool :=
  match Config_ hooks with Some (UserConfigHook _) => true | _ => false end.

Definition customSession (hooks : Hooks (World:=World)) : bool :=
  match Session_ hooks with Some (UserSessionHook _ _ _) => true | _ => false end.

Definition customMessage (hooks : Hooks (World:=World)) : bool :=
  match Message_ hooks with Some (UserMessageHook _ _) => true | _ => false end.

Definition customPermission (hooks : Hooks (World:=World)) : bool :=
  match Permission_ hooks with Some (UserPermissionHook _) => true | _ => false end.

Definition customTool (hooks : Hooks (World:=World)) : bool :=
  match Tool_ hooks with Some (UserToolHook _ _) => true | _ => false end.

Definition customAgent (hooks : Hooks (World:=World)) : bool :=
  match Agent_ hooks with Some (UserAgentHook _ _ _) => true | _ => false end.

(** The lengths of the six pipelines are the numbers of non-nil values
    the [Hooks()] calls of the trace returned. *)
Definition lengthsMatch (m : Machine (World:=World)) : Prop :=
  let r := registry m in
  let loaded := hooksReturned (trace m) in
  length (configHooks r) = countIf (fun h => nonNil (Config_ h)) loaded /\
  length (sessionHooks r) = countIf (fun h => nonNil (Session_ h)) loaded /\
  length (messageHooks r) = countIf (fun h => nonNil (Message_ h)) loaded /\
  length (permHooks r) = countIf (fun h => nonNil (Permission_ h)) loaded /\
  length (toolHooks r) = countIf (fun h => nonNil (Tool_ h)) loaded /\
  length (agentHooks r) = countIf (fun h => nonNil (Agent_ h)) loaded.

Definition shutdownCall (entry : string * Plugin (World:=World)) : Event :=
  EvShutdown (fst entry) (snd entry).

Definition configCalls (cfg : Config) (hooks : list (ConfigHook (World:=World)))
    : list Event :=
  map (fun h => EvConfigLoad h cfg) hooks.

(** The config pipeline when every hook runs: each hook with the
    configuration it is handed and the error it returns. *)
Fixpoint configRun (hooks : list (ConfigHook (World:=World))) (cfg : Config)
    (w : World) : list (ConfigHook * Config * option error) :=
  match hooks with
  | [] => []
  | h :: rest =>
      let '(err, cfg1, w1) := OnConfigLoad h cfg w in
      (h, cfg, err) :: configRun rest cfg1 w1
  end.

Definition configCall (c : ConfigHook (World:=World) * Config * option error)
    : Event :=
  EvConfigLoad (fst (fst c)) (snd (fst c)).

(** The machine [New] starts the plugin runtime on, and the plugin
    context [initPlugins] builds. *)
Definition freshRegistry (m : Machine (World:=World)) : Machine :=
  snd (putRegistry NewRegistry m).

Definition startupContext (m : Machine (World:=World)) : PluginContext :=
  {| ctx_Config := config m; ctx_WorkingDir := WorkingDir (config m) |}.

End Pipelines.
End reference.

(** * Reference definitions for skills *)
Module skillsref.
Import skills.

(** The elements after the nearest ancestor directory named [skills]:
    an element is the name of an ancestor when other elements follow it. *)
Fixpoint afterLastSkills (elems : list string) : option (list string) :=
  match elems with
  | [] => None
  | e :: rest =>
      match afterLastSkills rest with
      | Some r => Some r
      | None =>
          if String.eqb e "skills"
          then match rest with [] => None | _ :: _ => Some rest end
          else None
      end
  end.

(** The skill directory's path relative to its nearest ancestor named
    [skills]; the directory's basename when it has no such ancestor. *)
Definition relativeToSkills (skillDir : string) : string :=
  match afterLastSkills (filepath.elements skillDir) with
  | Some rel => gostrings.Join rel "/"
  | None => filepath.Base skillDir
  end.

(** The same, with the first element of the path not taken for an
    ancestor: only a [skills] that follows a separator counts. *)
Definition relativeToSlashSkills (skillDir : string) : string :=
  match afterLastSkills (tail (filepath.elements skillDir)) with
  | Some rel => gostrings.Join rel "/"
  | None => filepath.Base skillDir
  end.

(** Separators to underscores, every character outside [[A-Za-z0-9_]]
    to an underscore, lower case, the prefix. *)
Definition toolNameOf (rel : string) : string :=
  "skills_" +:+
  gostrings.ToLower (replaceNonWord 0 (gostrings.ReplaceAll rel "/" "_")).

(** The character class [[a-z0-9_]] and the regular expression
    [^skills_[a-z0-9_]+$]. *)
Definition isToolNameByte (c : ascii) : bool :=
  gostrings.isLower c || gostrings.isDigit c || Ascii.eqb c "_".

Definition matchesToolName (s : string) : bool :=
  gostrings.HasPrefix s "skills_"
  && negb (String.eqb (gostrings.sliceFrom 7 s) "")
  && allBytes isToolNameByte (gostrings.sliceFrom 7 s).

(** The calls the walk function receives over all base paths, in order:
    a base path whose [os.Stat] says it does not exist is not walked. *)
Definition entriesOf (env : Env) (basePaths : list string) : list WalkEntry :=
  concat (map (fun basePath =>
                 if IsNotExist env basePath then [] else WalkDir env basePath)
              basePaths).

Definition isSkillFile (e : WalkEntry) : bool :=
  negb (walk_err e) && negb (walk_IsDir e) && String.eqb (walk_Name e) "SKILL.md".

(** The skill a call of the walk function parses, if it is for a
    SKILL.md file that is valid. *)
Definition validSkill (env : Env) (e : WalkEntry) : option Skill :=
  if isSkillFile e then
    match parseSkillMD env (walk_path e) with
    | inr skill => Some skill
    | inl _ => None
    end
  else None.

Definition validSkills (env : Env) (entries : list WalkEntry) : list Skill :=
  omap (validSkill env) entries.

Definition hasToolName (toolName : string) (s : Skill) : bool :=
  String.eqb (ToolName s) toolName.

(** Later wins: of the skills with one tool name only the last stays. *)
Fixpoint keepLast (skills : list Skill) : list Skill :=
  match skills with
  | [] => []
  | s :: rest =>
      if existsb (hasToolName (ToolName s)) rest then keepLast rest
      else s :: keepLast rest
  end.

(** The last skill of a list with a tool name. *)
Fixpoint lastWith (toolName : string) (skills : list Skill) : option Skill :=
  match skills with
  | [] => None
  | s :: rest =>
      match lastWith toolName rest with
      | Some s' => Some s'
      | None => if hasToolName toolName s then Some s else None
      end
  end.

Definition parseWarning (path : string) (parseErr : error) : string :=
  "Warning: Failed to parse skill at " +:+ path +:+ ": "
  +:+ Error parseErr +:+ newline.

Definition duplicateWarning (toolName existingPath path : string) : string :=
  "Warning: Duplicate tool name '" +:+ toolName +:+ "' for skills at "
  +:+ existingPath +:+ " and " +:+ path +:+ ". Using the later one." +:+ newline.

(** A path element [Clean] keeps: not empty, not [.], without a slash. *)
Definition slashFree (e : string) : bool :=
  allBytes (fun c => negb (filepath.isSlash c)) e.

Definition keptElement (e : string) : bool :=
  negb (String.eqb e "") && negb (String.eqb e ".") && slashFree e.

(** The skill [parseSkillMD] builds from a validated frontmatter. *)
Definition skillOf (env : Env) (skillPath body : string)
    (frontmatter : SkillFrontmatter) : Skill :=
  let skillDir := filepath.Dir skillPath in
  let skillsIdx := gostrings.LastIndex skillDir "/skills/" in
  {| Name := fm_Name frontmatter;
     FullPath := skillDir;
     ToolName :=
       generateToolName
         (if (0 <=? skillsIdx)%Z
          then gostrings.sliceFrom (Z.to_nat (skillsIdx + 8)) skillDir
          else filepath.Base skillDir);
     Description := fm_Description frontmatter;
     AllowedTools := fm_AllowedTools frontmatter;
     Metadata := fm_Metadata frontmatter;
     License := fm_License frontmatter;
     Content := TrimSpace env body;
     Path := skillPath |}.

(** The validation rules of the frontmatter of the file at [skillPath]. *)
Definition validFrontmatter (skillPath : string) (frontmatter : SkillFrontmatter)
    : Prop :=
  fm_Name frontmatter <> "" /\
  validateSkillName (fm_Name frontmatter) = true /\
  fm_Name frontmatter = filepath.Base (filepath.Dir skillPath) /\
  20 <= String.length (fm_Description frontmatter).

(** The skills of a list with another tool name. *)
Definition others (toolName : string) (skills : list Skill) : list Skill :=
  List.filter (fun s => negb (hasToolName toolName s)) skills.

(** The state of the discovery after the valid skills [valid] were
    found, in that order. *)
Definition tracks (valid : list Skill) (st : Discovery) : Prop :=
  allSkills st = keepLast valid /\
  forall t, seenToolNames st !! t = Path <$> lastWith t valid.

End skillsref.

(** * Example extensions

    Concrete hooks, plugins and artifacts the properties are exercised
    on.  Their state is a counter of the calls made into them. *)
Module examples.
Import plugin reference app.

Definition cfg0 : Config :=
  {| GetPluginPaths := ["/plugins/strict.so"]; WorkingDir := "/work";
     IsConfigured := true; CoderAgentID := "coder" |}.

Definition machine (r : Registry (World:=nat)) : Machine :=
  {| registry := r; config := cfg0; world := 0; trace := []; logs := [] |}.

Definition permRegistry (hooks : list (PermissionHook (World:=nat))) : Registry :=
  {| plugins := ∅; configHooks := []; sessionHooks := []; messageHooks := [];
     permHooks := hooks; toolHooks := []; agentHooks := [] |}.

Definition toolRegistry (hooks : list (ToolHook (World:=nat))) : Registry :=
  {| plugins := ∅; configHooks := []; sessionHooks := []; messageHooks := [];
     permHooks := []; toolHooks := hooks; agentHooks := [] |}.

(** Extension A allows the tool [view] and has no opinion otherwise;
    extension B denies everything; a third one fails. *)
Definition allowView : PermissionHook (World:=nat) :=
  UserPermissionHook (fun req w =>
    ((if String.eqb (req_ToolName req) "view" then Some true else None, None), S w)).

Definition denyAll : PermissionHook (World:=nat) :=
  UserPermissionHook (fun _ w => ((Some false, None), S w)).

Definition brokenPermission : PermissionHook (World:=nat) :=
  UserPermissionHook (fun _ w => ((None, Some (errorString "policy unavailable")), S w)).

Definition request (tool : string) : CreatePermissionRequest :=
  {| req_SessionID := "s1"; req_ToolName := tool; req_Action := "execute" |}.

(** Extension X adds a mode to the arguments, extension Y a trace flag;
    the observer returns nil and the last one fails. *)
Definition addArgument (key : string) (v : any) : ToolHook (World:=nat) :=
  UserToolHook
    (fun input w => ((Some (<[key := v]> (default ∅ (Arguments input))), None), S w))
    (fun _ _ w => ((None, None), w)).

Definition observer : ToolHook (World:=nat) :=
  UserToolHook (fun _ w => ((None, None), S w)) (fun _ _ w => ((None, None), S w)).

Definition redactOutput : ToolHook (World:=nat) :=
  UserToolHook
    (fun _ w => ((None, None), w))
    (fun _ result w =>
       ((Some {| Output := "[redacted]"; ResultError := ResultError result;
                 Metadata := Metadata result |}, None), S w)).

Definition brokenTool : ToolHook (World:=nat) :=
  UserToolHook
    (fun _ w => ((None, Some (errorString "audit log full")), S w))
    (fun _ _ w => ((None, Some (errorString "audit log full")), S w)).

Definition viewCall : ToolExecuteInput :=
  {| ToolName := "view"; SessionID := "s1"; MessageID := "m1";
     ToolCallID := "c1";
     Arguments := Some {[ "path" := anyString "a.txt" ]} |}.

Definition viewResult : ToolExecuteResult :=
  {| Output := "contents of a.txt"; ResultError := None; Metadata := None |}.

Definition info (name : string) : PluginInfo :=
  {| Name := name; Version := "1.0.0"; Description := "example"; Author := "Crush" |}.

(** A plugin like the built-in skills plugin: its hooks are
    [NewBaseHooks()], all no-ops. *)
Definition baseHooksPlugin (name : string) : Plugin (World:=nat) :=
  {| Info := info name;
     Init := fun _ w => (None, w);
     GetHooks := fun _ => NewBaseHooks;
     PluginShutdown := fun w => (None, S w) |}.

(** A plugin whose config hook rejects the configuration. *)
Definition rejectConfig : ConfigHook (World:=nat) :=
  UserConfigHook (fun cfg w => (Some (errorString "unsupported configuration"), cfg, S w)).

Definition strictPlugin : Plugin (World:=nat) :=
  {| Info := info "strict";
     Init := fun _ w => (None, w);
     GetHooks := fun _ =>
       {| Config_ := Some rejectConfig; Session_ := None; Message_ := None;
          Permission_ := None; Tool_ := None; Agent_ := None |};
     PluginShutdown := fun w => (None, w) |}.

(** A host with two artifacts: [strict.so] exports the symbol [Plugin],
    [renamed.so] exports the same value under the name [Extension]. *)
Definition host0 : Host (World:=nat) :=
  {| Range := map_to_list;
     Abs := fun path => inr path;
     Stat := fun path => inr false;
     ReadDir := fun _ => inl (errorString "not a directory");
     Open := fun path =>
       if String.eqb path "/plugins/strict.so"
       then inr {[ "Plugin" := SymPlugin strictPlugin ]}
       else if String.eqb path "/plugins/renamed.so"
       then inr {[ "Extension" := SymPlugin strictPlugin ]}
       else inl (errorString "plugin.Open: no such file") |}.

Definition coordinatorOK : Config -> option error := fun _ => None.

Definition twoPlugins : Registry (World:=nat) :=
  {| plugins := {[ "alpha" := baseHooksPlugin "alpha"; "beta" := baseHooksPlugin "beta" ]};
     configHooks := []; sessionHooks := []; messageHooks := [];
     permHooks := []; toolHooks := []; agentHooks := [] |}.

End examples.

(** * Example skill directories

    A home directory with the skill [foo] under [~/.config/crush/skills]
    and no [~/.crush/skills], and a project with the skills [foo] and
    [baz] and a malformed [bar] under [.crush/skills]. *)
Module skillexamples.
Import skills skillsref.

Definition lines (ls : list string) : string :=
  gostrings.Join ls newline +:+ newline.

Definition fooFrontmatter : string :=
  newline +:+ lines ["name: foo"; "description: Formats reports the foo way"].

Definition bazFrontmatter : string :=
  newline +:+ lines ["name: baz"; "description: Checks the baz of a project"].

Definition skillFile (frontmatterText body : string) : string :=
  "---" +:+ frontmatterText +:+ "---" +:+ newline +:+ body.

Definition globalBase : string := "/home/u/.config/crush/skills".
Definition homeBase : string := "/home/u/.crush/skills".
Definition projectBase : string := "/work/.crush/skills".

Definition files : list (string * string) :=
  [ (globalBase +:+ "/foo/SKILL.md", skillFile fooFrontmatter "global foo");
    (projectBase +:+ "/bar/SKILL.md", "# bar, without frontmatter");
    (projectBase +:+ "/baz/SKILL.md", skillFile bazFrontmatter "project baz");
    (projectBase +:+ "/foo/SKILL.md", skillFile fooFrontmatter "project foo") ].

Fixpoint assoc {A : Type} (key : string) (table : list (string * A)) : option A :=
  match table with
  | [] => None
  | (k, v) :: rest => if String.eqb k key then Some v else assoc key rest
  end.

Definition dirEntry (path name : string) : WalkEntry :=
  {| walk_path := path; walk_err := false; walk_IsDir := true; walk_Name := name |}.

Definition fileEntry (path name : string) : WalkEntry :=
  {| walk_path := path; walk_err := false; walk_IsDir := false; walk_Name := name |}.

Definition skillDirEntries (base name : string) : list WalkEntry :=
  [ dirEntry (base +:+ "/" +:+ name) name;
    fileEntry (base +:+ "/" +:+ name +:+ "/SKILL.md") "SKILL.md" ].

(** [strings.TrimSpace] on text without white space outside ASCII. *)
Definition isSpace (c : ascii) : bool :=
  gostrings.between 9 13 c || Ascii.eqb c " ".

Fixpoint trimLeft (s : string) : string :=
  match s with
  | "" => ""
  | String c rest => if isSpace c then trimLeft rest else s
  end.

Fixpoint trimRight (s : string) : string :=
  match s with
  | "" => ""
  | String c rest =>
      match trimRight rest with
      | "" => if isSpace c then "" else String c ""
      | r => String c r
      end
  end.

Definition frontmatterOf (name description : string) : SkillFrontmatter :=
  {| fm_Name := name; fm_Description := description; fm_License := "";
     fm_AllowedTools := []; fm_Metadata := None |}.

Definition env0 : Env :=
  {| ReadFile := fun path =>
       match assoc path files with
       | Some content => inr content
       | None => inl (errorString ("open " +:+ path +:+ ": no such file or directory"))
       end;
     IsNotExist := fun path => String.eqb path homeBase;
     WalkDir := fun root =>
       if String.eqb root globalBase
       then dirEntry globalBase "skills" :: skillDirEntries globalBase "foo"
       else if String.eqb root projectBase
       then dirEntry projectBase "skills" :: skillDirEntries projectBase "bar"
            ++ skillDirEntries projectBase "baz" ++ skillDirEntries projectBase "foo"
       else [ {| walk_path := root; walk_err := true; walk_IsDir := false;
                 walk_Name := "" |} ];
     Getenv := fun _ => "";
     UserHomeDir := inr "/home/u";
     Unmarshal := fun text =>
       if String.eqb text fooFrontmatter
       then inr (frontmatterOf "foo" "Formats reports the foo way")
       else if String.eqb text bazFrontmatter
       then inr (frontmatterOf "baz" "Checks the baz of a project")
       else inl (errorString "yaml: unmarshal errors");
     TrimSpace := fun s => trimRight (trimLeft s) |}.

(** A process started with the relative [XDG_CONFIG_HOME=skills]: the
    global base path is [skills/crush/skills], and a skill named
    [skills] lies directly in it; the two other base paths do not
    exist. *)
Definition relativeBase : string := "skills/crush/skills".

Definition skillsFrontmatter : string :=
  newline +:+ lines ["name: skills"; "description: Lists the skills of this machine"].

Definition envConfigHome : Env :=
  {| ReadFile := fun path =>
       if String.eqb path (relativeBase +:+ "/SKILL.md")
       then inr (skillFile skillsFrontmatter "All skills")
       else inl (errorString ("open " +:+ path +:+ ": no such file or directory"));
     IsNotExist := fun path => negb (String.eqb path relativeBase);
     WalkDir := fun root =>
       if String.eqb root relativeBase
       then [ dirEntry relativeBase "skills";
              fileEntry (relativeBase +:+ "/SKILL.md") "SKILL.md" ]
       else [];
     Getenv := fun key => if String.eqb key "XDG_CONFIG_HOME" then "skills" else "";
     UserHomeDir := inr "/home/u";
     Unmarshal := fun text =>
       if String.eqb text skillsFrontmatter
       then inr (frontmatterOf "skills" "Lists the skills of this machine")
       else inl (errorString "yaml: unmarshal errors");
     TrimSpace := fun s => trimRight (trimLeft s) |}.

End skillexamples.

(** * Reference definitions for the registry and the loader

    What the further properties of the registry, the notification
    triggers and the loader are stated with. *)
Module behaviour.
Import plugin reference.

Section Registry.
Context {World : Type}.

(** The six pipelines of two registries are the same. *)
Definition samePipelines (r1 r2 : Registry (World:=World)) : Prop :=
  configHooks r1 = configHooks r2 /\ sessionHooks r1 = sessionHooks r2 /\
  messageHooks r1 = messageHooks r2 /\ permHooks r1 = permHooks r2 /\
  toolHooks r1 = toolHooks r2 /\ agentHooks r1 = agentHooks r2.

(** The six pipelines of [r2] are those of [r1], each followed by the
    value of its getter in [hooks] when that value is not nil. *)
Definition extendedBy (r1 r2 : Registry (World:=World)) (hooks : Hooks) : Prop :=
  configHooks r2 = configHooks r1 ++ option_list (Config_ hooks) /\
  sessionHooks r2 = sessionHooks r1 ++ option_list (Session_ hooks) /\
  messageHooks r2 = messageHooks r1 ++ option_list (Message_ hooks) /\
  permHooks r2 = permHooks r1 ++ option_list (Permission_ hooks) /\
  toolHooks r2 = toolHooks r1 ++ option_list (Tool_ hooks) /\
  agentHooks r2 = agentHooks r1 ++ option_list (Agent_ hooks).

(** The six pipelines hold the non-nil getter values of the [Hooks()]
    results [loaded], in that order. *)
Definition pipelinesOf (r : Registry (World:=World)) (loaded : list Hooks) : Prop :=
  configHooks r = omap Config_ loaded /\ sessionHooks r = omap Session_ loaded /\
  messageHooks r = omap Message_ loaded /\ permHooks r = omap Permission_ loaded /\
  toolHooks r = omap Tool_ loaded /\ agentHooks r = omap Agent_ loaded.

(** Every plugin of the map is stored under the name its [Info] gives. *)
Definition keysMatch (r : Registry (World:=World)) : Prop :=
  forall name p, plugins r !! name = Some p -> plugin.Name (Info p) = name.

(** The plugins of [ps] whose [LoadPlugin] returned nil, given the
    outcomes [errs] of the loads. *)
Fixpoint loadedOf (ps : list (Plugin (World:=World))) (errs : list (option error))
    : list Plugin :=
  match ps, errs with
  | p :: ps', None :: errs' => p :: loadedOf ps' errs'
  | _ :: ps', Some _ :: errs' => loadedOf ps' errs'
  | _, _ => []
  end.

(** What the [Shutdown] methods of the entries return when each runs on
    the state its predecessor left, every one of them being called. *)
Fixpoint shutdownRun (entries : list (string * Plugin (World:=World))) (w : World)
    : list (string * option error) :=
  match entries with
  | [] => []
  | (name, p) :: rest =>
      let res := PluginShutdown p w in
      (name, fst res) :: shutdownRun rest (snd res)
  end.

Fixpoint worldAfterShutdown (entries : list (string * Plugin (World:=World)))
    (w : World) : World :=
  match entries with
  | [] => w
  | (_, p) :: rest => worldAfterShutdown rest (snd (PluginShutdown p w))
  end.

(** The errors [Shutdown] collects from such a run. *)
Definition shutdownFailure (c : string * option error) : option error :=
  wrapError ("plugin " +:+ fst c +:+ ": ") <$> snd c.

(** The errors the hooks of a notification pipeline return, and the
    state each leaves, when each runs on the state its predecessor
    left. *)
Fixpoint notifyRun {H : Type} (call : H -> World -> option error * World)
    (hooks : list H) (w : World) : list (option error * World) :=
  match hooks with
  | [] => []
  | h :: rest =>
      let res := call h w in
      res :: notifyRun call rest (snd res)
  end.

(** The notifications of the session, message and agent triggers. *)
Inductive Notification : Type :=
| SessionCreated (sess : Session)
| SessionUpdated (sess : Session)
| SessionDeleted (sessionID : string)
| MessageCreated (msg : Message)
| MessageUpdated (msg : Message)
| AgentStart (input : AgentStartInput)
| AgentStep (input : AgentStepInput)
| AgentFinish (input : AgentFinishInput).

(** The trigger method of the registry for a notification. *)
Definition trigger (n : Notification) : M (World:=World) (option error) :=
  match n with
  | SessionCreated sess => TriggerSessionCreated sess
  | SessionUpdated sess => TriggerSessionUpdated sess
  | SessionDeleted sessionID => TriggerSessionDeleted sessionID
  | MessageCreated msg => TriggerMessageCreated msg
  | MessageUpdated msg => TriggerMessageUpdated msg
  | AgentStart input => TriggerAgentStart input
  | AgentStep input => TriggerAgentStep input
  | AgentFinish input => TriggerAgentFinish input
  end.

(** The text a trigger puts in front of a hook's error. *)
Definition failurePrefix (n : Notification) : string :=
  match n with
  | SessionCreated _ => "session created hook failed: "
  | SessionUpdated _ => "session updated hook failed: "
  | SessionDeleted _ => "session deleted hook failed: "
  | MessageCreated _ => "message created hook failed: "
  | MessageUpdated _ => "message updated hook failed: "
  | AgentStart _ => "agent start hook failed: "
  | AgentStep _ => "agent step hook failed: "
  | AgentFinish _ => "agent finish hook failed: "
  end.

(** The run of the pipeline a notification goes to. *)
Definition notified (n : Notification) (r : Registry (World:=World)) (w : World)
    : list (option error * World) :=
  match n with
  | SessionCreated sess =>
      notifyRun (fun h => OnSessionCreated h sess) (sessionHooks r) w
  | SessionUpdated sess =>
      notifyRun (fun h => OnSessionUpdated h sess) (sessionHooks r) w
  | SessionDeleted sessionID =>
      notifyRun (fun h => OnSessionDeleted h sessionID) (sessionHooks r) w
  | MessageCreated msg =>
      notifyRun (fun h => OnMessageCreated h msg) (messageHooks r) w
  | MessageUpdated msg =>
      notifyRun (fun h => OnMessageUpdated h msg) (messageHooks r) w
  | AgentStart input =>
      notifyRun (fun h => OnAgentStart h input) (agentHooks r) w
  | AgentStep input =>
      notifyRun (fun h => OnAgentStep h input) (agentHooks r) w
  | AgentFinish input =>
      notifyRun (fun h => OnAgentFinish h input) (agentHooks r) w
  end.

(** Every hook of the six pipelines is the contract's no-op
    implementation. *)
Definition onlyBaseHooks (r : Registry (World:=World)) : Prop :=
  Forall (fun h => h = NilConfigHook) (configHooks r) /\
  Forall (fun h => h = NilSessionHook) (sessionHooks r) /\
  Forall (fun h => h = NilMessageHook) (messageHooks r) /\
  Forall (fun h => h = NilPermissionHook) (permHooks r) /\
  Forall (fun h => h = NilToolHook) (toolHooks r) /\
  Forall (fun h => h = NilAgentHook) (agentHooks r).

(** The configuration and the state the config hooks leave when all of
    them run. *)
Fixpoint configAfter (hooks : list (ConfigHook (World:=World))) (cfg : Config)
    (w : World) : Config * World :=
  match hooks with
  | [] => (cfg, w)
  | h :: rest =>
      let '(_, cfg1, w1) := OnConfigLoad h cfg w in
      configAfter rest cfg1 w1
  end.

(** The notification a forwarded event becomes; a deleted message is
    not forwarded. *)
Definition sessionNotification (event : app.pubsub_Event Session) : Notification :=
  match app.event_Type event with
  | app.CreatedEvent => SessionCreated (app.event_Payload event)
  | app.UpdatedEvent => SessionUpdated (app.event_Payload event)
  | app.DeletedEvent => SessionDeleted (sess_ID (app.event_Payload event))
  end.

Definition messageNotification (event : app.pubsub_Event Message)
    : option Notification :=
  match app.event_Type event with
  | app.CreatedEvent => Some (MessageCreated (app.event_Payload event))
  | app.UpdatedEvent => Some (MessageUpdated (app.event_Payload event))
  | app.DeletedEvent => None
  end.

(** Delivering notifications one after the other, whatever the triggers
    return: the result of each, and the machine after all of them. *)
Fixpoint deliveries (ns : list Notification) (m : Machine (World:=World))
    : list (Notification * option error) :=
  match ns with
  | [] => []
  | n :: rest => (n, fst (trigger n m)) :: deliveries rest (snd (trigger n m))
  end.

Definition delivered (ns : list Notification) (m : Machine (World:=World)) : Machine :=
  fold_left (fun m n => snd (trigger n m)) ns m.

(** The line the forwarder logs for a delivery that failed; the agent
    notifications are not forwarded. *)
Definition forwardingMessage (n : Notification) : string :=
  match n with
  | SessionCreated _ => "Plugin session created hook failed"
  | SessionUpdated _ => "Plugin session updated hook failed"
  | SessionDeleted _ => "Plugin session deleted hook failed"
  | MessageCreated _ => "Plugin message created hook failed"
  | MessageUpdated _ => "Plugin message updated hook failed"
  | AgentStart _ | AgentStep _ | AgentFinish _ => ""
  end.

Definition forwardingError (d : Notification * option error) : option LogLine :=
  SlogError (forwardingMessage (fst d)) <$> snd d.

Definition appendLogs (m : Machine (World:=World)) (lines : list LogLine) : Machine :=
  {| registry := registry m; config := config m; world := world m;
     trace := trace m; logs := logs m ++ lines |}.

(** The state after the last call of a run that started on [w]. *)
Definition lastWorld (w : World) (run : list (option error * World)) : World :=
  fold_left (fun _ c => snd c) run w.

(** The first entry of a directory listing that is a file with a name
    ending in [.so], and the entries in front of it. *)
Definition isSharedObject (entry : DirEntry) : bool :=
  negb (entry_IsDir entry) && gostrings.HasSuffix (entry_Name entry) ".so".

(** The line [LoadFromConfig] writes for a path that failed to load. *)
Definition loadWarning (path : string) (e : error) : string :=
  "Warning: failed to load plugin from " +:+ path +:+ ": " +:+ Error e +:+ newline.

(** The outcome of every path of a [LoadFromConfig] run: each path is
    loaded on the machine its predecessors left, warnings included. *)
Fixpoint pathOutcomes (host : Host (World:=World)) (paths : list string)
    (pluginCtx : PluginContext) (m : Machine) : list (string * option error) :=
  match paths with
  | [] => []
  | path :: rest =>
      let out := LoadFromPath host path pluginCtx m in
      (path, fst out) ::
      pathOutcomes host rest pluginCtx
        match fst out with
        | Some e => snd (logLine (Stderr (loadWarning path e)) (snd out))
        | None => snd out
        end
  end.

Definition warningOf (c : string * option error) : option (LogLine) :=
  (fun e => Stderr (loadWarning (fst c) e)) <$> snd c.

End Registry.
End behaviour.

(** * Reference definitions for tool names and diagnostics *)
Module toolnames.
Import skills skillsref.

Fixpoint mapBytes (f : ascii -> ascii) (s : string) : string :=
  match s with
  | "" => ""
  | String c s' => String (f c) (mapBytes f s')
  end.

(** Hyphens and separators to underscores. *)
Definition sanitise (c : ascii) : ascii :=
  if Ascii.eqb c "-" || Ascii.eqb c "/" then "_"%char else c.

Definition sanitised (rel : string) : string := mapBytes sanitise rel.

(** The bytes of a path of validated skill names. *)
Definition isRelByte (c : ascii) : bool := isNameByte c || Ascii.eqb c "/".

(** A byte that is a character of its own. *)
Definition isAscii (c : ascii) : bool := (gostrings.byte c <? 128)%nat.

(** What a discovery writes to the diagnostic stream for the entries of
    a walk, after the valid skills [valid] were found: a warning for a
    SKILL.md file that does not parse, a warning for a valid skill whose
    tool name was seen before, and nothing else. *)
Fixpoint warningsOf (env : Env) (valid : list Skill) (entries : list WalkEntry)
    : list string :=
  match entries with
  | [] => []
  | e :: rest =>
      if isSkillFile e then
        match parseSkillMD env (walk_path e) with
        | inl parseErr =>
            parseWarning (walk_path e) parseErr :: warningsOf env valid rest
        | inr s =>
            match lastWith (ToolName s) valid with
            | Some earlier =>
                [duplicateWarning (ToolName s) (Path earlier) (walk_path e)]
            | None => []
            end ++ warningsOf env (valid ++ [s]) rest
        end
      else warningsOf env valid rest
  end.

End toolnames.

(** * Further example extensions, hosts and skill directories *)
Module moreexamples.
Import plugin reference app examples.

(** A plugin whose [Init] fails, and one that refuses to shut down. *)
Definition brokenInit : Plugin (World:=nat) :=
  {| Info := info "broken";
     Init := fun _ w => (Some (errorString "licence expired"), S w);
     GetHooks := fun _ => NewBaseHooks;
     PluginShutdown := fun w => (None, w) |}.

Definition stubborn : Plugin (World:=nat) :=
  {| Info := info "busy";
     Init := fun _ w => (None, w);
     GetHooks := fun _ => NewBaseHooks;
     PluginShutdown := fun w => (Some (errorString "still busy"), S w) |}.

Definition stubbornRegistry : Registry (World:=nat) :=
  {| plugins := {[ "alpha" := baseHooksPlugin "alpha"; "busy" := stubborn ]};
     configHooks := []; sessionHooks := []; messageHooks := [];
     permHooks := []; toolHooks := []; agentHooks := [] |}.

(** Session hooks: one counts the sessions, one rejects new ones. *)
Definition countSessions : SessionHook (World:=nat) :=
  UserSessionHook (fun _ w => (None, S w)) (fun _ w => (None, S w))
                  (fun _ w => (None, S w)).

Definition rejectSessions : SessionHook (World:=nat) :=
  UserSessionHook (fun _ w => (Some (errorString "quota exceeded"), S w))
                  (fun _ w => (None, w)) (fun _ w => (None, w)).

Definition sessionRegistry (hooks : list (SessionHook (World:=nat))) : Registry :=
  {| plugins := ∅; configHooks := []; sessionHooks := hooks; messageHooks := [];
     permHooks := []; toolHooks := []; agentHooks := [] |}.

Definition session1 : Session := {| sess_ID := "s1"; sess_Title := "first" |}.

(** Config hooks: one moves the working directory, one accepts only a
    configuration whose working directory was moved. *)
Definition relocate : ConfigHook (World:=nat) :=
  UserConfigHook (fun cfg w =>
    (None,
     {| GetPluginPaths := GetPluginPaths cfg; WorkingDir := "/srv/work";
        IsConfigured := IsConfigured cfg; CoderAgentID := CoderAgentID cfg |},
     S w)).

Definition requireRelocated : ConfigHook (World:=nat) :=
  UserConfigHook (fun cfg w =>
    (if String.eqb (WorkingDir cfg) "/srv/work" then None
     else Some (errorString "not relocated"), cfg, S w)).

Definition configRegistry (hooks : list (ConfigHook (World:=nat))) : Registry :=
  {| plugins := ∅; configHooks := hooks; sessionHooks := []; messageHooks := [];
     permHooks := []; toolHooks := []; agentHooks := [] |}.

(** A host whose path [/plugins] is a directory with a sub-directory, a
    text file and two artifacts. *)
Definition pluginDir : list DirEntry :=
  [ {| entry_Name := "cache.so"; entry_IsDir := true |};
    {| entry_Name := "README.md"; entry_IsDir := false |};
    {| entry_Name := "strict.so"; entry_IsDir := false |};
    {| entry_Name := "zeta.so"; entry_IsDir := false |} ].

Definition dirHost : Host (World:=nat) :=
  {| Range := map_to_list;
     Abs := fun path => inr path;
     Stat := fun path => inr (String.eqb path "/plugins");
     ReadDir := fun path =>
       if String.eqb path "/plugins" then inr pluginDir
       else inl (errorString "not a directory");
     Open := Open host0 |}.

(** A host whose artifact exports a plugin with no-op hooks only. *)
Definition quietHost : Host (World:=nat) :=
  {| Range := map_to_list;
     Abs := fun path => inr path;
     Stat := fun path => inr false;
     ReadDir := fun _ => inl (errorString "not a directory");
     Open := fun path =>
       if String.eqb path "/plugins/strict.so"
       then inr {[ "Plugin" := SymPlugin (baseHooksPlugin "quiet") ]}
       else inl (errorString "plugin.Open: no such file") |}.


(** A configuration with a path that does not open and one that does. *)
Definition cfg2 : Config :=
  {| GetPluginPaths := ["/plugins/missing.so"; "/plugins/strict.so"];
     WorkingDir := "/work"; IsConfigured := true; CoderAgentID := "coder" |}.

Definition machine2 : Machine (World:=nat) :=
  {| registry := NewRegistry; config := cfg2; world := 0; trace := []; logs := [] |}.

(** The skills plugin on a new registry. *)
Definition skillsMachine : Machine (World:=skillsplugin.World) :=
  {| registry := NewRegistry; config := cfg0;
     world := (skillsplugin.NewPlugin, []); trace := []; logs := [] |}.

(** Session events: a session is created, updated and deleted. *)
Definition sessionEvents : list (pubsub_Event Session) :=
  [ {| event_Type := CreatedEvent; event_Payload := session1 |};
    {| event_Type := UpdatedEvent; event_Payload := session1 |};
    {| event_Type := DeletedEvent; event_Payload := session1 |} ].

Definition message1 : Message := {| msg_ID := "m1"; msg_SessionID := "s1" |}.

Definition messageEvents : list (pubsub_Event Message) :=
  [ {| event_Type := CreatedEvent; event_Payload := message1 |};
    {| event_Type := DeletedEvent; event_Payload := message1 |} ].

(** A request to run [bash] whose action has the letters [read] inside
    a word. *)
Definition spreadRequest : CreatePermissionRequest :=
  {| req_SessionID := "s1"; req_ToolName := "bash"; req_Action := "Spread the change" |}.

(** The plugin [auto-approve] with a logger that keeps every record,
    loaded before a plugin whose permission hook denies everything. *)
Definition keepRecord (r : autoapprove.slogRecord) (w : list autoapprove.slogRecord)
    : list autoapprove.slogRecord :=
  w ++ [r].

Definition approver : PermissionHook (World:=list autoapprove.slogRecord) :=
  autoapprove.autoApprovePermissionHook gostrings.ToLower keepRecord.

Definition denyQuietly : PermissionHook (World:=list autoapprove.slogRecord) :=
  UserPermissionHook (fun _ w => ((Some false, None), w)).

Definition approverMachine : Machine (World:=list autoapprove.slogRecord) :=
  {| registry :=
       {| plugins := ∅; configHooks := []; sessionHooks := []; messageHooks := [];
          permHooks := [approver; denyQuietly]; toolHooks := []; agentHooks := [] |};
     config := cfg0; world := []; trace := []; logs := [] |}.

Definition emptyMachine : Machine (World:=list autoapprove.slogRecord) :=
  {| registry := NewRegistry; config := cfg0; world := []; trace := []; logs := [] |}.

(** An answer that arrives in two pieces, and a message of another
    session in between. *)
Definition streamed (session content : string) : StreamedMessage :=
  {| stream_ID := "m1"; stream_SessionID := session; stream_Assistant := true;
     stream_Parts := 1; stream_Content := content |}.

Definition answer : list StreamedMessage :=
  [ streamed "s1" "Hel"; streamed "s2" "unrelated"; streamed "s1" "Hello" ].

(** A home directory with one skill; the process runs in it. *)
Definition envHome : skills.Env :=
  {| skills.ReadFile := fun path =>
       if String.eqb path (skillexamples.homeBase +:+ "/foo/SKILL.md")
       then inr (skillexamples.skillFile skillexamples.fooFrontmatter "home foo")
       else inl (errorString ("open " +:+ path +:+ ": no such file or directory"));
     skills.IsNotExist := fun path => negb (String.eqb path skillexamples.homeBase);
     skills.WalkDir := fun root =>
       if String.eqb root skillexamples.homeBase
       then skillexamples.skillDirEntries skillexamples.homeBase "foo"
       else [];
     skills.Getenv := fun _ => "";
     skills.UserHomeDir := inr "/home/u";
     skills.Unmarshal := skills.Unmarshal skillexamples.env0;
     skills.TrimSpace := skills.TrimSpace skillexamples.env0 |}.

End moreexamples.

(** * Reference definitions for the non-interactive run *)
Module streaming.
Import app.

(** The messages the loop prints: those of the session, from the
    assistant, with at least one part. *)
Definition relevant (sessID : string) (msg : StreamedMessage) : bool :=
  String.eqb (stream_SessionID msg) sessID && stream_Assistant msg
  && (0 <? stream_Parts msg)%nat.

(** The text on standard output, the escape sequences left out. *)
Fixpoint printedText (out : list Written) : string :=
  match out with
  | [] => ""
  | Text part :: rest => part +:+ printedText rest
  | _ :: rest => printedText rest
  end.

(** Each text starts with the one before it, the first with [cur]. *)
Fixpoint growing (cur : string) (contents : list string) : Prop :=
  match contents with
  | [] => True
  | c :: rest => gostrings.HasPrefix c cur = true /\ growing c rest
  end.

Definition start : Loop := {| messageReadBytes := ∅; stdout := [] |}.

End streaming.

(** * Reference definitions for the shutdown of the application *)
Module shutdownlog.
Import plugin app.


End shutdownlog.

(** * Properties *)

Import plugin reference.

(** ** The permission pipeline *)
Section PermissionPipeline.
Context {World : Type}.
Implicit Types (m : Machine (World:=World)) (w : World)
  (hooks pre rest : list (PermissionHook (World:=World))).

Lemma runPermissionHooks_cons h rest req m :
  runPermissionHooks (h :: rest) req m =
  let res := OnPermissionRequest h req (world m) in
  let m1 := stepped m (EvPermissionRequest h req) (snd res) in
  match fst res with
  | (_, Some e) => ((None, Some (wrapError "permission hook failed: " e)), m1)
  | (Some d, None) => ((Some d, None), m1)
  | (None, None) => runPermissionHooks rest req m1
  end.
Proof.
  simpl. unfold bind, emit, onWorld, ret. simpl.
  destruct (OnPermissionRequest h req (world m)) as [[[d|] [e|]] w1]; reflexivity.
Qed.

(** Hooks that abstain are passed over: the loop goes on with the rest
    of the pipeline, on the state they left, after one call to each. *)
Lemma runPermissionHooks_abstain pre rest req m :
  Forall (fun d => d = (None, None)) (decisions pre req (world m)) ->
  runPermissionHooks (pre ++ rest) req m =
  runPermissionHooks rest req
    (addTrace (setWorld m (worldAfterPermission pre req (world m)))
       (permissionCalls req pre)).
Proof.
  revert m. induction pre as [|h pre IH]; intros m Hall.
  - destruct m; unfold addTrace, setWorld; simpl. by rewrite app_nil_r.
  - simpl in Hall.
    destruct (OnPermissionRequest h req (world m)) as [res w1] eqn:Hh.
    apply Forall_cons in Hall as [-> Hall].
    change ((h :: pre) ++ rest) with (h :: (pre ++ rest)).
    rewrite runPermissionHooks_cons, Hh. simpl.
    rewrite IH by exact Hall.
    f_equal. unfold addTrace, setWorld, stepped; simpl.
    rewrite Hh. simpl. by rewrite <- app_assoc.
Qed.

Lemma runPermissionHooks_at hooks req m i res :
  decisions hooks req (world m) !! i = Some res ->
  Forall (fun x => x = (None, None)) (take i (decisions hooks req (world m))) ->
  let out := runPermissionHooks hooks req m in
  match res with
  | (_, Some e) =>
      fst out = (None, Some (wrapError "permission hook failed: " e)) /\
      trace (snd out) = trace m ++ permissionCalls req (take (S i) hooks)
  | (Some d, None) =>
      fst out = (Some d, None) /\
      trace (snd out) = trace m ++ permissionCalls req (take (S i) hooks)
  | (None, None) => True
  end.
Proof.
  revert m i. induction hooks as [|h hooks IH]; intros m i Hi Hpre; [done|].
  simpl in Hi, Hpre. rewrite runPermissionHooks_cons.
  destruct (OnPermissionRequest h req (world m)) as [r w1] eqn:Hh.
  destruct i as [|i]; simpl in *.
  - injection Hi as <-.
    destruct r as [[d|] [e|]]; simpl; auto.
  - apply Forall_cons in Hpre as [-> Hpre]. simpl.
    specialize (IH (stepped m (EvPermissionRequest h req) w1) i Hi Hpre).
    simpl in IH.
    destruct res as [[d|] [e|]]; try exact I;
      (destruct IH as [-> ->]; split; [done|]; by rewrite <- app_assoc).
Qed.

(** C1.  [TriggerPermissionRequest] walks the permission pipeline in
    order.  With [ds] the answers the hooks give one after the other: if
    answer [i] is the first that is not [(nil, nil)] and it is a decision
    [d] without an error, the trigger returns [d] and has called exactly
    the first [i + 1] hooks; if every hook answers [(nil, nil)], it
    returns no decision and no error after calling them all; and if the
    first answer that is not [(nil, nil)] carries an error, the trigger
    returns that error (wrapped, with a nil decision) and has called
    exactly the hooks up to the failing one. *)
Theorem permission_first_decision_wins m req :
  let hooks := permHooks (registry m) in
  let ds := decisions hooks req (world m) in
  let out := TriggerPermissionRequest req m in
  (forall i d,
      ds !! i = Some (Some d, None) ->
      Forall (fun x => x = (None, None)) (take i ds) ->
      fst out = (Some d, None) /\
      trace (snd out) = trace m ++ permissionCalls req (take (S i) hooks)) /\
  (Forall (fun x => x = (None, None)) ds ->
      fst out = (None, None) /\
      trace (snd out) = trace m ++ permissionCalls req hooks) /\
  (forall i x e,
      ds !! i = Some (x, Some e) ->
      Forall (fun x => x = (None, None)) (take i ds) ->
      fst out = (None, Some (wrapError "permission hook failed: " e)) /\
      trace (snd out) = trace m ++ permissionCalls req (take (S i) hooks)).
Proof.
  intros hooks ds out.
  assert (out = runPermissionHooks hooks req m) as -> by reflexivity.
  split; [|split].
  - intros i d Hi Hpre.
    exact (runPermissionHooks_at hooks req m i _ Hi Hpre).
  - intros Hall.
    pose proof (runPermissionHooks_abstain hooks [] req m Hall) as Hrun.
    rewrite app_nil_r in Hrun. rewrite Hrun. simpl. done.
  - intros i x e Hi Hpre.
    pose proof (runPermissionHooks_at hooks req m i _ Hi Hpre) as H.
    simpl in H. destruct x; exact H.
Qed.
End PermissionPipeline.

(** ** The tool pipelines *)
Section ToolPipeline.
Context {World : Type}.
Implicit Types (m : Machine (World:=World)) (w : World)
  (hooks : list (ToolHook (World:=World))).

Lemma lastNonNil_snoc {A} (x0 : A) ms (o : option A) :
  lastNonNil x0 (ms ++ [o]) = match o with Some x => x | None => lastNonNil x0 ms end.
Proof. unfold lastNonNil. rewrite fold_left_app. by destruct o. Qed.

Lemma with_Arguments_twice input a b :
  with_Arguments (with_Arguments input a) b = with_Arguments input b.
Proof. reflexivity. Qed.

Lemma with_Arguments_same input : with_Arguments input (Arguments input) = input.
Proof. by destruct input. Qed.

Lemma runToolBeforeHooks_cons h hooks input args m :
  runToolBeforeHooks (h :: hooks) input args m =
  let res := OnToolExecuteBefore h input (world m) in
  let m1 := stepped m (EvToolExecuteBefore h input) (snd res) in
  match fst res with
  | (_, Some e) =>
      ((None, Some (wrapError "tool execute before hook failed: " e)), m1)
  | (Some a, None) =>
      runToolBeforeHooks hooks (with_Arguments input (Some a)) (Some a) m1
  | (None, None) => runToolBeforeHooks hooks input args m1
  end.
Proof.
  simpl. unfold bind, emit, onWorld, ret. simpl.
  destruct (OnToolExecuteBefore h input (world m)) as [[[a|] [e|]] w1]; reflexivity.
Qed.

Lemma runToolBeforeHooks_run hooks input0 ms m :
  let args := lastNonNil (Arguments input0) ms in
  let run := beforeRun hooks input0 ms (world m) in
  let out := runToolBeforeHooks hooks (with_Arguments input0 args) args m in
  (noError run ->
     fst out = (lastNonNil (Arguments input0) (ms ++ map returnedArgs run), None) /\
     trace (snd out) = trace m ++ map beforeCall run) /\
  (forall i c e,
     run !! i = Some c -> snd (snd c) = Some e -> noError (take i run) ->
     fst out = (None, Some (wrapError "tool execute before hook failed: " e)) /\
     trace (snd out) = trace m ++ map beforeCall (take (S i) run)).
Proof.
  revert ms m. induction hooks as [|h hooks IH]; intros ms m; cbv zeta.
  - simpl. split; [|done]. intros _. by rewrite !app_nil_r.
  - rewrite runToolBeforeHooks_cons. cbn [beforeRun].
    destruct (OnToolExecuteBefore h _ (world m)) as [[a e] w1] eqn:Hh.
    cbv zeta. cbn [fst snd].
    match goal with |- context [stepped m ?ev w1] => set (m1 := stepped m ev w1) end.
    specialize (IH (ms ++ [Some <$> a]) m1). cbv zeta in IH.
    rewrite lastNonNil_snoc in IH.
    assert (world m1 = w1) as Hw by reflexivity. rewrite Hw in IH.
    assert (forall evs, trace m1 ++ evs =
              trace m ++ beforeCall (h, with_Arguments input0 (lastNonNil (Arguments input0) ms), (a, e)) :: evs) as Htr.
    { intros evs. unfold m1, stepped, beforeCall. simpl. by rewrite <- app_assoc. }
    assert (forall l : list (ToolHook (World:=World) * ToolExecuteInput * (option (gmap string any) * option error)),
              (ms ++ [Some <$> a]) ++ map returnedArgs l =
              ms ++ map returnedArgs ((h, with_Arguments input0 (lastNonNil (Arguments input0) ms), (a, e)) :: l)) as Hms.
    { intros l. by rewrite <- app_assoc. }
    destruct IH as [IHok IHerr].
    split.
    + intros Hno. apply Forall_cons in Hno as [He Hno]. cbn [snd] in He. subst e.
      specialize (IHok Hno). rewrite Htr, Hms in IHok.
      destruct a as [a|]; exact IHok.
    + intros i c e' Hi He' Hpre. destruct i as [|i].
      * injection Hi as <-. cbn [snd] in He'. subst e.
        destruct a; split; done.
      * cbn [take] in Hpre. apply Forall_cons in Hpre as [He Hpre].
        cbn [snd] in He. subst e.
        specialize (IHerr i c e' Hi He' Hpre). rewrite Htr in IHerr.
        destruct a as [a|]; exact IHerr.
Qed.

Lemma beforeRun_received hooks input0 ms w i c :
  beforeRun hooks input0 ms w !! i = Some c ->
  snd (fst c) =
  with_Arguments input0
    (lastNonNil (Arguments input0)
       (ms ++ map returnedArgs (take i (beforeRun hooks input0 ms w)))).
Proof.
  revert ms w i. induction hooks as [|h hooks IH]; intros ms w i Hi; [done|].
  cbn [beforeRun] in *.
  destruct (OnToolExecuteBefore h _ w) as [res w1] eqn:Hh.
  destruct i as [|i].
  - injection Hi as <-. simpl. by rewrite app_nil_r.
  - cbn [lookup list_lookup] in Hi. rewrite (IH _ _ _ Hi). cbn [take map].
    unfold returnedArgs at 2. cbn [fst snd].
    by rewrite <- app_assoc.
Qed.

(** C2.  [TriggerToolExecuteBefore] threads the arguments: every hook
    is called with the input record whose arguments are the last non-nil
    return of the hooks before it (the caller's arguments if there is
    none); when no hook fails, the trigger returns the last non-nil
    return (the caller's arguments if every hook returned nil) after
    calling every hook; when a hook fails, the trigger returns nil
    arguments and that error (wrapped), and no later hook is called. *)
Theorem tool_before_threads_arguments m (input0 : ToolExecuteInput) :
  let hooks := toolHooks (registry m) in
  let run := beforeRun hooks input0 [] (world m) in
  let out := TriggerToolExecuteBefore input0 m in
  (forall i c,
     run !! i = Some c ->
     Arguments (snd (fst c)) =
     lastNonNil (Arguments input0) (map returnedArgs (take i run))) /\
  (noError run ->
     fst out = (lastNonNil (Arguments input0) (map returnedArgs run), None) /\
     trace (snd out) = trace m ++ map beforeCall run) /\
  (forall i c e,
     run !! i = Some c -> snd (snd c) = Some e -> noError (take i run) ->
     fst out = (None, Some (wrapError "tool execute before hook failed: " e)) /\
     trace (snd out) = trace m ++ map beforeCall (take (S i) run)).
Proof.
  intros hooks run out. split.
  - intros i c Hi. by rewrite (beforeRun_received _ _ _ _ _ _ Hi).
  - assert (out = runToolBeforeHooks hooks
                    (with_Arguments input0 (lastNonNil (Arguments input0) []))
                    (lastNonNil (Arguments input0) []) m) as ->.
    { unfold lastNonNil; simpl. by rewrite with_Arguments_same. }
    exact (runToolBeforeHooks_run hooks input0 [] m).
Qed.

Lemma runToolAfterHooks_cons h hooks input result m :
  runToolAfterHooks (h :: hooks) input result m =
  let res := OnToolExecuteAfter h input result (world m) in
  let m1 := stepped m (EvToolExecuteAfter h input result) (snd res) in
  match fst res with
  | (_, Some e) =>
      ((result, Some (wrapError "tool execute after hook failed: " e)), m1)
  | (Some r, None) => runToolAfterHooks hooks input r m1
  | (None, None) => runToolAfterHooks hooks input result m1
  end.
Proof.
  simpl. unfold bind, emit, onWorld, ret. simpl.
  destruct (OnToolExecuteAfter h input result (world m)) as [[[a|] [e|]] w1]; reflexivity.
Qed.

Lemma runToolAfterHooks_run hooks input result0 ms m :
  let result := lastNonNil result0 ms in
  let run := afterRun hooks input result0 ms (world m) in
  let out := runToolAfterHooks hooks input result m in
  (noError run ->
     fst out = (lastNonNil result0 (ms ++ map modifiedResult run), None) /\
     trace (snd out) = trace m ++ map (afterCall input) run) /\
  (forall i c e,
     run !! i = Some c -> snd (snd c) = Some e -> noError (take i run) ->
     fst out = (lastNonNil result0 (ms ++ map modifiedResult (take i run)),
                Some (wrapError "tool execute after hook failed: " e)) /\
     trace (snd out) = trace m ++ map (afterCall input) (take (S i) run)).
Proof.
  revert ms m. induction hooks as [|h hooks IH]; intros ms m; cbv zeta.
  - simpl. split; [|done]. intros _. by rewrite !app_nil_r.
  - rewrite runToolAfterHooks_cons. cbn [afterRun].
    destruct (OnToolExecuteAfter h input _ (world m)) as [[a e] w1] eqn:Hh.
    cbv zeta. cbn [fst snd].
    match goal with |- context [stepped m ?ev w1] => set (m1 := stepped m ev w1) end.
    specialize (IH (ms ++ [a]) m1). cbv zeta in IH.
    rewrite lastNonNil_snoc in IH.
    assert (world m1 = w1) as Hw by reflexivity. rewrite Hw in IH.
    assert (forall evs, trace m1 ++ evs =
              trace m ++ afterCall input (h, lastNonNil result0 ms, (a, e)) :: evs) as Htr.
    { intros evs. unfold m1, stepped, afterCall. simpl. by rewrite <- app_assoc. }
    assert (forall l : list (ToolHook (World:=World) * ToolExecuteResult * (option ToolExecuteResult * option error)),
              (ms ++ [a]) ++ map modifiedResult l =
              ms ++ map modifiedResult ((h, lastNonNil result0 ms, (a, e)) :: l)) as Hms.
    { intros l. by rewrite <- app_assoc. }
    destruct IH as [IHok IHerr].
    split.
    + intros Hno. apply Forall_cons in Hno as [He Hno]. cbn [snd] in He. subst e.
      specialize (IHok Hno). rewrite Htr, Hms in IHok.
      destruct a as [a|]; exact IHok.
    + intros i c e' Hi He' Hpre. destruct i as [|i].
      * injection Hi as <-. cbn [snd] in He'. subst e.
        cbn [take map]. rewrite app_nil_r.
        destruct a; split; done.
      * cbn [take] in Hpre. apply Forall_cons in Hpre as [He Hpre].
        cbn [snd] in He. subst e.
        specialize (IHerr i c e' Hi He' Hpre). rewrite Htr, Hms in IHerr.
        destruct a as [a|]; exact IHerr.
Qed.

Lemma afterRun_received hooks input result0 ms w i c :
  afterRun hooks input result0 ms w !! i = Some c ->
  snd (fst c) =
  lastNonNil result0
    (ms ++ map modifiedResult (take i (afterRun hooks input result0 ms w))).
Proof.
  revert ms w i. induction hooks as [|h hooks IH]; intros ms w i Hi; [done|].
  cbn [afterRun] in *.
  destruct (OnToolExecuteAfter h input _ w) as [res w1] eqn:Hh.
  destruct i as [|i].
  - injection Hi as <-. simpl. by rewrite app_nil_r.
  - cbn [lookup list_lookup] in Hi. rewrite (IH _ _ _ Hi). cbn [take map].
    unfold modifiedResult at 2. cbn [fst snd].
    by rewrite <- app_assoc.
Qed.

(** C5, amended.  [TriggerToolExecuteAfter] threads the result: every
    hook is called with the last non-nil modified result of the hooks
    before it (the caller's result if there is none); when no hook fails
    the trigger returns the last non-nil modification; when a hook fails
    the trigger returns the error (wrapped) together with the result as
    the hooks before the failing one left it, which is the caller's
    result only if none of them modified it. *)
Theorem tool_after_threads_result m (input : ToolExecuteInput)
    (result0 : ToolExecuteResult) :
  let hooks := toolHooks (registry m) in
  let run := afterRun hooks input result0 [] (world m) in
  let out := TriggerToolExecuteAfter input result0 m in
  (forall i c,
     run !! i = Some c ->
     snd (fst c) = lastNonNil result0 (map modifiedResult (take i run))) /\
  (noError run ->
     fst out = (lastNonNil result0 (map modifiedResult run), None) /\
     trace (snd out) = trace m ++ map (afterCall input) run) /\
  (forall i c e,
     run !! i = Some c -> snd (snd c) = Some e -> noError (take i run) ->
     fst out = (lastNonNil result0 (map modifiedResult (take i run)),
                Some (wrapError "tool execute after hook failed: " e)) /\
     trace (snd out) = trace m ++ map (afterCall input) (take (S i) run)).
Proof.
  intros hooks run out. split.
  - intros i c Hi. by rewrite (afterRun_received _ _ _ _ _ _ _ Hi).
  - exact (runToolAfterHooks_run hooks input result0 [] m).
Qed.
End ToolPipeline.

(** ** The registry *)
Section RegistryProps.
Context {World : Type}.
Implicit Types (m : Machine (World:=World)) (w : World) (r : Registry (World:=World))
  (p : Plugin (World:=World)).

Lemma countIf_app {A} (P : A -> bool) l1 l2 :
  countIf P (l1 ++ l2) = countIf P l1 + countIf P l2.
Proof. induction l1 as [|x l1 IH]; simpl; [done|]. rewrite IH. lia. Qed.

Lemma length_appendHook {H} (pipeline : list H) (hook : option H) :
  length (appendHook pipeline hook) = length pipeline + (if nonNil hook then 1 else 0).
Proof. destruct hook; simpl; [rewrite length_app; simpl|]; lia. Qed.

Lemma hooksReturned_snoc (tr : list (Event (World:=World))) ev :
  hooksReturned (tr ++ [ev]) = hooksReturned tr ++ option_list (hooksOf ev).
Proof. unfold hooksReturned. rewrite omap_app. simpl. by destruct (hooksOf ev). Qed.

(** What [LoadPlugin] does, case by case. *)
Lemma LoadPlugin_cases p pluginCtx m :
  let name := Name (Info p) in
  let out := LoadPlugin p pluginCtx m in
  match plugins (registry m) !! name with
  | Some _ =>
      out = (Some (errorString ("plugin " +:+ name +:+ " is already loaded")), m)
  | None =>
      let res := Init p pluginCtx (world m) in
      let m1 := stepped m (EvInit p pluginCtx) (snd res) in
      match fst res with
      | Some e =>
          out = (Some (wrapError ("failed to initialize plugin " +:+ name +:+ ": ") e), m1)
      | None =>
          let hooks := GetHooks p (snd res) in
          out = (None,
                 {| registry := registerHooks (storePlugin name p (registry m)) hooks;
                    config := config m; world := snd res;
                    trace := (trace m ++ [EvInit p pluginCtx]) ++ [EvHooks p hooks];
                    logs := logs m |})
      end
  end.
Proof.
  cbv zeta. unfold LoadPlugin, bind, getRegistry.
  destruct (plugins (registry m) !! Name (Info p)) as [q|] eqn:Hq; [done|].
  unfold emit, onWorld, ret, putRegistry, stepped. simpl.
  destruct (Init p pluginCtx (world m)) as [[e|] w1]; reflexivity.
Qed.

Lemma LoadPlugin_lengthsMatch p pluginCtx m :
  lengthsMatch m -> lengthsMatch (snd (LoadPlugin p pluginCtx m)).
Proof.
  intros Hm. pose proof (LoadPlugin_cases p pluginCtx m) as Hc. cbv zeta in Hc.
  destruct (plugins (registry m) !! Name (Info p)); [by rewrite Hc|].
  destruct (Init p pluginCtx (world m)) as [[e|] w1]; simpl in Hc; rewrite Hc; simpl.
  - unfold lengthsMatch in *. simpl. rewrite hooksReturned_snoc. simpl.
    by rewrite app_nil_r.
  - unfold lengthsMatch in *. simpl.
    rewrite !hooksReturned_snoc. simpl. rewrite app_nil_r.
    rewrite !countIf_app, !length_appendHook. simpl.
    destruct Hm as (-> & -> & -> & -> & -> & ->).
    repeat split; lia.
Qed.

Lemma loadAll_cons p ps pluginCtx m :
  loadAll (p :: ps) pluginCtx m =
  let out1 := LoadPlugin p pluginCtx m in
  let out := loadAll ps pluginCtx (snd out1) in
  (fst out1 :: fst out, snd out).
Proof.
  simpl. unfold bind, ret.
  destruct (LoadPlugin p pluginCtx m) as [err m1]. simpl.
  by destruct (loadAll ps pluginCtx m1).
Qed.

Lemma loadAll_lengthsMatch ps pluginCtx m :
  lengthsMatch m -> lengthsMatch (snd (loadAll ps pluginCtx m)).
Proof.
  revert m. induction ps as [|p ps IH]; intros m Hm; [done|].
  rewrite loadAll_cons. simpl. apply IH. by apply LoadPlugin_lengthsMatch.
Qed.

Lemma LoadPlugin_loaded p pluginCtx m :
  let out := LoadPlugin p pluginCtx m in
  length (hooksReturned (trace (snd out))) =
  length (hooksReturned (trace m)) + (if nonNil (fst out) then 0 else 1).
Proof.
  pose proof (LoadPlugin_cases p pluginCtx m) as Hc. cbv zeta in *.
  destruct (plugins (registry m) !! Name (Info p)); [rewrite Hc; simpl; lia|].
  destruct (Init p pluginCtx (world m)) as [[e|] w1]; simpl in Hc; rewrite Hc; simpl.
  - rewrite hooksReturned_snoc. simpl. rewrite app_nil_r. lia.
  - rewrite !hooksReturned_snoc. simpl. rewrite app_nil_r, length_app. simpl. lia.
Qed.

Lemma loadAll_loaded ps pluginCtx m :
  let out := loadAll ps pluginCtx m in
  length (hooksReturned (trace (snd out))) =
  length (hooksReturned (trace m)) + countIf (fun err => negb (nonNil err)) (fst out).
Proof.
  revert m. induction ps as [|p ps IH]; intros m; [simpl; lia|].
  cbv zeta in *. rewrite loadAll_cons. simpl. rewrite IH.
  pose proof (LoadPlugin_loaded p pluginCtx m) as H. cbv zeta in H. rewrite H.
  destruct (fst (LoadPlugin p pluginCtx m)); simpl; lia.
Qed.

(** C9, amended.  After any sequence of [LoadPlugin] calls on a new
    registry, [Hooks()] was called once for every plugin that loaded, and
    for every hook kind the length of the pipeline is the number of those
    calls whose getter for the kind returned a value that is not nil:
    the contract's no-op implementations count like any other. *)
Theorem pipeline_length_counts_non_nil_hooks ps pluginCtx m :
  registry m = NewRegistry ->
  trace m = [] ->
  let out := loadAll ps pluginCtx m in
  let r := registry (snd out) in
  let loaded := hooksReturned (trace (snd out)) in
  length loaded = countIf (fun err => negb (nonNil err)) (fst out) /\
  length (configHooks r) = countIf (fun h => nonNil (Config_ h)) loaded /\
  length (sessionHooks r) = countIf (fun h => nonNil (Session_ h)) loaded /\
  length (messageHooks r) = countIf (fun h => nonNil (Message_ h)) loaded /\
  length (permHooks r) = countIf (fun h => nonNil (Permission_ h)) loaded /\
  length (toolHooks r) = countIf (fun h => nonNil (Tool_ h)) loaded /\
  length (agentHooks r) = countIf (fun h => nonNil (Agent_ h)) loaded.
Proof.
  intros Hr Ht. cbv zeta. split.
  - pose proof (loadAll_loaded ps pluginCtx m) as H. cbv zeta in H.
    rewrite H, Ht. simpl. lia.
  - apply (loadAll_lengthsMatch ps pluginCtx m).
    unfold lengthsMatch. rewrite Hr, Ht. simpl. repeat split.
Qed.

Lemma shutdownRange_frame entries errors m :
  let out := shutdownRange entries errors m in
  registry (snd out) = registry m /\
  config (snd out) = config m /\
  trace (snd out) = trace m ++ map shutdownCall entries.
Proof.
  revert errors m. induction entries as [|[name p] entries IH]; intros errors m.
  - simpl. by rewrite app_nil_r.
  - cbv zeta. simpl. unfold bind, emit, onWorld. simpl.
    destruct (PluginShutdown p (world m)) as [[e|] w1];
      match goal with |- context [shutdownRange entries ?errs ?m1] =>
        destruct (IH errs m1) as (-> & -> & ->) end; simpl;
      (repeat split; by rewrite <- app_assoc).
Qed.

(** C10.  [Shutdown] calls [Shutdown] on every plugin of the registry
    and leaves the registry as it is: the plugin map and the six
    pipelines are the same, [GetPlugin] and [ListPlugins] answer as
    before, and [LoadPlugin] of a plugin whose name is present still
    fails as already loaded. *)
Theorem Shutdown_keeps_registry (range : RangeOrder) m :
  range (plugins (registry m)) ≡ₚ map_to_list (plugins (registry m)) ->
  let out := Shutdown range m in
  registry (snd out) = registry m /\
  trace (snd out) = trace m ++ map shutdownCall (range (plugins (registry m))) /\
  (forall name p, plugins (registry m) !! name = Some p ->
     EvShutdown name p ∈ map shutdownCall (range (plugins (registry m)))) /\
  (forall name, fst (GetPlugin name (snd out)) = fst (GetPlugin name m)) /\
  fst (ListPlugins range (snd out)) = fst (ListPlugins range m) /\
  (forall p pluginCtx,
     is_Some (plugins (registry m) !! Name (Info p)) ->
     fst (LoadPlugin p pluginCtx (snd out)) =
     Some (errorString ("plugin " +:+ Name (Info p) +:+ " is already loaded"))).
Proof.
  intros Hperm out.
  assert (registry (snd out) = registry m /\
          trace (snd out) = trace m ++ map shutdownCall (range (plugins (registry m))))
    as [Hreg Htrace].
  { unfold out, Shutdown, bind, getRegistry.
    pose proof (shutdownRange_frame (range (plugins (registry m))) [] m) as H.
    cbv zeta in H.
    destruct (shutdownRange (range (plugins (registry m))) [] m) as [errors m1].
    simpl in H. destruct H as (H1 & _ & H2).
    destruct errors; simpl; done. }
  split; [exact Hreg|]. split; [exact Htrace|]. split; [|split; [|split]].
  - intros name p Hp.
    apply (list_elem_of_fmap_2 shutdownCall _ (name, p)).
    rewrite Hperm. by apply elem_of_map_to_list.
  - intros name. unfold GetPlugin, bind, getRegistry, ret. simpl. by rewrite Hreg.
  - unfold ListPlugins, bind, getRegistry, ret. simpl. by rewrite Hreg.
  - intros p pluginCtx [q Hq].
    pose proof (LoadPlugin_cases p pluginCtx (snd out)) as Hc. cbv zeta in Hc.
    rewrite Hreg, Hq in Hc. by rewrite Hc.
Qed.

End RegistryProps.

(** ** The loader and start-up *)
Section LoaderProps.
Context {World : Type}.
Implicit Types (m : Machine (World:=World)) (w : World) (r : Registry (World:=World))
  (p : Plugin (World:=World)) (host : Host (World:=World)).

(** C4, amended.  For an artifact that opens, [loadGoPlugin] looks up
    the exported symbol named [Plugin]: without a symbol of this name the
    load fails with the error "plugin does not export 'Plugin' symbol";
    with a symbol that does not implement the [Plugin] interface it fails
    with "Plugin symbol does not implement plugin.Plugin interface";
    otherwise the value is handed to [LoadPlugin]. *)
Theorem loadGoPlugin_looks_up_Plugin host path pluginCtx m
    (artifact : gmap string (Symbol (World:=World))) :
  Open host path = inr artifact ->
  let out := loadGoPlugin host path pluginCtx m in
  (artifact !! "Plugin" = None ->
     exists err,
       out = (Some (wrapError "plugin does not export 'Plugin' symbol: " err), m)) /\
  (artifact !! "Plugin" = Some SymOther ->
     out = (Some (errorString
                    "Plugin symbol does not implement plugin.Plugin interface"), m)) /\
  (forall p, artifact !! "Plugin" = Some (SymPlugin p) ->
     fst out = wrapError "failed to load plugin: " <$> fst (LoadPlugin p pluginCtx m) /\
     snd out = snd (LoadPlugin p pluginCtx m)).
Proof.
  intros Hopen out. unfold out, loadGoPlugin, Lookup. rewrite Hopen.
  split; [|split].
  - intros ->. eexists. reflexivity.
  - by intros ->.
  - intros p ->. unfold bind.
    destruct (LoadPlugin p pluginCtx m) as [[e|] m1]; done.
Qed.

Lemma runConfigHooks_cons (h : ConfigHook (World:=World)) hooks m :
  runConfigHooks (h :: hooks) m =
  let res := OnConfigLoad h (config m) (world m) in
  let m1 := {| registry := registry m; config := snd (fst res); world := snd res;
               trace := trace m ++ [EvConfigLoad h (config m)]; logs := logs m |} in
  match fst (fst res) with
  | Some e => (Some (wrapError "config hook failed: " e), m1)
  | None => runConfigHooks hooks m1
  end.
Proof.
  simpl. unfold bind, emit, onConfig, ret. simpl.
  destruct (OnConfigLoad h (config m) (world m)) as [[[e|] cfg] w1]; reflexivity.
Qed.

Lemma runConfigHooks_at (hooks : list (ConfigHook (World:=World))) m i c e0 :
  configRun hooks (config m) (world m) !! i = Some c ->
  snd c = Some e0 ->
  Forall (fun c => snd c = None) (take i (configRun hooks (config m) (world m))) ->
  let out := runConfigHooks hooks m in
  fst out = Some (wrapError "config hook failed: " e0) /\
  registry (snd out) = registry m /\
  logs (snd out) = logs m /\
  trace (snd out) =
  trace m ++ map configCall (take (S i) (configRun hooks (config m) (world m))).
Proof.
  revert m i. induction hooks as [|h hooks IH]; intros m i Hi He Hpre; [done|].
  cbv zeta. rewrite runConfigHooks_cons. cbn [configRun] in *.
  destruct (OnConfigLoad h (config m) (world m)) as [[err cfg1] w1] eqn:Hh.
  cbv zeta. cbn [fst snd].
  destruct i as [|i].
  - injection Hi as <-. cbn [snd] in He. subst err. done.
  - cbn [take] in Hpre. apply Forall_cons in Hpre as [Herr Hpre].
    cbn [snd] in Herr. subst err.
    cbn [lookup list_lookup] in Hi.
    match goal with |- context [runConfigHooks hooks ?m1] =>
      specialize (IH m1 i Hi He Hpre) end.
    cbv zeta in IH. destruct IH as (-> & -> & -> & ->).
    repeat split. cbn [take map]. unfold configCall at 3. simpl.
    by rewrite <- app_assoc.
Qed.

Lemma loadPaths_result host paths pluginCtx m :
  fst (loadPaths host paths pluginCtx m) = tt.
Proof. by destruct (loadPaths host paths pluginCtx m) as [[] ?]. Qed.

Lemma LoadFromConfig_nil host pluginCtx m :
  fst (LoadFromConfig host pluginCtx m) = None.
Proof.
  unfold LoadFromConfig, bind, ret.
  by destruct (loadPaths host _ pluginCtx m).
Qed.

End LoaderProps.

Section Startup.
Context {World : Type}.
Implicit Types (m : Machine (World:=World)) (host : Host (World:=World)).
Import app.

(** C3, amended.  When a config hook returns an error during start-up,
    the config hooks after it are not called and [initPlugins] returns
    the error without registering the plugins' shutdown, but [New] only
    logs the warning "Failed to initialize plugins" and goes on with the
    loaded configuration: it returns the application unless the
    configuration is configured and the coder agent cannot be
    initialised. *)
Theorem config_hook_error_is_logged_and_startup_continues
    host (newCoordinator : Config -> option error) m i c e0 :
  let m1 := snd (LoadFromConfig host (startupContext m) (freshRegistry m)) in
  let run := configRun (configHooks (registry m1)) (config m1) (world m1) in
  run !! i = Some c ->
  snd c = Some e0 ->
  Forall (fun c => snd c = None) (take i run) ->
  let err := wrapError "failed to trigger config hooks: "
               (wrapError "config hook failed: " e0) in
  let started := {| cleanupFuncs := [cleanupEvents]; AgentCoordinator := false |} in
  let out := New host newCoordinator m in
  let cfg := config (snd out) in
  fst (initPlugins host started (freshRegistry m)) = (Some err, started) /\
  trace (snd out) = trace m1 ++ map configCall (take (S i) run) /\
  (exists later,
     logs (snd out) =
     logs m1 ++ SlogWarn "Failed to initialize plugins" (Some err) :: later) /\
  (IsConfigured cfg = false ->
     fst out = (Some {| cleanupFuncs := [cleanupEvents; cleanupDB];
                        AgentCoordinator := false |}, None)) /\
  (IsConfigured cfg = true -> CoderAgentID cfg <> "" -> newCoordinator cfg = None ->
     fst out = (Some {| cleanupFuncs := [cleanupEvents; cleanupDB; cleanupMCP];
                        AgentCoordinator := true |}, None)) /\
  (fst (fst out) = None ->
     IsConfigured cfg = true /\
     (CoderAgentID cfg = "" \/ is_Some (newCoordinator cfg))).
Proof.
  intros m1 run Hi He Hpre err started out cfg. subst started.
  pose proof (runConfigHooks_at _ m1 i c e0 Hi He Hpre) as Hrun.
  cbv zeta in Hrun. fold run in Hrun.
  pose proof (LoadFromConfig_nil host (startupContext m) (freshRegistry m)) as Hload.
  assert (initPlugins host {| cleanupFuncs := [cleanupEvents]; AgentCoordinator := false |}
            (freshRegistry m) =
          ((Some err, {| cleanupFuncs := [cleanupEvents]; AgentCoordinator := false |}),
           snd (runConfigHooks (configHooks (registry m1)) m1)))
    as Hinit.
  { unfold initPlugins, bind, getConfig. 
    change (config (freshRegistry m)) with (config m).
    fold (startupContext m).
    destruct (LoadFromConfig host (startupContext m) (freshRegistry m)) as [lerr m1'] eqn:Hl.
    simpl in Hload. subst lerr. subst m1. simpl in *.
    unfold TriggerConfigHooks, bind, getRegistry.
    destruct (runConfigHooks (configHooks (registry m1')) m1') as [terr m2] eqn:Ht.
    simpl in Hrun. destruct Hrun as (-> & _). reflexivity. }
  split; [by rewrite Hinit|].
  destruct (runConfigHooks (configHooks (registry m1)) m1) as [terr m2] eqn:Ht.
  simpl in Hrun, Hinit. destruct Hrun as (_ & Hreg & Hlogs & Htrace).
  unfold cfg. clear cfg.
  assert (out = New host newCoordinator m) as Hout by reflexivity.
  clearbody out.
  unfold New, bind in Hout. fold (freshRegistry m) in Hout.
  change (putRegistry NewRegistry m) with (tt, freshRegistry m) in Hout.
  cbv beta iota zeta in Hout. rewrite Hinit in Hout. simpl in Hout.
  unfold logLine, getConfig, InitCoderAgent, bind, ret, getConfig in Hout.
  simpl in Hout.
  assert (forall l1 l2 : list LogLine,
            exists later,
              (logs m2 ++ [SlogWarn "Failed to initialize plugins" (Some err)] ++ l1) ++ l2 =
              logs m1 ++ SlogWarn "Failed to initialize plugins" (Some err) :: later)
    as Hlater.
  { intros l1 l2. exists (l1 ++ l2). by rewrite Hlogs, <- !app_assoc. }
  destruct (IsConfigured (config m2)) eqn:Hconf; simpl in Hout.
  - destruct (String.eqb (CoderAgentID (config m2)) "") eqn:Hid; simpl in Hout.
    + subst out. simpl. rewrite Hconf. split_and!; try done.
      * destruct (Hlater [] []) as [later Hl]. exists later.
        by rewrite <- Hl, !app_nil_r.
      * intros _ Hne. by apply String.eqb_eq in Hid.
      * intros _. split; [done|]. left. by apply String.eqb_eq.
    + destruct (newCoordinator (config m2)) as [e|] eqn:Hnc; simpl in Hout.
      * subst out. simpl. rewrite Hconf. split_and!; try done.
        -- destruct (Hlater [] [SlogError "Failed to create coder agent" e])
             as [later Hl]. exists later. by rewrite <- Hl, !app_nil_r.
        -- intros _ _ Hnone. congruence.
        -- intros _. split; [done|]. right. rewrite Hnc. by eexists.
      * subst out. simpl. rewrite Hconf. split_and!; try done.
        destruct (Hlater [] []) as [later Hl]. exists later.
        by rewrite <- Hl, !app_nil_r.
  - subst out. simpl. rewrite Hconf. split_and!; try done.
    destruct (Hlater [] [SlogWarn "No agent configuration found" None])
      as [later Hl]. exists later. by rewrite <- Hl, !app_nil_r.
Qed.
End Startup.

(** ** The properties on the example extensions *)
Import examples app.

Lemma permission_first_decision_wins_witness :
  let view := request "view" in
  let write := request "write" in
  let ab := machine (permRegistry [allowView; denyAll]) in
  let a := machine (permRegistry [allowView]) in
  let broken := machine (permRegistry [allowView; brokenPermission; denyAll]) in
  (fst (TriggerPermissionRequest view ab) = (Some true, None) /\
   trace (snd (TriggerPermissionRequest view ab)) =
   [EvPermissionRequest allowView view]) /\
  (fst (TriggerPermissionRequest write ab) = (Some false, None) /\
   trace (snd (TriggerPermissionRequest write ab)) =
   [EvPermissionRequest allowView write; EvPermissionRequest denyAll write]) /\
  (fst (TriggerPermissionRequest write a) = (None, None) /\
   trace (snd (TriggerPermissionRequest write a)) =
   [EvPermissionRequest allowView write]) /\
  (fst (TriggerPermissionRequest write broken) =
   (None, Some (wrapError "permission hook failed: "
                  (errorString "policy unavailable"))) /\
   trace (snd (TriggerPermissionRequest write broken)) =
   [EvPermissionRequest allowView write;
    EvPermissionRequest brokenPermission write]).
Proof.
  intros view write ab a broken.
  split; [|split; [|split]].
  - apply (proj1 (permission_first_decision_wins ab view) 0 true);
      [reflexivity | constructor].
  - apply (proj1 (permission_first_decision_wins ab write) 1 false);
      [reflexivity | repeat constructor].
  - apply (proj1 (proj2 (permission_first_decision_wins a write)));
      repeat constructor.
  - apply (proj2 (proj2 (permission_first_decision_wins broken write)) 1 None
             (errorString "policy unavailable"));
      [reflexivity | repeat constructor].
Defined.

Lemma tool_before_threads_arguments_witness :
  let x := addArgument "mode" (anyString "r") in
  let y := addArgument "trace" (anyBool true) in
  let xy := machine (toolRegistry [x; observer; y]) in
  let broken := machine (toolRegistry [x; brokenTool; y]) in
  let args1 : gmap string any :=
    {[ "path" := anyString "a.txt"; "mode" := anyString "r" ]} in
  let args2 : gmap string any := <["trace" := anyBool true]> args1 in
  (fst (TriggerToolExecuteBefore viewCall xy) = (Some args2, None) /\
   trace (snd (TriggerToolExecuteBefore viewCall xy)) =
   [EvToolExecuteBefore x viewCall;
    EvToolExecuteBefore observer (with_Arguments viewCall (Some args1));
    EvToolExecuteBefore y (with_Arguments viewCall (Some args1))]) /\
  (fst (TriggerToolExecuteBefore viewCall broken) =
   (None, Some (wrapError "tool execute before hook failed: "
                  (errorString "audit log full"))) /\
   trace (snd (TriggerToolExecuteBefore viewCall broken)) =
   [EvToolExecuteBefore x viewCall;
    EvToolExecuteBefore brokenTool (with_Arguments viewCall (Some args1))]).
Proof.
  intros x y xy broken args1 args2. split.
  - apply (proj1 (proj2 (tool_before_threads_arguments xy viewCall))).
    repeat constructor.
  - apply (proj2 (proj2 (tool_before_threads_arguments broken viewCall)) 1
             (brokenTool, with_Arguments viewCall (Some args1),
              (None, Some (errorString "audit log full")))
             (errorString "audit log full"));
      [reflexivity | reflexivity | repeat constructor].
Defined.

Lemma tool_after_returns_original_result_counterexample :
  let m := machine (toolRegistry [redactOutput; brokenTool]) in
  let out := TriggerToolExecuteAfter viewCall viewResult m in
  is_Some (snd (fst out)) /\ fst (fst out) <> viewResult.
Proof.
  split; [by eexists|]. vm_compute. discriminate.
Qed.

Lemma tool_after_threads_result_witness :
  let redacted := {| Output := "[redacted]"; ResultError := None; Metadata := None |} in
  let ok := machine (toolRegistry [observer; redactOutput; observer]) in
  let broken := machine (toolRegistry [redactOutput; brokenTool; observer]) in
  (fst (TriggerToolExecuteAfter viewCall viewResult ok) = (redacted, None) /\
   trace (snd (TriggerToolExecuteAfter viewCall viewResult ok)) =
   [EvToolExecuteAfter observer viewCall viewResult;
    EvToolExecuteAfter redactOutput viewCall viewResult;
    EvToolExecuteAfter observer viewCall redacted]) /\
  (fst (TriggerToolExecuteAfter viewCall viewResult broken) =
   (redacted, Some (wrapError "tool execute after hook failed: "
                      (errorString "audit log full"))) /\
   trace (snd (TriggerToolExecuteAfter viewCall viewResult broken)) =
   [EvToolExecuteAfter redactOutput viewCall viewResult;
    EvToolExecuteAfter brokenTool viewCall redacted]).
Proof.
  intros redacted ok broken. split.
  - apply (proj1 (proj2 (tool_after_threads_result ok viewCall viewResult))).
    repeat constructor.
  - apply (proj2 (proj2 (tool_after_threads_result broken viewCall viewResult)) 1
             (brokenTool, redacted, (None, Some (errorString "audit log full")))
             (errorString "audit log full"));
      [reflexivity | reflexivity | repeat constructor].
Defined.

Lemma pipeline_length_counts_custom_hooks_counterexample :
  let m := machine NewRegistry in
  let out := loadAll [baseHooksPlugin "crush-skills"] (startupContext m) m in
  let r := registry (snd out) in
  let loaded := hooksReturned (trace (snd out)) in
  fst out = [None] /\
  length (configHooks r) <> countIf customConfig loaded /\
  length (sessionHooks r) <> countIf customSession loaded /\
  length (messageHooks r) <> countIf customMessage loaded /\
  length (permHooks r) <> countIf customPermission loaded /\
  length (toolHooks r) <> countIf customTool loaded /\
  length (agentHooks r) <> countIf customAgent loaded.
Proof. vm_compute. repeat split; discriminate. Qed.

Lemma pipeline_length_counts_non_nil_hooks_witness :
  let m := machine NewRegistry in
  let out := loadAll [baseHooksPlugin "crush-skills"; strictPlugin;
                      baseHooksPlugin "crush-skills"] (startupContext m) m in
  fst out = [None; None;
             Some (errorString "plugin crush-skills is already loaded")] /\
  length (configHooks (registry (snd out))) = 2 /\
  length (permHooks (registry (snd out))) = 1.
Proof.
  intros m out.
  pose proof (pipeline_length_counts_non_nil_hooks
                [baseHooksPlugin "crush-skills"; strictPlugin;
                 baseHooksPlugin "crush-skills"] (startupContext m) m
                eq_refl eq_refl) as (_ & Hconfig & _ & _ & Hperm & _).
  split; [reflexivity|]. split; [exact Hconfig | exact Hperm].
Defined.

Lemma Shutdown_keeps_registry_witness :
  let m := machine twoPlugins in
  let out := Shutdown map_to_list m in
  registry (snd out) = twoPlugins /\
  length (trace (snd out)) = 2 /\
  fst (LoadPlugin (baseHooksPlugin "beta") (startupContext m) (snd out)) =
  Some (errorString "plugin beta is already loaded").
Proof.
  intros m out.
  pose proof (Shutdown_keeps_registry map_to_list m (reflexivity _))
    as (Hreg & Htrace & _ & _ & _ & Hdup).
  split; [exact Hreg|]. split.
  - fold out in Htrace. rewrite Htrace. reflexivity.
  - apply (Hdup (baseHooksPlugin "beta") (startupContext m)). by eexists.
Defined.

Lemma loadGoPlugin_looks_up_Extension_counterexample :
  let m := machine NewRegistry in
  (exists artifact,
     Open host0 "/plugins/strict.so" = inr artifact /\
     artifact !! "Extension" = None /\
     fst (loadGoPlugin host0 "/plugins/strict.so" (startupContext m) m) = None) /\
  (exists artifact,
     Open host0 "/plugins/renamed.so" = inr artifact /\
     artifact !! "Extension" = Some (SymPlugin strictPlugin) /\
     is_Some (fst (loadGoPlugin host0 "/plugins/renamed.so" (startupContext m) m))).
Proof.
  split; eexists; (split; [reflexivity|]); split; try reflexivity.
  vm_compute. by eexists.
Qed.

Lemma loadGoPlugin_looks_up_Plugin_witness :
  let m := machine NewRegistry in
  fst (loadGoPlugin host0 "/plugins/strict.so" (startupContext m) m) = None /\
  exists err,
    loadGoPlugin host0 "/plugins/renamed.so" (startupContext m) m =
    (Some (wrapError "plugin does not export 'Plugin' symbol: " err), m).
Proof.
  intros m. split.
  - pose proof (loadGoPlugin_looks_up_Plugin host0 "/plugins/strict.so"
                  (startupContext m) m _ eq_refl) as (_ & _ & H).
    destruct (H strictPlugin eq_refl) as [-> _]. reflexivity.
  - pose proof (loadGoPlugin_looks_up_Plugin host0 "/plugins/renamed.so"
                  (startupContext m) m _ eq_refl) as (H & _).
    exact (H eq_refl).
Defined.

Lemma config_hook_error_aborts_startup_counterexample :
  let m := machine NewRegistry in
  let loaded := snd (LoadFromConfig host0 (startupContext m) (freshRegistry m)) in
  let out := New host0 coordinatorOK m in
  configRun (configHooks (registry loaded)) (config loaded) (world loaded) =
  [(rejectConfig, cfg0, Some (errorString "unsupported configuration"))] /\
  fst out = (Some {| cleanupFuncs := [cleanupEvents; cleanupDB; cleanupMCP];
                     AgentCoordinator := true |}, None) /\
  config (snd out) = cfg0.
Proof. vm_compute. done. Qed.

Lemma config_hook_error_is_logged_and_startup_continues_witness :
  let m := machine NewRegistry in
  let out := New host0 coordinatorOK m in
  let err := wrapError "failed to trigger config hooks: "
               (wrapError "config hook failed: "
                  (errorString "unsupported configuration")) in
  logs (snd out) = [SlogWarn "Failed to initialize plugins" (Some err)] /\
  fst out = (Some {| cleanupFuncs := [cleanupEvents; cleanupDB; cleanupMCP];
                     AgentCoordinator := true |}, None).
Proof.
  intros m out err.
  pose proof (config_hook_error_is_logged_and_startup_continues
                host0 coordinatorOK m 0
                (rejectConfig, cfg0, Some (errorString "unsupported configuration"))
                (errorString "unsupported configuration")
                eq_refl eq_refl (Forall_nil_2 _))
    as (_ & _ & _ & _ & Hok & _).
  split; [reflexivity|].
  apply Hok; [reflexivity | discriminate | reflexivity].
Defined.

Import skills skillsref.

(** ** Strings *)
Section Strings.
Implicit Types (s t p sep : string) (c : ascii).

Lemma str_app_cons c s t : String c s +:+ t = String c (s +:+ t).
Proof. reflexivity. Qed.

Lemma str_app_nil_l s : "" +:+ s = s.
Proof. reflexivity. Qed.

Lemma str_app_nil_r s : s +:+ "" = s.
Proof. induction s as [|c s IH]; [done|]. by rewrite str_app_cons, IH. Qed.

Lemma str_app_assoc s t p : (s +:+ t) +:+ p = s +:+ (t +:+ p).
Proof. induction s as [|c s IH]; [done|]. by rewrite !str_app_cons, IH. Qed.

Lemma str_length_app s t : String.length (s +:+ t) = String.length s + String.length t.
Proof. induction s as [|c s IH]; [done|]. rewrite str_app_cons. simpl. by rewrite IH. Qed.

Lemma str_app_eq_nil s t : s +:+ t = "" -> s = "" /\ t = "".
Proof. destruct s; [done|]. rewrite str_app_cons. discriminate. Qed.

Lemma sliceFrom_app s t : gostrings.sliceFrom (String.length s) (s +:+ t) = t.
Proof. induction s as [|c s IH]; [by destruct t|]. by rewrite str_app_cons. Qed.

Lemma sliceTo_app s t : gostrings.sliceTo (String.length s) (s +:+ t) = s.
Proof.
  induction s as [|c s IH]; [by destruct t|]. rewrite str_app_cons. simpl. by rewrite IH.
Qed.

Lemma sliceFrom_0 s : gostrings.sliceFrom 0 s = s.
Proof. by destruct s. Qed.

Lemma sliceTo_sliceFrom n s : gostrings.sliceTo n s +:+ gostrings.sliceFrom n s = s.
Proof.
  revert s. induction n as [|n IH]; intros [|c s]; try done.
  simpl. by rewrite str_app_cons, IH.
Qed.

Lemma HasPrefix_app s p : gostrings.HasPrefix (p +:+ s) p = true.
Proof.
  induction p as [|c p IH]; [by destruct s|].
  rewrite str_app_cons. simpl. by rewrite Ascii.eqb_refl.
Qed.

Lemma HasPrefix_inv s p :
  gostrings.HasPrefix s p = true -> s = p +:+ gostrings.sliceFrom (String.length p) s.
Proof.
  revert s. induction p as [|c p IH]; intros s H.
  - by rewrite sliceFrom_0.
  - destruct s as [|d s]; [done|]. simpl in H.
    destruct (Ascii.eqb c d) eqn:Hc; [|done].
    apply Ascii.eqb_eq in Hc as ->. rewrite str_app_cons. simpl. f_equal. by apply IH.
Qed.

Lemma HasPrefix_nil p : gostrings.HasPrefix "" p = true -> p = "".
Proof. by destruct p. Qed.

Lemma length_sliceFrom n s :
  String.length (gostrings.sliceFrom n s) = String.length s - n.
Proof.
  revert s. induction n as [|n IH]; intros [|c s]; simpl; try lia.
  apply IH.
Qed.

Lemma HasPrefix_length s p :
  gostrings.HasPrefix s p = true -> String.length p <= String.length s.
Proof. intros H. rewrite (HasPrefix_inv s p H), str_length_app. lia. Qed.

Lemma index_unfold s sep :
  gostrings.index s sep =
  if gostrings.HasPrefix s sep then Some 0
  else match s with
       | "" => None
       | String _ s' => S <$> gostrings.index s' sep
       end.
Proof. by destruct s. Qed.

Lemma index_bound s sep m :
  gostrings.index s sep = Some m -> m + String.length sep <= String.length s.
Proof.
  revert m. induction s as [|c s IH]; intros m; rewrite index_unfold;
    destruct (gostrings.HasPrefix _ sep) eqn:Hp; try done.
  - intros [= <-]. apply HasPrefix_length in Hp. lia.
  - intros [= <-]. apply HasPrefix_length in Hp. lia.
  - destruct (gostrings.index s sep) as [k|]; [|done].
    intros [= <-]. specialize (IH k eq_refl). simpl. lia.
Qed.

Lemma splitN_unfold n s sep :
  2 <= n ->
  gostrings.splitN n s sep =
  match gostrings.index s sep with
  | None => [s]
  | Some m =>
      gostrings.sliceTo m s ::
      gostrings.splitN (n - 1) (gostrings.sliceFrom (m + String.length sep) s) sep
  end.
Proof.
  intros Hn. destruct n as [|[|n]]; [lia..|].
  replace (S (S n) - 1) with (S n) by lia. reflexivity.
Qed.

Lemma splitN_nonempty n s sep : 1 <= n -> gostrings.splitN n s sep <> [].
Proof.
  intros Hn. destruct n as [|[|n]]; [lia|done|].
  rewrite splitN_unfold by lia. by destruct (gostrings.index s sep).
Qed.

(** [SplitN(s, sep, 3)] against the full [Split(s, sep)]: the same first
    two pieces, and three pieces exactly when [Split] has at least three. *)
Lemma SplitN_3_Split s sep :
  sep <> "" ->
  match gostrings.index s sep with
  | None => gostrings.SplitN s sep 3 = [s] /\ gostrings.Split s sep = [s]
  | Some m =>
      let rest := gostrings.sliceFrom (m + String.length sep) s in
      match gostrings.index rest sep with
      | None =>
          gostrings.SplitN s sep 3 = [gostrings.sliceTo m s; rest] /\
          gostrings.Split s sep = [gostrings.sliceTo m s; rest]
      | Some m' =>
          gostrings.SplitN s sep 3 =
            [gostrings.sliceTo m s; gostrings.sliceTo m' rest;
             gostrings.sliceFrom (m' + String.length sep) rest] /\
          exists third more,
            gostrings.Split s sep =
              gostrings.sliceTo m s :: gostrings.sliceTo m' rest :: third :: more
      end
  end.
Proof.
  intros Hsep.
  assert (1 <= String.length sep) as Hlen by (destruct sep; [done|simpl; lia]).
  change (gostrings.SplitN s sep 3) with (gostrings.splitN 3 s sep).
  change (gostrings.Split s sep) with (gostrings.splitN (S (String.length s)) s sep).
  destruct (gostrings.index s sep) as [m|] eqn:Hm.
  - pose proof (index_bound _ _ _ Hm) as Hb.
    rewrite (splitN_unfold 3) by lia. rewrite Hm.
    rewrite (splitN_unfold (S (String.length s))) by lia. rewrite Hm.
    replace (S (String.length s) - 1) with (String.length s) by lia.
    cbv zeta.
    set (rest := gostrings.sliceFrom (m + String.length sep) s).
    destruct (gostrings.index rest sep) as [m'|] eqn:Hm'.
    + pose proof (index_bound _ _ _ Hm') as Hb'.
      assert (String.length rest = String.length s - (m + String.length sep)) as Hr
        by apply length_sliceFrom.
      rewrite (splitN_unfold (3 - 1)) by lia. rewrite Hm'.
      rewrite (splitN_unfold (String.length s)) by lia. rewrite Hm'.
      split; [reflexivity|].
      destruct (gostrings.splitN (String.length s - 1)
                  (gostrings.sliceFrom (m' + String.length sep) rest) sep)
        as [|third more] eqn:Hs.
      * exfalso. revert Hs. apply splitN_nonempty. lia.
      * by exists third, more.
    + rewrite (splitN_unfold (3 - 1)) by lia. rewrite Hm'.
      destruct (String.length s) as [|[|n]] eqn:Hl; [lia| |].
      * done.
      * rewrite (splitN_unfold (S (S n))) by lia. by rewrite Hm'.
  - rewrite (splitN_unfold 3) by lia. rewrite Hm.
    destruct (String.length s) as [|n]; [done|].
    rewrite (splitN_unfold (S (S n))) by lia. by rewrite Hm.
Qed.

End Strings.

Section Parse.
Implicit Types (env : Env).

Lemma parseSkillMD_inr env skillPath skill :
  parseSkillMD env skillPath = inr skill <->
  exists contentStr first frontmatterText body frontmatter,
    ReadFile env skillPath = inr contentStr /\
    gostrings.SplitN contentStr "---" 3 = [first; frontmatterText; body] /\
    Unmarshal env frontmatterText = inr frontmatter /\
    validFrontmatter skillPath frontmatter /\
    skill = skillOf env skillPath body frontmatter.
Proof.
  unfold parseSkillMD, validFrontmatter. split.
  - destruct (ReadFile env skillPath) as [|contentStr] eqn:Hread; [done|].
    destruct (gostrings.SplitN contentStr "---" 3)
      as [|first [|frontmatterText [|body [|]]]] eqn:Hsplit; try done.
    destruct (Unmarshal env frontmatterText) as [|frontmatter] eqn:Hyaml; [done|].
    destruct (String.eqb (fm_Name frontmatter) "") eqn:Hname; [done|].
    destruct (validateSkillName (fm_Name frontmatter)) eqn:Hvalid; [|done].
    destruct (String.length (fm_Description frontmatter) <? 20) eqn:Hdesc; [done|].
    simpl.
    destruct (String.eqb (fm_Name frontmatter) (filepath.Base (filepath.Dir skillPath)))
      eqn:Hdir; [|done].
    simpl. intros [= <-].
    apply String.eqb_neq in Hname. apply String.eqb_eq in Hdir.
    apply Nat.ltb_ge in Hdesc.
    by exists contentStr, first, frontmatterText, body, frontmatter.
  - intros (contentStr & first & frontmatterText & body & frontmatter
            & -> & -> & -> & (Hname & Hvalid & Hdir & Hdesc) & ->).
    apply String.eqb_neq in Hname. rewrite Hname, Hvalid. simpl.
    apply Nat.ltb_ge in Hdesc. rewrite Hdesc.
    apply String.eqb_eq in Hdir. by rewrite Hdir.
Qed.

(** Parsing succeeds exactly for the files whose full split has a valid
    frontmatter as its second part. *)
Lemma parseSkillMD_succeeds_iff env skillPath contentStr :
  ReadFile env skillPath = inr contentStr ->
  (exists skill, parseSkillMD env skillPath = inr skill) <->
  (exists first frontmatterText third more frontmatter,
      gostrings.Split contentStr "---" = first :: frontmatterText :: third :: more /\
      Unmarshal env frontmatterText = inr frontmatter /\
      fm_Name frontmatter <> "" /\
      validateSkillName (fm_Name frontmatter) = true /\
      fm_Name frontmatter = filepath.Base (filepath.Dir skillPath) /\
      20 <= String.length (fm_Description frontmatter)).
Proof.
  intros Hread.
  pose proof (SplitN_3_Split contentStr "---" ltac:(done)) as Hsplit.
  split.
  - intros [skill (content' & first & fmText & body & fm & Hread' & Hn & Hy & Hv & _)
              %parseSkillMD_inr].
    rewrite Hread in Hread'. injection Hread' as <-.
    destruct (gostrings.index contentStr "---") as [m|];
      [|destruct Hsplit as [Hn' _]; congruence].
    cbv zeta in Hsplit.
    destruct (gostrings.index _ "---") as [m'|];
      [|destruct Hsplit as [Hn' _]; congruence].
    destruct Hsplit as [Hn' (third & more & Hfull)].
    rewrite Hn in Hn'. injection Hn' as -> -> ->.
    eexists _, _, third, more, fm. split; [exact Hfull|]. split; [exact Hy|].
    exact Hv.
  - intros (first & fmText & third & more & fm & Hfull & Hy & Hv).
    destruct (gostrings.index contentStr "---") as [m|];
      [|destruct Hsplit as [_ Hn']; congruence].
    cbv zeta in Hsplit.
    destruct (gostrings.index _ "---") as [m'|];
      [|destruct Hsplit as [_ Hn']; congruence].
    destruct Hsplit as [Hn (third' & more' & Hfull')].
    rewrite Hfull in Hfull'. injection Hfull' as -> -> -> ->.
    eexists. apply parseSkillMD_inr.
    eexists contentStr, _, _, _, fm.
    split; [exact Hread|]. split; [exact Hn|]. split; [exact Hy|].
    split; [exact Hv | reflexivity].
Qed.
End Parse.

(** ** Discovery *)
Set Warnings "-clear-no-such-hyp".
Section Discovery.
Implicit Types (env : Env) (st : Discovery) (e : WalkEntry) (s : Skill)
  (l valid : list Skill) (t : string).

Lemma hasToolName_eq t s : hasToolName t s = true <-> ToolName s = t.
Proof. apply String.eqb_eq. Qed.

Lemma existsb_hasToolName t l :
  existsb (hasToolName t) l = true <-> t ∈ map ToolName l.
Proof.
  rewrite existsb_exists, list_elem_of_fmap. split.
  - intros (s & Hin & Hs). exists s. split; [symmetry; by apply hasToolName_eq|].
    by apply list_elem_of_In.
  - intros (s & -> & Hin). exists s. split; [by apply list_elem_of_In|].
    by apply hasToolName_eq.
Qed.

Lemma others_id t l : t ∉ map ToolName l -> others t l = l.
Proof.
  induction l as [|s l IH]; [done|]. simpl. intros Hnot.
  apply not_elem_of_cons in Hnot as [Hne Hnot].
  destruct (hasToolName t s) eqn:Hs; simpl.
  - apply hasToolName_eq in Hs. congruence.
  - by rewrite IH.
Qed.

Lemma others_names t l x :
  x ∈ map ToolName (others t l) <-> x ∈ map ToolName l /\ x <> t.
Proof.
  induction l as [|s l IH]; simpl; [set_solver|].
  destruct (hasToolName t s) eqn:Hs; simpl.
  - apply hasToolName_eq in Hs. rewrite IH. set_solver.
  - assert (ToolName s <> t) by (intros ?%hasToolName_eq; congruence).
    rewrite !elem_of_cons, IH. naive_solver.
Qed.

Lemma others_NoDup t l :
  NoDup (map ToolName l) -> NoDup (map ToolName (others t l)).
Proof.
  induction l as [|s l IH]; simpl; [done|].
  intros [Hnot Hnd]%NoDup_cons.
  destruct (hasToolName t s); simpl; [by apply IH|].
  apply NoDup_cons. split; [|by apply IH].
  rewrite others_names. tauto.
Qed.

Lemma removeFirst_others t l :
  NoDup (map ToolName l) -> removeFirst t l = others t l.
Proof.
  induction l as [|s l IH]; simpl; [done|].
  intros [Hnot Hnd]%NoDup_cons.
  change (String.eqb (ToolName s) t) with (hasToolName t s).
  destruct (hasToolName t s) eqn:Hs; simpl.
  - apply hasToolName_eq in Hs. subst t. by rewrite others_id.
  - by rewrite IH.
Qed.

Lemma keepLast_names l x : x ∈ map ToolName (keepLast l) <-> x ∈ map ToolName l.
Proof.
  induction l as [|s l IH]; simpl; [done|].
  destruct (existsb (hasToolName (ToolName s)) l) eqn:Hex; simpl.
  - apply existsb_hasToolName in Hex. rewrite IH. set_solver.
  - rewrite !elem_of_cons, IH. done.
Qed.

Lemma keepLast_NoDup l : NoDup (map ToolName (keepLast l)).
Proof.
  induction l as [|s l IH]; simpl; [constructor|].
  destruct (existsb (hasToolName (ToolName s)) l) eqn:Hex; simpl; [done|].
  apply NoDup_cons. split; [|done].
  rewrite keepLast_names. intros Hin%existsb_hasToolName. congruence.
Qed.

Lemma keepLast_snoc l s :
  keepLast (l ++ [s]) = others (ToolName s) (keepLast l) ++ [s].
Proof.
  induction l as [|s' l IH]; simpl; [done|].
  rewrite existsb_app. simpl. rewrite orb_false_r.
  destruct (existsb (hasToolName (ToolName s')) l) eqn:Hex; simpl.
  - exact IH.
  - destruct (hasToolName (ToolName s') s) eqn:Hs; simpl.
    + apply hasToolName_eq in Hs.
      assert (hasToolName (ToolName s) s' = true) as ->
        by (by apply hasToolName_eq).
      simpl. exact IH.
    + assert (hasToolName (ToolName s) s' = false) as ->.
      { apply not_true_is_false. intros ?%hasToolName_eq.
        assert (hasToolName (ToolName s') s = true) by (by apply hasToolName_eq).
        congruence. }
      simpl. by rewrite IH.
Qed.

Lemma lastWith_snoc t l s :
  lastWith t (l ++ [s]) = if hasToolName t s then Some s else lastWith t l.
Proof.
  induction l as [|s' l IH]; simpl; [done|].
  rewrite IH. by destruct (hasToolName t s).
Qed.

Lemma lastWith_app t l1 l2 :
  lastWith t (l1 ++ l2) =
  match lastWith t l2 with Some s => Some s | None => lastWith t l1 end.
Proof.
  induction l1 as [|s' l1 IH]; simpl; [by destruct (lastWith t l2)|].
  rewrite IH. by destruct (lastWith t l2).
Qed.

Lemma lastWith_None t l : lastWith t l = None <-> t ∉ map ToolName l.
Proof.
  induction l as [|s l IH]; simpl; [set_solver|].
  rewrite not_elem_of_cons, <- IH.
  destruct (lastWith t l); [naive_solver|].
  destruct (hasToolName t s) eqn:Hs.
  - apply hasToolName_eq in Hs. naive_solver.
  - assert (ToolName s <> t) by (intros ?%hasToolName_eq; congruence).
    naive_solver.
Qed.

Lemma lastWith_Some t l s :
  lastWith t l = Some s -> ToolName s = t /\ s ∈ l.
Proof.
  induction l as [|s' l IH]; simpl; [done|].
  destruct (lastWith t l) as [s''|].
  - intros [= ->]. destruct (IH eq_refl). split; [done|]. by right.
  - destruct (hasToolName t s') eqn:Hs; [|done].
    intros [= ->]. split; [by apply hasToolName_eq | by left].
Qed.

(** The skill that stays for a tool name is the last one discovered
    with it. *)
Lemma keepLast_lastWith l s :
  s ∈ keepLast l -> lastWith (ToolName s) l = Some s.
Proof.
  induction l as [|s' l IH]; simpl; [by intros ?%elem_of_nil|].
  destruct (existsb (hasToolName (ToolName s')) l) eqn:Hex.
  - intros Hin. by rewrite (IH Hin).
  - intros [->|Hin]%elem_of_cons.
    + assert (lastWith (ToolName s') l = None) as ->.
      { apply lastWith_None. intros ?%existsb_hasToolName. congruence. }
      assert (hasToolName (ToolName s') s' = true) as -> by (by apply hasToolName_eq).
      done.
    + by rewrite (IH Hin).
Qed.

Lemma lastWith_keepLast t l s :
  lastWith t l = Some s -> s ∈ keepLast l.
Proof.
  induction l as [|s' l IH]; simpl; [done|].
  destruct (lastWith t l) as [s''|] eqn:Hl.
  - intros [= ->]. specialize (IH eq_refl).
    destruct (existsb _ l); [done | by right].
  - destruct (hasToolName t s') eqn:Hs; [|done]. intros [= ->].
    apply hasToolName_eq in Hs. subst t.
    assert (existsb (hasToolName (ToolName s)) l = false) as ->.
    { apply not_true_is_false. intros ?%existsb_hasToolName.
      by apply lastWith_None in Hl. }
    by left.
Qed.


Lemma parseSkillMD_Path env skillPath s :
  parseSkillMD env skillPath = inr s -> Path s = skillPath.
Proof.
  unfold parseSkillMD. intros H.
  repeat match type of H with
  | match ?x with _ => _ end = _ => destruct x; try discriminate
  | (if ?x then _ else _) = _ => destruct x; try discriminate
  end.
  by injection H as <-.
Qed.

Lemma validSkill_Some env e s :
  validSkill env e = Some s <->
  isSkillFile e = true /\ parseSkillMD env (walk_path e) = inr s.
Proof.
  unfold validSkill. destruct (isSkillFile e); [|naive_solver].
  destruct (parseSkillMD env (walk_path e)); naive_solver.
Qed.

(** What the walk function does with an entry, case by case. *)
Lemma visit_other env st e : isSkillFile e = false -> visit env st e = st.
Proof.
  unfold isSkillFile, visit. destruct (walk_err e); [done|]. simpl.
  by intros ->.
Qed.

Lemma visit_rejected env st e parseErr :
  isSkillFile e = true ->
  parseSkillMD env (walk_path e) = inl parseErr ->
  visit env st e =
  {| allSkills := allSkills st; seenToolNames := seenToolNames st;
     stderr := stderr st ++ [parseWarning (walk_path e) parseErr] |}.
Proof.
  unfold isSkillFile, visit. destruct (walk_err e); [done|]. simpl.
  by intros -> ->.
Qed.

Lemma visit_valid env st e s :
  validSkill env e = Some s ->
  visit env st e =
  match seenToolNames st !! ToolName s with
  | Some existingPath =>
      {| allSkills := removeFirst (ToolName s) (allSkills st) ++ [s];
         seenToolNames := <[ToolName s := Path s]> (seenToolNames st);
         stderr := stderr st ++
                   [duplicateWarning (ToolName s) existingPath (Path s)] |}
  | None =>
      {| allSkills := allSkills st ++ [s];
         seenToolNames := <[ToolName s := Path s]> (seenToolNames st);
         stderr := stderr st |}
  end.
Proof.
  intros [Hfile Hparse]%validSkill_Some.
  rewrite (parseSkillMD_Path _ _ _ Hparse).
  unfold isSkillFile in Hfile. unfold visit.
  destruct (walk_err e); [done|]. simpl in Hfile. rewrite Hfile, Hparse.
  by destruct (seenToolNames st !! ToolName s).
Qed.

Lemma visit_tracks env valid st e :
  tracks valid st ->
  tracks (valid ++ option_list (validSkill env e)) (visit env st e).
Proof.
  intros [Hall Hseen].
  destruct (validSkill env e) as [s|] eqn:Hv; simpl.
  - rewrite (visit_valid _ _ _ _ Hv), Hseen.
    assert (forall t, <[ToolName s := Path s]> (seenToolNames st) !! t =
                      Path <$> lastWith t (valid ++ [s])) as Hseen'.
    { intros t. rewrite lastWith_snoc, lookup_insert.
      destruct (hasToolName t s) eqn:Hs.
      - apply hasToolName_eq in Hs. by rewrite decide_True.
      - rewrite decide_False; [apply Hseen|].
        intros ?. assert (hasToolName t s = true) by (by apply hasToolName_eq).
        congruence. }
    destruct (lastWith (ToolName s) valid) as [s0|] eqn:Hl; simpl; split; simpl;
      try exact Hseen'.
    + rewrite keepLast_snoc, Hall, removeFirst_others; [done|].
      apply keepLast_NoDup.
    + rewrite keepLast_snoc, Hall, others_id; [done|].
      rewrite keepLast_names. by apply lastWith_None.
  - rewrite app_nil_r.
    destruct (isSkillFile e) eqn:Hfile.
    + unfold validSkill in Hv. rewrite Hfile in Hv.
      destruct (parseSkillMD env (walk_path e)) as [err|] eqn:Hp; [|done].
      by rewrite (visit_rejected _ _ _ _ Hfile Hp).
    + by rewrite visit_other.
Qed.

Lemma walk_tracks env entries valid st :
  tracks valid st ->
  tracks (valid ++ validSkills env entries) (fold_left (visit env) entries st).
Proof.
  revert valid st. induction entries as [|e entries IH]; intros valid st Hst.
  - simpl. by rewrite app_nil_r.
  - simpl. unfold validSkills. simpl.
    specialize (IH _ _ (visit_tracks env valid st e Hst)).
    rewrite <- app_assoc in IH.
    by destruct (validSkill env e).
Qed.

Lemma discover_walk env basePaths st :
  fold_left (walkBase env) basePaths st =
  fold_left (visit env) (entriesOf env basePaths) st.
Proof.
  revert st. induction basePaths as [|b basePaths IH]; intros st; [done|].
  simpl. rewrite IH. unfold entriesOf. simpl. rewrite fold_left_app.
  unfold walkBase. by destruct (IsNotExist env b).
Qed.

Lemma discover_tracks env basePaths :
  tracks (validSkills env (entriesOf env basePaths)) (discover env basePaths).
Proof.
  unfold discover. rewrite discover_walk.
  apply (walk_tracks env _ []). by split.
Qed.

(** The diagnostic stream only grows. *)
Lemma visit_stderr env st e : exists lines, stderr (visit env st e) = stderr st ++ lines.
Proof.
  destruct (validSkill env e) as [s|] eqn:Hv.
  - rewrite (visit_valid _ _ _ _ Hv).
    destruct (seenToolNames st !! ToolName s); simpl; [by eexists|].
    exists []. by rewrite app_nil_r.
  - destruct (isSkillFile e) eqn:Hfile.
    + unfold validSkill in Hv. rewrite Hfile in Hv.
      destruct (parseSkillMD env (walk_path e)) as [err|] eqn:Hp; [|done].
      rewrite (visit_rejected _ _ _ _ Hfile Hp). simpl. by eexists.
    + rewrite visit_other by done. exists []. by rewrite app_nil_r.
Qed.

Lemma walk_stderr env entries st :
  exists lines, stderr (fold_left (visit env) entries st) = stderr st ++ lines.
Proof.
  revert st. induction entries as [|e entries IH]; intros st; simpl.
  - exists []. by rewrite app_nil_r.
  - destruct (IH (visit env st e)) as [lines ->].
    destruct (visit_stderr env st e) as [lines' ->].
    exists (lines' ++ lines). by rewrite app_assoc.
Qed.

Lemma validSkills_app env (l1 l2 : list WalkEntry) :
  validSkills env (l1 ++ l2) = validSkills env l1 ++ validSkills env l2.
Proof. apply omap_app. Qed.

Lemma entriesOf_app env (l1 l2 : list string) :
  entriesOf env (l1 ++ l2) = entriesOf env l1 ++ entriesOf env l2.
Proof. unfold entriesOf. by rewrite map_app, concat_app. Qed.

(** A line written while the walk is at an entry is in the final stream. *)
Lemma discover_stderr_at env basePaths pre e post line :
  entriesOf env basePaths = pre ++ e :: post ->
  (forall st, tracks (validSkills env pre) st ->
              exists before, stderr (visit env st e) = before ++ [line]) ->
  line ∈ stderr (discover env basePaths).
Proof.
  intros Hsplit Hstep. unfold discover. rewrite discover_walk, Hsplit.
  rewrite fold_left_app. simpl.
  set (st := fold_left (visit env) pre _).
  assert (tracks (validSkills env pre) st) as Hst.
  { apply (walk_tracks env pre []). by split. }
  destruct (Hstep st Hst) as [before Hline].
  destruct (walk_stderr env post (visit env st e)) as [lines ->].
  rewrite Hline. set_solver.
Qed.

End Discovery.

(** ** Paths *)
Section Paths.
Implicit Types (s t p e : string) (c : ascii) (es out : list string).

Lemma elements_cons c s :
  filepath.elements (String c s) =
  if filepath.isSlash c then "" :: filepath.elements s
  else match filepath.elements s with
       | e :: es => String c e :: es
       | [] => [String c ""]
       end.
Proof. reflexivity. Qed.

Lemma elements_nonempty s : filepath.elements s <> [].
Proof.
  destruct s as [|c s]; [done|]. rewrite elements_cons.
  destruct (filepath.isSlash c); [done|]. by destruct (filepath.elements s).
Qed.

(** A slash ends an element and starts the next one. *)
Lemma elements_app_slash s t :
  filepath.elements (s +:+ String "/" t) = filepath.elements s ++ filepath.elements t.
Proof.
  induction s as [|c s IH]; [done|].
  rewrite str_app_cons, !elements_cons, IH.
  destruct (filepath.isSlash c); [done|].
  pose proof (elements_nonempty s).
  by destruct (filepath.elements s).
Qed.

Lemma Join_cons e e' es :
  gostrings.Join (e :: e' :: es) "/" = e +:+ String "/" (gostrings.Join (e' :: es) "/").
Proof. reflexivity. Qed.

(** Joining the elements of a path gives the path back. *)
Lemma Join_elements s : gostrings.Join (filepath.elements s) "/" = s.
Proof.
  induction s as [|c s IH]; [done|]. rewrite elements_cons.
  pose proof (elements_nonempty s) as Hne.
  destruct (filepath.elements s) as [|e es]; [done|].
  unfold filepath.isSlash. destruct (Ascii.eqb c "/") eqn:Hc.
  - apply Ascii.eqb_eq in Hc as ->. by rewrite Join_cons, IH.
  - destruct es as [|e' es]; [simpl in *; by rewrite IH|].
    rewrite Join_cons in *. by rewrite str_app_cons, IH.
Qed.

Lemma slashFree_cons c e :
  slashFree (String c e) = negb (filepath.isSlash c) && slashFree e.
Proof. reflexivity. Qed.

Lemma elements_slashFree_eq e : slashFree e = true -> filepath.elements e = [e].
Proof.
  induction e as [|c e IH]; [done|]. rewrite slashFree_cons, elements_cons.
  intros [Hc He]%andb_true_iff. apply negb_true_iff in Hc. rewrite Hc.
  by rewrite (IH He).
Qed.

Lemma elements_slashFree s : Forall (fun e => slashFree e = true) (filepath.elements s).
Proof.
  induction s as [|c s IH]; [by repeat constructor|]. rewrite elements_cons.
  destruct (filepath.isSlash c) eqn:Hc; [by constructor|].
  destruct (filepath.elements s) as [|e es].
  - constructor; [|constructor]. by rewrite slashFree_cons, Hc.
  - apply Forall_cons in IH as [He Hes]. constructor; [|done].
    by rewrite slashFree_cons, Hc, He.
Qed.

Lemma elements_Join es :
  Forall (fun e => slashFree e = true) es -> es <> [] ->
  filepath.elements (gostrings.Join es "/") = es.
Proof.
  induction es as [|e es IH]; [done|]. intros [He Hes]%Forall_cons _.
  destruct es as [|e' es]; [by apply elements_slashFree_eq|].
  rewrite Join_cons, elements_app_slash, IH by done.
  by rewrite (elements_slashFree_eq e He).
Qed.

(** A path starts with [e/] exactly when [e] is its first element and
    not its last. *)
Lemma HasPrefix_element s e :
  slashFree e = true ->
  gostrings.HasPrefix s (e +:+ "/") =
  match filepath.elements s with
  | e' :: _ :: _ => String.eqb e' e
  | _ => false
  end.
Proof.
  intros He. destruct (gostrings.HasPrefix s (e +:+ "/")) eqn:Hp.
  - apply HasPrefix_inv in Hp. rewrite str_app_assoc in Hp.
    change ("/" +:+ ?x) with (String "/" x) in Hp.
    rewrite Hp, elements_app_slash, (elements_slashFree_eq e He). simpl.
    pose proof (elements_nonempty (gostrings.sliceFrom (String.length (e +:+ "/")) s)).
    destruct (filepath.elements _); [done|]. by rewrite String.eqb_refl.
  - destruct (filepath.elements s) as [|e' [|e'' es]] eqn:Hel; try done.
    destruct (String.eqb e' e) eqn:Heq; [|done].
    apply String.eqb_eq in Heq as ->.
    rewrite <- (Join_elements s), Hel, Join_cons in Hp.
    change (String "/" ?x) with ("/" +:+ x) in Hp.
    rewrite <- str_app_assoc, HasPrefix_app in Hp. done.
Qed.

Lemma elements_after_prefix s e :
  slashFree e = true ->
  gostrings.HasPrefix s (e +:+ "/") = true ->
  filepath.elements s =
  e :: filepath.elements (gostrings.sliceFrom (S (String.length e)) s).
Proof.
  intros He Hp. apply HasPrefix_inv in Hp.
  rewrite str_length_app in Hp. simpl in Hp.
  replace (String.length e + 1) with (S (String.length e)) in Hp by lia.
  rewrite str_app_assoc in Hp. change ("/" +:+ ?x) with (String "/" x) in Hp.
  rewrite Hp at 1. by rewrite elements_app_slash, (elements_slashFree_eq e He).
Qed.

Lemma HasPrefix_cons a b s p :
  gostrings.HasPrefix (String b s) (String a p) =
  if Ascii.eqb a b then gostrings.HasPrefix s p else false.
Proof. reflexivity. Qed.

Lemma lastIndex_cons c s sep :
  gostrings.lastIndex (String c s) sep =
  match gostrings.lastIndex s sep with
  | Some i => Some (S i)
  | None => if gostrings.HasPrefix (String c s) sep then Some 0 else None
  end.
Proof. reflexivity. Qed.

Lemma afterLastSkills_cons e es :
  afterLastSkills (e :: es) =
  match afterLastSkills es with
  | Some r => Some r
  | None =>
      if String.eqb e "skills"
      then match es with [] => None | _ :: _ => Some es end
      else None
  end.
Proof. reflexivity. Qed.

(** The text after the last [/skills/] of a path is, element by
    element, what follows the last element [skills] that is neither the
    first nor the last element of the path. *)
Lemma lastIndex_afterLastSkills s :
  afterLastSkills (tail (filepath.elements s)) =
  match gostrings.lastIndex s "/skills/" with
  | Some i => Some (filepath.elements (gostrings.sliceFrom (i + 8) s))
  | None => None
  end.
Proof.
  induction s as [|c s IH]; [done|].
  rewrite lastIndex_cons, elements_cons.
  unfold filepath.isSlash. destruct (Ascii.eqb_spec c "/") as [->|Hc].
  - simpl tail.
    pose proof (elements_nonempty s) as Hne.
    destruct (filepath.elements s) as [|e es] eqn:Hel; [done|].
    rewrite afterLastSkills_cons. simpl tail in IH. rewrite IH.
    destruct (gostrings.lastIndex s "/skills/") as [i|]; [done|].
    change (gostrings.HasPrefix (String "/" s) "/skills/")
      with (gostrings.HasPrefix s ("skills" +:+ "/")).
    rewrite (HasPrefix_element s "skills" eq_refl), Hel.
    destruct es as [|e2 es]; [by destruct (String.eqb e "skills")|].
    destruct (String.eqb e "skills") eqn:He; [|done].
    apply String.eqb_eq in He as ->.
    assert (gostrings.HasPrefix s ("skills" +:+ "/") = true) as Hp.
    { by rewrite (HasPrefix_element s "skills" eq_refl), Hel. }
    pose proof (elements_after_prefix s "skills" eq_refl Hp) as Hafter.
    rewrite Hel in Hafter. injection Hafter as Hafter. by rewrite Hafter.
  - assert (gostrings.HasPrefix (String c s) "/skills/" = false) as ->.
    { change "/skills/" with (String "/" "skills/"). rewrite HasPrefix_cons.
      destruct (Ascii.eqb_spec "/" c); [congruence|done]. }
    assert (tail (match filepath.elements s with
                  | [] => [String c ""]
                  | e :: es => String c e :: es
                  end) = tail (filepath.elements s)) as ->.
    { pose proof (elements_nonempty s). by destruct (filepath.elements s). }
    rewrite IH. by destruct (gostrings.lastIndex s "/skills/").
Qed.

Lemma afterLastSkills_suffix es rel :
  afterLastSkills es = Some rel -> rel <> [] /\ exists pre, es = pre ++ rel.
Proof.
  revert rel. induction es as [|e es IH]; intros rel; [done|].
  rewrite afterLastSkills_cons.
  destruct (afterLastSkills es) as [r|].
  - intros [= <-]. destruct (IH r eq_refl) as [Hne [pre ->]].
    split; [done|]. by exists (e :: pre).
  - destruct (String.eqb e "skills"); [|done].
    destruct es as [|e2 es]; [done|]. intros [= <-].
    split; [done|]. by exists [e].
Qed.

(** ** [filepath.Clean] *)

Lemma keptElement_spec e :
  keptElement e = true <-> e <> "" /\ e <> "." /\ slashFree e = true.
Proof.
  unfold keptElement. rewrite !andb_true_iff, !negb_true_iff.
  rewrite !String.eqb_neq. tauto.
Qed.

Lemma cleanStep_kept rooted out e :
  slashFree e = true ->
  Forall (fun x => keptElement x = true) out ->
  Forall (fun x => keptElement x = true) (filepath.cleanStep rooted out e).
Proof.
  intros He Hout. unfold filepath.cleanStep.
  destruct (String.eqb e "") eqn:H1; [done|].
  destruct (String.eqb e ".") eqn:H2; [done|].
  destruct (String.eqb e "..") eqn:H3.
  - destruct out as [|top below].
    + destruct rooted; by repeat constructor.
    + destruct (String.eqb top ".."); [by constructor|].
      by apply Forall_cons in Hout as [_ ?].
  - constructor; [|done]. apply keptElement_spec.
    apply String.eqb_neq in H1, H2. done.
Qed.

Lemma clean_fold_kept rooted es out :
  Forall (fun e => slashFree e = true) es ->
  Forall (fun x => keptElement x = true) out ->
  Forall (fun x => keptElement x = true) (fold_left (filepath.cleanStep rooted) es out).
Proof.
  revert out. induction es as [|e es IH]; intros out Hes Hout; [done|].
  apply Forall_cons in Hes as [He Hes]. simpl.
  apply IH; [done|]. by apply cleanStep_kept.
Qed.

Lemma kept_slashFree es :
  Forall (fun x => keptElement x = true) es -> Forall (fun e => slashFree e = true) es.
Proof.
  intros H. eapply Forall_impl; [exact H|].
  by intros e (_ & _ & ?)%keptElement_spec.
Qed.

(** A cleaned path is [/], or all its elements after the first are
    proper names; and it is never empty. *)
Lemma Clean_elements path :
  filepath.Clean path <> "" /\
  (filepath.Clean path = "/" \/
   Forall (fun x => keptElement x = true) (tail (filepath.elements (filepath.Clean path)))).
Proof.
  unfold filepath.Clean.
  destruct (String.eqb path ""); [split; [done|by right; constructor]|].
  set (rooted := gostrings.HasPrefix path "/").
  pose proof (clean_fold_kept rooted (filepath.elements path) []
                (elements_slashFree path) (Forall_nil_2 _)) as Hkept.
  destruct (fold_left (filepath.cleanStep rooted) (filepath.elements path) [])
    as [|top below] eqn:Hout.
  - destruct rooted; [split; [done|by left]|split; [done|by right; constructor]].
  - assert (Forall (fun x => keptElement x = true) (rev (top :: below))) as Hrev.
    { by apply Forall_rev. }
    assert (rev (top :: below) <> []) as Hne.
    { simpl. by destruct (rev below). }
    pose proof (elements_Join _ (kept_slashFree _ Hrev) Hne) as Hel.
    destruct rooted.
    + split; [done|]. right.
      change ("/" +:+ ?x) with ("" +:+ String "/" x).
      rewrite elements_app_slash, Hel. done.
    + split.
      * intros Hempty. rewrite Hempty in Hel.
        change (filepath.elements "") with [""] in Hel.
        rewrite <- Hel in Hrev. apply Forall_cons in Hrev as [H _]. done.
      * right. rewrite Hel. destruct (rev (top :: below)); [done|].
        by apply Forall_cons in Hrev as [_ ?].
Qed.

Lemma Dir_elements path :
  filepath.Dir path <> "" /\
  (filepath.Dir path = "/" \/
   Forall (fun x => keptElement x = true) (tail (filepath.elements (filepath.Dir path)))).
Proof. unfold filepath.Dir. destruct (gostrings.lastIndex path "/"); apply Clean_elements. Qed.

Lemma Join_nonempty (elem : list string) :
  Exists (fun e => e <> "") elem -> filepath.Join elem <> "".
Proof.
  induction elem as [|e elem IH]; intros Hex; [by apply Exists_nil in Hex|].
  simpl. destruct (String.eqb e "") eqn:He.
  - apply String.eqb_eq in He. apply Exists_cons in Hex as [?|?]; [done|by apply IH].
  - apply Clean_elements.
Qed.

End Paths.

(** ** Tool names *)
Import skillexamples.

Section ToolNames.
Implicit Types (s t p e rel : string) (c : ascii).

Lemma allBytes_app P s t : allBytes P (s +:+ t) = allBytes P s && allBytes P t.
Proof.
  induction s as [|c s IH]; [done|]. rewrite str_app_cons. simpl.
  by rewrite IH, andb_assoc.
Qed.

Lemma HasSuffix_inv s sfx :
  gostrings.HasSuffix s sfx = true -> exists s0, s = s0 +:+ sfx.
Proof.
  unfold gostrings.HasSuffix. intros [_ Heq%String.eqb_eq]%andb_true_iff.
  exists (gostrings.sliceTo (String.length s - String.length sfx) s).
  by rewrite <- Heq at 2; rewrite sliceTo_sliceFrom.
Qed.

(** Nothing is trimmed from a path whose elements are proper names. *)
Lemma trims_kept rel :
  Forall (fun x => keptElement x = true) (filepath.elements rel) ->
  gostrings.TrimSuffix (gostrings.TrimPrefix rel "./") "/" = rel /\ rel <> "".
Proof.
  intros Hkept.
  assert (gostrings.HasPrefix rel "./" = false) as Hpre.
  { change "./" with ("." +:+ "/"). rewrite (HasPrefix_element rel "." eq_refl).
    destruct (filepath.elements rel) as [|e [|e2 es]]; try done.
    apply Forall_cons in Hkept as [(_ & He & _)%keptElement_spec _].
    by apply String.eqb_neq. }
  assert (gostrings.HasSuffix rel "/" = false) as Hsuf.
  { apply not_true_is_false. intros [s0 ->]%HasSuffix_inv.
    change (s0 +:+ "/") with (s0 +:+ String "/" "") in Hkept.
    rewrite elements_app_slash in Hkept. apply Forall_app in Hkept as [_ Hlast].
    by apply Forall_cons in Hlast as [? _]. }
  unfold gostrings.TrimPrefix, gostrings.TrimSuffix. rewrite Hpre, Hsuf.
  split; [done|]. intros ->. by apply Forall_cons in Hkept as [? _].
Qed.

(** Nor from a validated skill name. *)
Lemma trims_name name :
  validateSkillName name = true ->
  gostrings.TrimSuffix (gostrings.TrimPrefix name "./") "/" = name /\ name <> "".
Proof.
  unfold validateSkillName. intros [Hne Hall]%andb_true_iff.
  apply negb_true_iff, String.eqb_neq in Hne.
  assert (gostrings.HasPrefix name "./" = false) as Hpre.
  { apply not_true_is_false. intros Hp%HasPrefix_inv. rewrite Hp in Hall.
    rewrite allBytes_app in Hall. done. }
  assert (gostrings.HasSuffix name "/" = false) as Hsuf.
  { apply not_true_is_false. intros [s0 ->]%HasSuffix_inv.
    rewrite allBytes_app in Hall. apply andb_true_iff in Hall as [_ ?]. done. }
  unfold gostrings.TrimPrefix, gostrings.TrimSuffix. by rewrite Hpre, Hsuf.
Qed.

Lemma generateToolName_untrimmed rel :
  gostrings.TrimSuffix (gostrings.TrimPrefix rel "./") "/" = rel ->
  generateToolName rel = toolNameOf rel.
Proof. unfold generateToolName, toolNameOf. by intros ->. Qed.

Lemma replaceNonWord_word skip s : allBytes isWordByte (replaceNonWord skip s) = true.
Proof.
  revert skip. induction s as [|c s IH]; intros skip; [done|]. simpl.
  destruct skip; [|apply IH].
  destruct (isWordByte c) eqn:Hc; simpl; [by rewrite Hc, IH | apply IH].
Qed.

Lemma replaceNonWord_nonempty s : s <> "" -> replaceNonWord 0 s <> "".
Proof. destruct s as [|c s]; [done|]. simpl. by destruct (isWordByte c). Qed.

Lemma ReplaceAll_nonempty s : s <> "" -> gostrings.ReplaceAll s "/" "_" <> "".
Proof.
  destruct s as [|c s]; [done|]. intros _.
  unfold gostrings.ReplaceAll. cbn [gostrings.replaceAll].
  change "/" with (String "/" "") at 1. rewrite HasPrefix_cons.
  destruct (Ascii.eqb "/" c); [|done].
  destruct (gostrings.HasPrefix s ""); [|done].
  intros [? _]%str_app_eq_nil. done.
Qed.

Lemma toLowerByte_toolName c :
  isWordByte c = true -> isToolNameByte (gostrings.toLowerByte c) = true.
Proof.
  unfold isWordByte, isToolNameByte, gostrings.toLowerByte.
  destruct (gostrings.isUpper c) eqn:Hu.
  - intros _. unfold gostrings.isUpper, gostrings.isLower, gostrings.between,
      gostrings.byte in *.
    apply andb_true_iff in Hu as [H1%Nat.leb_le H2%Nat.leb_le].
    rewrite nat_ascii_embedding by lia.
    assert ((97 <=? nat_of_ascii c + 32) = true) as -> by (apply Nat.leb_le; lia).
    assert ((nat_of_ascii c + 32 <=? 122) = true) as -> by (apply Nat.leb_le; lia).
    done.
  - rewrite orb_false_r. by intros ->.
Qed.

Lemma ToLower_toolName s :
  allBytes isWordByte s = true -> allBytes isToolNameByte (gostrings.ToLower s) = true.
Proof.
  induction s as [|c s IH]; [done|]. simpl.
  intros [Hc Hs]%andb_true_iff. by rewrite toLowerByte_toolName, IH.
Qed.

Lemma ToLower_nonempty s : s <> "" -> gostrings.ToLower s <> "".
Proof. by destruct s. Qed.

(** A generated tool name matches [^skills_[a-z0-9_]+$]. *)
Lemma toolNameOf_matches rel : rel <> "" -> matchesToolName (toolNameOf rel) = true.
Proof.
  intros Hne. unfold matchesToolName, toolNameOf.
  rewrite HasPrefix_app.
  change 7 with (String.length "skills_"). rewrite sliceFrom_app.
  rewrite ToLower_toolName by apply replaceNonWord_word.
  assert (gostrings.ToLower (replaceNonWord 0 (gostrings.ReplaceAll rel "/" "_")) <> "")
    as Hne'%String.eqb_neq.
  { by apply ToLower_nonempty, replaceNonWord_nonempty, ReplaceAll_nonempty. }
  by rewrite Hne'.
Qed.

Lemma relativeToSkills_first skillDir :
  head (filepath.elements skillDir) <> Some "skills" ->
  relativeToSkills skillDir = relativeToSlashSkills skillDir.
Proof.
  unfold relativeToSkills, relativeToSlashSkills.
  destruct (filepath.elements skillDir) as [|e es]; [done|]. simpl.
  intros He. destruct (String.eqb_spec e "skills") as [->|_]; [done|].
  by destruct (afterLastSkills es).
Qed.

Lemma absolute_first skillDir :
  gostrings.HasPrefix skillDir "/" = true ->
  head (filepath.elements skillDir) <> Some "skills".
Proof.
  intros Hp%HasPrefix_inv. rewrite Hp.
  change ("/" +:+ ?x) with ("" +:+ String "/" x). by rewrite elements_app_slash.
Qed.

(** The relative path [parseSkillMD] hands to [generateToolName]. *)
Lemma relPath_relativeToSlashSkills skillDir :
  let skillsIdx := gostrings.LastIndex skillDir "/skills/" in
  (if (0 <=? skillsIdx)%Z
   then gostrings.sliceFrom (Z.to_nat (skillsIdx + 8)) skillDir
   else filepath.Base skillDir) = relativeToSlashSkills skillDir.
Proof.
  cbv zeta. unfold relativeToSlashSkills, gostrings.LastIndex.
  rewrite lastIndex_afterLastSkills.
  destruct (gostrings.lastIndex skillDir "/skills/") as [i|]; [|done].
  assert ((0 <=? Z.of_nat i)%Z = true) as -> by (apply Z.leb_le; lia).
  replace (Z.to_nat (Z.of_nat i + 8)) with (i + 8) by lia.
  by rewrite Join_elements.
Qed.

(** What [parseSkillMD] computes for every file: the tool name is
    [skills_] followed by the lower-cased, sanitised text after the last
    [/skills/] of the skill directory, the basename if there is none,
    and it matches [^skills_[a-z0-9_]+$].  Whenever the first element of
    the directory is not [skills], as for every absolute directory, this
    is the name computed from the nearest ancestor named [skills]. *)
Lemma tool_name_of_parsed_skill env skillPath skill :
  parseSkillMD env skillPath = inr skill ->
  let skillDir := filepath.Dir skillPath in
  ToolName skill = toolNameOf (relativeToSlashSkills skillDir) /\
  matchesToolName (ToolName skill) = true /\
  (head (filepath.elements skillDir) <> Some "skills" ->
   ToolName skill = toolNameOf (relativeToSkills skillDir)) /\
  (gostrings.HasPrefix skillDir "/" = true ->
   ToolName skill = toolNameOf (relativeToSkills skillDir)).
Proof.
  intros (contentStr & first & fmText & body & fm & _ & _ & _
          & (Hne & Hvalid & Hdir & _) & ->)%parseSkillMD_inr skillDir.
  unfold skillOf. cbv zeta. cbn [ToolName]. fold skillDir.
  pose proof (relPath_relativeToSlashSkills skillDir) as Hrel. cbv zeta in Hrel.
  rewrite Hrel.
  assert (gostrings.TrimSuffix
            (gostrings.TrimPrefix (relativeToSlashSkills skillDir) "./") "/" =
          relativeToSlashSkills skillDir /\ relativeToSlashSkills skillDir <> "")
    as [Htrim Hrelne].
  { unfold relativeToSlashSkills.
    destruct (afterLastSkills (tail (filepath.elements skillDir))) as [rel|] eqn:Hafter.
    - apply trims_kept.
      destruct (afterLastSkills_suffix _ _ Hafter) as [Hrne [pre Hpre]].
      rewrite elements_Join.
      + destruct (Dir_elements skillPath) as [_ [Hroot|Hkept]].
        * fold skillDir in Hroot. rewrite Hroot in Hafter. done.
        * fold skillDir in Hkept. rewrite Hpre in Hkept.
          by apply Forall_app in Hkept as [_ ?].
      + assert (Forall (fun e => slashFree e = true) (tail (filepath.elements skillDir)))
          as Hsf.
        { pose proof (elements_slashFree skillDir) as H.
          destruct (filepath.elements skillDir); [done|].
          by apply Forall_cons in H as [_ ?]. }
        rewrite Hpre in Hsf. by apply Forall_app in Hsf as [_ ?].
      + done.
    - fold skillDir in Hdir. rewrite <- Hdir. by apply trims_name. }
  rewrite (generateToolName_untrimmed _ Htrim).
  split; [done|]. split; [by apply toolNameOf_matches|]. split.
  - intros Hfirst. by rewrite relativeToSkills_first.
  - intros Habs. by rewrite relativeToSkills_first by by apply absolute_first.
Qed.

(** C7.  The tool name is not always taken relative to the nearest
    ancestor named [skills].  With [XDG_CONFIG_HOME=skills] the first
    base path of [getSkillBasePaths] is [skills/crush/skills]; the
    discovery finds the skill [skills] that lies directly in it, whose
    directory has the ancestor [skills] and relative to it the path
    [crush/skills], which gives the name [skills_crush_skills].
    [parseSkillMD] looks for the text [/skills/], does not find the
    leading [skills/], and names the tool [skills_skills] after the
    basename. *)
Theorem tool_name_misses_leading_skills_directory :
  let basePaths := getSkillBasePaths envConfigHome "/work" in
  basePaths = ["skills/crush/skills"; "/home/u/.crush/skills"; "/work/.crush/skills"] /\
  stderr (discover envConfigHome basePaths) = [] /\
  exists skill,
    fst (discoverSkills envConfigHome basePaths) = [skill] /\
    parseSkillMD envConfigHome "skills/crush/skills/SKILL.md" = inr skill /\
    skills.Name skill = "skills" /\
    FullPath skill = "skills/crush/skills" /\
    filepath.elements (FullPath skill) = ["skills"; "crush"; "skills"] /\
    relativeToSkills (FullPath skill) = "crush/skills" /\
    toolNameOf (relativeToSkills (FullPath skill)) = "skills_crush_skills" /\
    ToolName skill = "skills_skills".
Proof. vm_compute. split; [done|]. split; [done|]. eexists. repeat split. Qed.

Lemma tool_name_of_parsed_skill_witness :
  exists skill,
    parseSkillMD env0 "/work/.crush/skills/foo/SKILL.md" = inr skill /\
    ToolName skill = "skills_foo" /\
    matchesToolName (ToolName skill) = true.
Proof.
  destruct (parseSkillMD env0 "/work/.crush/skills/foo/SKILL.md") as [err|skill] eqn:Hparse;
    [by vm_compute in Hparse|].
  exists skill. split; [done|].
  destruct (tool_name_of_parsed_skill env0 _ skill Hparse) as (_ & Hmatch & _ & Habs).
  split; [|exact Hmatch].
  rewrite (Habs eq_refl). reflexivity.
Defined.

End ToolNames.

(** ** Discovery of skills *)
Section DiscoveryTheorems.
Implicit Types (env : Env) (st : Discovery) (e : WalkEntry) (s : Skill)
  (valid : list Skill) (t : string).

Lemma validSkill_rejected env e parseErr :
  parseSkillMD env (walk_path e) = inl parseErr -> validSkill env e = None.
Proof. unfold validSkill. intros ->. by destruct (isSkillFile e). Qed.

(** C6.  A readable SKILL.md file parses exactly when [Split] of its
    text on [---] has at least three parts, the second part unmarshals
    as frontmatter, the name is not empty and matches [^[a-z0-9-]+$],
    the name is the basename of the file's directory, and the
    description has at least 20 bytes.  In a discovery, a SKILL.md file
    that does not parse gets a warning on the diagnostic stream and the
    discovered skills are those of the other entries of the walk; the
    discovery never returns an error. *)
Theorem skill_file_accepted_iff_valid env :
  (forall skillPath contentStr,
     ReadFile env skillPath = inr contentStr ->
     (exists skill, parseSkillMD env skillPath = inr skill) <->
     (exists first frontmatterText third more frontmatter,
        gostrings.Split contentStr "---" = first :: frontmatterText :: third :: more /\
        Unmarshal env frontmatterText = inr frontmatter /\
        validFrontmatter skillPath frontmatter)) /\
  (forall basePaths pre e post parseErr,
     entriesOf env basePaths = pre ++ e :: post ->
     isSkillFile e = true ->
     parseSkillMD env (walk_path e) = inl parseErr ->
     parseWarning (walk_path e) parseErr ∈ stderr (discover env basePaths) /\
     discoverSkills env basePaths = (keepLast (validSkills env (pre ++ post)), None)) /\
  (forall basePaths, snd (discoverSkills env basePaths) = None).
Proof.
  split; [|split].
  - intros skillPath contentStr Hread.
    apply (parseSkillMD_succeeds_iff env skillPath contentStr Hread).
  - intros basePaths pre e post parseErr Hsplit Hfile Hparse. split.
    + apply (discover_stderr_at env basePaths pre e post _ Hsplit).
      intros st _. rewrite (visit_rejected _ _ _ _ Hfile Hparse). simpl.
      by eexists.
    + unfold discoverSkills. f_equal.
      destruct (discover_tracks env basePaths) as [-> _].
      rewrite Hsplit, !validSkills_app. simpl. unfold validSkills at 2. simpl.
      by rewrite (validSkill_rejected _ _ _ Hparse).
  - done.
Qed.

Lemma getSkillBasePaths_order env workingDir :
  let xdg := Getenv env "XDG_CONFIG_HOME" in
  let project := filepath.Join [workingDir; ".crush"; "skills"] in
  (exists lower, getSkillBasePaths env workingDir = lower ++ [project]) /\
  (forall homeDir,
     UserHomeDir env = inr homeDir -> xdg <> "" ->
     getSkillBasePaths env workingDir =
     [filepath.Join [xdg; "crush"; "skills"];
      filepath.Join [homeDir; ".crush"; "skills"]; project]) /\
  (forall homeDir,
     UserHomeDir env = inr homeDir -> xdg = "" ->
     getSkillBasePaths env workingDir =
     [filepath.Join [filepath.Join [homeDir; ".config"]; "crush"; "skills"];
      filepath.Join [homeDir; ".crush"; "skills"]; project]).
Proof.
  cbv zeta. unfold getSkillBasePaths. split; [by eexists|]. split.
  - intros homeDir -> Hxdg. apply String.eqb_neq in Hxdg. by rewrite !Hxdg.
  - intros homeDir -> ->.
    assert (filepath.Join [homeDir; ".config"] <> "") as Hne.
    { apply Join_nonempty. apply Exists_cons_tl, Exists_cons_hd. done. }
    apply String.eqb_neq in Hne. change (String.eqb "" "") with true. cbv iota.
    by rewrite Hne.
Qed.

(** C8.  The discovered skills are the valid skills of the walk with,
    for every tool name, only the last one kept: no tool name occurs
    twice, every valid skill's tool name occurs, a skill that replaces an
    earlier one is announced by a warning that names both paths, a skill
    found under a later base path wins over those of the earlier base
    paths, and the base paths are the XDG config directory, the home
    directory and then, last, the project-local directory. *)
Theorem later_skill_replaces_earlier env basePaths :
  let valid := validSkills env (entriesOf env basePaths) in
  let found := discover env basePaths in
  fst (discoverSkills env basePaths) = keepLast valid /\
  NoDup (map ToolName (allSkills found)) /\
  (forall s, s ∈ valid ->
     exists kept, kept ∈ allSkills found /\ ToolName kept = ToolName s /\
                  lastWith (ToolName s) valid = Some kept) /\
  (forall pre e post s earlier,
     entriesOf env basePaths = pre ++ e :: post ->
     validSkill env e = Some s ->
     lastWith (ToolName s) (validSkills env pre) = Some earlier ->
     duplicateWarning (ToolName s) (Path earlier) (Path s) ∈ stderr found) /\
  (forall lower higher s,
     basePaths = lower ++ higher ->
     s ∈ validSkills env (entriesOf env higher) ->
     exists kept, kept ∈ allSkills found /\ ToolName kept = ToolName s /\
                  kept ∈ validSkills env (entriesOf env higher)) /\
  (forall workingDir,
     basePaths = getSkillBasePaths env workingDir ->
     let xdg := Getenv env "XDG_CONFIG_HOME" in
     let project := filepath.Join [workingDir; ".crush"; "skills"] in
     (exists lower, basePaths = lower ++ [project]) /\
     (forall homeDir,
        UserHomeDir env = inr homeDir -> xdg <> "" ->
        basePaths =
        [filepath.Join [xdg; "crush"; "skills"];
         filepath.Join [homeDir; ".crush"; "skills"]; project]) /\
     (forall homeDir,
        UserHomeDir env = inr homeDir -> xdg = "" ->
        basePaths =
        [filepath.Join [filepath.Join [homeDir; ".config"]; "crush"; "skills"];
         filepath.Join [homeDir; ".crush"; "skills"]; project])).
Proof.
  intros valid found.
  destruct (discover_tracks env basePaths) as [Hall Hseen].
  fold found valid in Hall, Hseen.
  assert (forall s, s ∈ valid ->
            exists kept, lastWith (ToolName s) valid = Some kept) as Hlast.
  { intros s Hs. destruct (lastWith (ToolName s) valid) as [kept|] eqn:Hl; [by eexists|].
    apply lastWith_None in Hl. exfalso. apply Hl.
    by apply (list_elem_of_fmap_2 ToolName). }
  split; [exact Hall|]. split; [rewrite Hall; apply keepLast_NoDup|].
  split; [|split; [|split]].
  - intros s Hs. destruct (Hlast s Hs) as [kept Hkept]. exists kept.
    rewrite Hall. split; [by eapply lastWith_keepLast|].
    split; [by apply lastWith_Some in Hkept as [? _] | done].
  - intros pre e post s earlier Hsplit Hv Hearlier.
    apply (discover_stderr_at env basePaths pre e post _ Hsplit).
    intros st [_ Hst]. rewrite (visit_valid _ _ _ _ Hv), Hst, Hearlier. simpl.
    by eexists.
  - intros lower higher s -> Hs. subst valid.
    rewrite entriesOf_app, validSkills_app in *.
    set (hi := validSkills env (entriesOf env higher)) in *.
    destruct (lastWith (ToolName s) hi) as [kept|] eqn:Hl.
    + exists kept. destruct (lastWith_Some _ _ _ Hl) as [Hname Hin].
      split; [|done]. rewrite Hall. apply (lastWith_keepLast (ToolName s)).
      by rewrite lastWith_app, Hl.
    + apply lastWith_None in Hl. exfalso. apply Hl.
      by apply (list_elem_of_fmap_2 ToolName).
  - intros workingDir ->. apply (getSkillBasePaths_order env workingDir).
Qed.

End DiscoveryTheorems.

Lemma skill_file_accepted_iff_valid_witness :
  let paths := getSkillBasePaths env0 "/work" in
  (exists skill, parseSkillMD env0 (projectBase +:+ "/baz/SKILL.md") = inr skill) /\
  parseWarning (projectBase +:+ "/bar/SKILL.md")
    (errorString "invalid SKILL.md format: missing frontmatter")
  ∈ stderr (discover env0 paths) /\
  map Name (fst (discoverSkills env0 paths)) = ["baz"; "foo"].
Proof.
  intros paths.
  destruct (skill_file_accepted_iff_valid env0) as (Hiff & Hrej & _).
  split; [|].
  - apply (Hiff (projectBase +:+ "/baz/SKILL.md")
             (skillFile bazFrontmatter "project baz") eq_refl).
    exists "", bazFrontmatter, (newline +:+ "project baz"), [],
      (frontmatterOf "baz" "Checks the baz of a project").
    split; [reflexivity|]. split; [reflexivity|].
    split; [discriminate|]. split; [reflexivity|]. split; [reflexivity|].
    simpl. lia.
  - destruct (Hrej paths
                (dirEntry globalBase "skills" :: skillDirEntries globalBase "foo"
                 ++ [dirEntry projectBase "skills"; dirEntry (projectBase +:+ "/bar") "bar"])
                (fileEntry (projectBase +:+ "/bar/SKILL.md") "SKILL.md")
                (skillDirEntries projectBase "baz" ++ skillDirEntries projectBase "foo")
                (errorString "invalid SKILL.md format: missing frontmatter")
                eq_refl eq_refl eq_refl) as [Hwarn Hskills].
    split; [exact Hwarn|]. rewrite Hskills. reflexivity.
Defined.

Lemma later_skill_replaces_earlier_witness :
  let paths := getSkillBasePaths env0 "/work" in
  let found := discover env0 paths in
  map (fun s => (ToolName s, Path s)) (allSkills found) =
    [("skills_baz", projectBase +:+ "/baz/SKILL.md");
     ("skills_foo", projectBase +:+ "/foo/SKILL.md")] /\
  duplicateWarning "skills_foo" (globalBase +:+ "/foo/SKILL.md")
    (projectBase +:+ "/foo/SKILL.md") ∈ stderr found /\
  exists kept, kept ∈ allSkills found /\ ToolName kept = "skills_foo" /\
               kept ∈ validSkills env0 (entriesOf env0 [projectBase]).
Proof.
  intros paths found.
  destruct (later_skill_replaces_earlier env0 paths) as (Hall & _ & _ & Hdup & Hcross & _).
  split; [|split].
  - change (allSkills found) with (fst (discoverSkills env0 paths)).
    rewrite Hall. reflexivity.
  - destruct (parseSkillMD env0 (projectBase +:+ "/foo/SKILL.md")) as [|local] eqn:Hlocal;
      [by vm_compute in Hlocal|].
    destruct (parseSkillMD env0 (globalBase +:+ "/foo/SKILL.md")) as [|global] eqn:Hglobal;
      [by vm_compute in Hglobal|].
    assert (ToolName local = "skills_foo" /\ Path local = projectBase +:+ "/foo/SKILL.md")
      as [Hn Hp].
    { vm_compute in Hlocal. by injection Hlocal as <-. }
    assert (Path global = globalBase +:+ "/foo/SKILL.md") as Hg.
    { vm_compute in Hglobal. by injection Hglobal as <-. }
    rewrite <- Hn, <- Hp, <- Hg.
    apply (Hdup (dirEntry globalBase "skills" :: skillDirEntries globalBase "foo"
                 ++ dirEntry projectBase "skills" :: skillDirEntries projectBase "bar"
                 ++ skillDirEntries projectBase "baz"
                 ++ [dirEntry (projectBase +:+ "/foo") "foo"])
             (fileEntry (projectBase +:+ "/foo/SKILL.md") "SKILL.md") [] local global).
    + reflexivity.
    + unfold validSkill. simpl isSkillFile. cbv iota.
      change (walk_path (fileEntry (projectBase +:+ "/foo/SKILL.md") "SKILL.md"))
        with (projectBase +:+ "/foo/SKILL.md"). by rewrite Hlocal.
    + rewrite Hn. vm_compute. vm_compute in Hglobal. by injection Hglobal as <-.
  - destruct (parseSkillMD env0 (projectBase +:+ "/foo/SKILL.md")) as [|local] eqn:Hlocal;
      [by vm_compute in Hlocal|].
    assert (ToolName local = "skills_foo") as Hn.
    { vm_compute in Hlocal. by injection Hlocal as <-. }
    rewrite <- Hn.
    apply (Hcross [globalBase; homeBase] [projectBase] local); [reflexivity|].
    vm_compute. vm_compute in Hlocal. injection Hlocal as <-.
    right. left.
Defined.

(** ** The registry: loading, unloading and shutting down *)
Import behaviour.

Section RegistryMore.
Context {World : Type}.
Implicit Types (m : Machine (World:=World)) (w : World) (r : Registry (World:=World))
  (p : Plugin (World:=World)).

Lemma appendHook_option_list {H} (pipeline : list H) (hook : option H) :
  appendHook pipeline hook = pipeline ++ option_list hook.
Proof. destruct hook; simpl; [done|by rewrite app_nil_r]. Qed.

(** X1.  A [LoadPlugin] that returns an error registers nothing: the
    plugin map and the six pipelines are as before and [Hooks()] is not
    called.  When the name is taken the plugin's [Init] is not called
    either, nothing at all changes and the error is "plugin N is already
    loaded"; otherwise [Init] ran and failed, and its error comes back
    wrapped in "failed to initialize plugin N: ". *)
Theorem failed_LoadPlugin_registers_nothing p pluginCtx m e :
  fst (LoadPlugin p pluginCtx m) = Some e ->
  let m' := snd (LoadPlugin p pluginCtx m) in
  registry m' = registry m /\
  config m' = config m /\
  hooksReturned (trace m') = hooksReturned (trace m) /\
  (is_Some (plugins (registry m) !! plugin.Name (Info p)) ->
   m' = m /\
   e = errorString ("plugin " +:+ plugin.Name (Info p) +:+ " is already loaded")) /\
  (plugins (registry m) !! plugin.Name (Info p) = None ->
   exists e0,
     fst (Init p pluginCtx (world m)) = Some e0 /\
     e = wrapError ("failed to initialize plugin " +:+ plugin.Name (Info p) +:+ ": ") e0 /\
     m' = stepped m (EvInit p pluginCtx) (snd (Init p pluginCtx (world m)))).
Proof.
  intros He. pose proof (LoadPlugin_cases p pluginCtx m) as Hc. cbv zeta in *.
  destruct (plugins (registry m) !! plugin.Name (Info p)) as [q|] eqn:Hq.
  - rewrite Hc in *. simpl in He. injection He as <-.
    split_and!; try done.
  - destruct (Init p pluginCtx (world m)) as [[e0|] w1] eqn:Hi; simpl in Hc;
      rewrite Hc in *; simpl in He; [|done].
    injection He as <-. simpl. split_and!; try done.
    + rewrite hooksReturned_snoc. simpl. by rewrite app_nil_r.
    + intros _. by exists e0.
Qed.

(** X2.  A [LoadPlugin] that returns nil found the name free, stored the
    plugin under its name, so that [GetPlugin] finds it and answers for
    every other name as before, called [Init] and then [Hooks()], and
    appended each non-nil getter value to the end of its pipeline. *)
Theorem successful_LoadPlugin_registers p pluginCtx m :
  fst (LoadPlugin p pluginCtx m) = None ->
  let m' := snd (LoadPlugin p pluginCtx m) in
  let name := plugin.Name (Info p) in
  plugins (registry m) !! name = None /\
  plugins (registry m') = <[name := p]> (plugins (registry m)) /\
  fst (GetPlugin name m') = Some p /\
  (forall other, other <> name ->
     fst (GetPlugin other m') = fst (GetPlugin other m)) /\
  extendedBy (registry m) (registry m') (GetHooks p (world m')) /\
  trace m' = trace m ++ [EvInit p pluginCtx; EvHooks p (GetHooks p (world m'))].
Proof.
  intros Hok. pose proof (LoadPlugin_cases p pluginCtx m) as Hc. cbv zeta in *.
  destruct (plugins (registry m) !! plugin.Name (Info p)) as [q|] eqn:Hq;
    [by rewrite Hc in Hok|].
  destruct (Init p pluginCtx (world m)) as [[e0|] w1] eqn:Hi; simpl in Hc;
    rewrite Hc in *; [done|]. simpl.
  split_and!; try done.
  - unfold GetPlugin, bind, getRegistry, ret. simpl. by rewrite lookup_insert_eq.
  - intros other Hne. unfold GetPlugin, bind, getRegistry, ret. simpl.
    by rewrite lookup_insert_ne.
  - unfold extendedBy. simpl. by rewrite !appendHook_option_list.
  - by rewrite <- app_assoc.
Qed.

Lemma LoadPlugin_pipelinesOf p pluginCtx m :
  pipelinesOf (registry m) (hooksReturned (trace m)) ->
  pipelinesOf (registry (snd (LoadPlugin p pluginCtx m)))
    (hooksReturned (trace (snd (LoadPlugin p pluginCtx m)))).
Proof.
  intros Hm. pose proof (LoadPlugin_cases p pluginCtx m) as Hc. cbv zeta in Hc.
  destruct (plugins (registry m) !! plugin.Name (Info p)); [by rewrite Hc|].
  destruct (Init p pluginCtx (world m)) as [[e|] w1]; simpl in Hc; rewrite Hc; simpl.
  - rewrite hooksReturned_snoc. simpl. by rewrite app_nil_r.
  - unfold pipelinesOf, hooksReturned in *. rewrite !omap_app. simpl.
    rewrite !app_nil_r, !appendHook_option_list.
    destruct Hm as (-> & -> & -> & -> & -> & ->).
    set (hooks := GetHooks p _).
    by destruct (Config_ hooks), (Session_ hooks), (Message_ hooks),
      (Permission_ hooks), (Tool_ hooks), (Agent_ hooks).
Qed.

(** X3.  After any sequence of [LoadPlugin] calls on a new registry each
    pipeline holds exactly the non-nil values its getter returned in the
    [Hooks()] calls, in the order the plugins were loaded: hooks run in
    load order. *)
Theorem pipelines_hold_hooks_in_load_order ps pluginCtx m :
  registry m = NewRegistry ->
  trace m = [] ->
  let m' := snd (loadAll ps pluginCtx m) in
  pipelinesOf (registry m') (hooksReturned (trace m')).
Proof.
  intros Hr Ht. cbv zeta.
  assert (pipelinesOf (registry m) (hooksReturned (trace m))) as Hm.
  { rewrite Hr, Ht. by repeat split. }
  clear Hr Ht. revert m Hm. induction ps as [|p ps IH]; intros m Hm; [done|].
  rewrite loadAll_cons. simpl. apply IH. by apply LoadPlugin_pipelinesOf.
Qed.

(** What [loadAll] leaves in the plugin map. *)
Lemma LoadPlugin_plugins p pluginCtx m :
  let out := LoadPlugin p pluginCtx m in
  plugins (registry (snd out)) =
  match fst out with
  | None => <[plugin.Name (Info p) := p]> (plugins (registry m))
  | Some _ => plugins (registry m)
  end /\
  (fst out = None -> plugins (registry m) !! plugin.Name (Info p) = None).
Proof.
  pose proof (LoadPlugin_cases p pluginCtx m) as Hc. cbv zeta in *.
  destruct (plugins (registry m) !! plugin.Name (Info p)); [by rewrite Hc|].
  destruct (Init p pluginCtx (world m)) as [[e|] w1]; simpl in Hc; by rewrite Hc.
Qed.

Lemma loadAll_length ps pluginCtx m :
  length (fst (loadAll ps pluginCtx m)) = length ps.
Proof.
  revert m. induction ps as [|p ps IH]; intros m; [done|].
  rewrite loadAll_cons. simpl. by rewrite IH.
Qed.

Lemma loadAll_plugins ps pluginCtx m :
  keysMatch (registry m) ->
  let out := loadAll ps pluginCtx m in
  let loaded := loadedOf ps (fst out) in
  keysMatch (registry (snd out)) /\
  map_to_list (plugins (registry (snd out))) ≡ₚ
    map (fun p => (plugin.Name (Info p), p)) loaded ++ map_to_list (plugins (registry m)) /\
  (forall name p, plugins (registry m) !! name = Some p ->
     plugins (registry (snd out)) !! name = Some p).
Proof.
  revert m. induction ps as [|p ps IH]; intros m Hk; [done|].
  cbv zeta. rewrite loadAll_cons. cbv zeta. cbn [fst snd].
  destruct (LoadPlugin_plugins p pluginCtx m) as [Hpl Hfree]. cbv zeta in Hpl, Hfree.
  set (m1 := snd (LoadPlugin p pluginCtx m)) in *.
  assert (keysMatch (registry m1)) as Hk1.
  { intros name q. rewrite Hpl. destruct (fst (LoadPlugin p pluginCtx m)); [apply Hk|].
    intros [[<- <-]|[_ Hq]]%lookup_insert_Some; [done|by apply Hk]. }
  destruct (IH m1 Hk1) as (Hk2 & Hperm & Hkeep). cbv zeta in Hperm, Hkeep.
  split; [exact Hk2|].
  destruct (fst (LoadPlugin p pluginCtx m)) as [e|] eqn:Hres; cbn [loadedOf].
  - rewrite Hpl in *. done.
  - specialize (Hfree eq_refl). split.
    + rewrite Hperm, Hpl. rewrite map_to_list_insert by done. cbn [map].
      symmetry. apply Permutation_middle.
    + intros name q Hq. apply Hkeep. rewrite Hpl.
      rewrite lookup_insert_ne; [done|]. intros <-. congruence.
Qed.

(** X4.  After any sequence of [LoadPlugin] calls on a new registry,
    [ListPlugins] returns, in the order of the map iteration, the [Info]
    of exactly the plugins whose load returned nil: one entry per
    successful load, with pairwise distinct names, and [GetPlugin] finds
    each of them under its name. *)
Theorem ListPlugins_lists_loaded (range : RangeOrder) ps pluginCtx m :
  registry m = NewRegistry ->
  let out := loadAll ps pluginCtx m in
  let loaded := loadedOf ps (fst out) in
  range (plugins (registry (snd out))) ≡ₚ map_to_list (plugins (registry (snd out))) ->
  let infos := fst (ListPlugins range (snd out)) in
  infos ≡ₚ map Info loaded /\
  length infos = countIf (fun err => negb (nonNil err)) (fst out) /\
  NoDup (map plugin.Name infos) /\
  (forall p, p ∈ loaded -> fst (GetPlugin (plugin.Name (Info p)) (snd out)) = Some p).
Proof.
  intros Hr out loaded Hrange infos.
  assert (keysMatch (registry m)) as Hk by (rewrite Hr; intros ? ?; done).
  destruct (loadAll_plugins ps pluginCtx m Hk) as (Hk2 & Hperm & _).
  cbv zeta in Hperm. fold out in Hk2, Hperm. fold loaded in Hperm.
  rewrite Hr in Hperm. change (plugins NewRegistry) with (∅ : gmap string (Plugin (World:=World))) in Hperm.
  rewrite map_to_list_empty, app_nil_r in Hperm.
  assert (infos ≡ₚ map Info loaded) as Hinfos.
  { unfold infos, ListPlugins, bind, getRegistry, ret. cbn [fst snd].
    rewrite Hrange, Hperm. rewrite map_map. done. }
  split_and!.
  - exact Hinfos.
  - rewrite Hinfos, length_map. unfold loaded.
    pose proof (loadAll_length ps pluginCtx m) as Hlen. fold out in Hlen.
    clear -Hlen. revert Hlen. generalize (fst out). clear.
    induction ps as [|p ps IH]; intros [|[e|] errs] Hlen; simpl in *; try done.
    + apply IH. lia.
    + f_equal. apply IH. lia.
  - rewrite Hinfos, map_map.
    pose proof (NoDup_fst_map_to_list (plugins (registry (snd out)))) as Hnd.
    rewrite Hperm, map_map in Hnd. exact Hnd.
  - intros p Hp. unfold GetPlugin, bind, getRegistry, ret. cbn [fst snd].
    apply elem_of_map_to_list. rewrite Hperm.
    by apply (list_elem_of_fmap_2 (fun p => (plugin.Name (Info p), p))).
Qed.

End RegistryMore.

Section RegistryUnload.
Context {World : Type}.
Implicit Types (m : Machine (World:=World)) (w : World) (r : Registry (World:=World))
  (p : Plugin (World:=World)).

(** X5.  [UnloadPlugin] never touches a pipeline.  For a name that is
    not in the map it calls nothing, changes nothing and returns "plugin
    N is not loaded"; otherwise it calls the plugin's [Shutdown] once: on
    an error the plugin stays loaded and the error comes back wrapped in
    "failed to shutdown plugin N: ", on nil the name is removed from the
    map, so that [GetPlugin] no longer finds it, while the hooks the
    plugin registered stay where they are. *)
Theorem UnloadPlugin_outcomes name m :
  let out := UnloadPlugin name m in
  samePipelines (registry (snd out)) (registry m) /\
  (plugins (registry m) !! name = None ->
     out = (Some (errorString ("plugin " +:+ name +:+ " is not loaded")), m)) /\
  (forall p, plugins (registry m) !! name = Some p ->
     let res := PluginShutdown p (world m) in
     world (snd out) = snd res /\
     trace (snd out) = trace m ++ [EvShutdown name p] /\
     match fst res with
     | Some e =>
         fst out = Some (wrapError ("failed to shutdown plugin " +:+ name +:+ ": ") e) /\
         registry (snd out) = registry m
     | None =>
         fst out = None /\
         plugins (registry (snd out)) = delete name (plugins (registry m)) /\
         fst (GetPlugin name (snd out)) = None /\
         (forall other, other <> name ->
            fst (GetPlugin other (snd out)) = fst (GetPlugin other m))
     end).
Proof.
  cbv zeta. unfold UnloadPlugin, bind, getRegistry.
  destruct (plugins (registry m) !! name) as [p|] eqn:Hp.
  - unfold emit, onWorld, ret, putRegistry. simpl.
    destruct (PluginShutdown p (world m)) as [[e|] w1] eqn:Hs; simpl.
    + split; [done|]. split; [done|]. intros q [= <-]. rewrite Hs. done.
    + split; [done|]. split; [done|]. intros q [= <-]. rewrite Hs. simpl.
      split_and!; try done.
      * unfold GetPlugin, bind, getRegistry, ret. simpl. apply lookup_delete_eq.
      * intros other Hne. unfold GetPlugin, bind, getRegistry, ret. simpl.
        by apply lookup_delete_ne.
  - simpl. split; [done|]. split; [done|]. done.
Qed.

(** X6.  Loading a plugin, unloading it and loading it again leaves its
    hooks in the pipelines twice: the unload removes nothing from a
    pipeline, and the second load appends what the second [Hooks()] call
    returns after what the first one returned. *)
Theorem reload_registers_hooks_twice p pluginCtx m :
  let name := plugin.Name (Info p) in
  let m1 := snd (LoadPlugin p pluginCtx m) in
  let m2 := snd (UnloadPlugin name m1) in
  let m3 := snd (LoadPlugin p pluginCtx m2) in
  fst (LoadPlugin p pluginCtx m) = None ->
  fst (UnloadPlugin name m1) = None ->
  fst (LoadPlugin p pluginCtx m2) = None ->
  exists first second,
    hooksReturned (trace m3) = hooksReturned (trace m) ++ [first; second] /\
    extendedBy (registry m) (registry m2) first /\
    extendedBy (registry m2) (registry m3) second /\
    fst (GetPlugin name m2) = None /\
    fst (GetPlugin name m3) = Some p.
Proof.
  intros name m1 m2 m3 H1 H2 H3.
  pose proof (LoadPlugin_cases p pluginCtx m) as Hc1. cbv zeta in Hc1. fold name in Hc1.
  destruct (plugins (registry m) !! name) as [q|] eqn:Hq;
    [by rewrite Hc1 in H1|].
  destruct (Init p pluginCtx (world m)) as [[e0|] w1] eqn:Hi; simpl in Hc1;
    [by rewrite Hc1 in H1|].
  assert (plugins (registry m1) !! name = Some p) as Hin.
  { unfold m1. rewrite Hc1. simpl. apply lookup_insert_eq. }
  assert (m2 = snd (UnloadPlugin name m1)) as Hm2 by reflexivity.
  unfold UnloadPlugin, bind, getRegistry in Hm2, H2. rewrite Hin in Hm2, H2.
  unfold emit, onWorld, ret, putRegistry in Hm2, H2. simpl in Hm2, H2.
  destruct (PluginShutdown p (world m1)) as [[e|] w2] eqn:Hs; [done|].
  simpl in Hm2. clear H2.
  pose proof (LoadPlugin_cases p pluginCtx m2) as Hc3. cbv zeta in Hc3. fold name in Hc3.
  fold m3 in Hc3.
  assert (plugins (registry m2) !! name = None) as Hout.
  { rewrite Hm2. simpl. apply lookup_delete_eq. }
  rewrite Hout in Hc3.
  destruct (Init p pluginCtx (world m2)) as [[e0|] w3] eqn:Hi3; simpl in Hc3;
    [by rewrite Hc3 in H3|].
  exists (GetHooks p w1), (GetHooks p w3).
  assert (trace m2 = (trace m ++ [EvInit p pluginCtx]) ++ [EvHooks p (GetHooks p w1)]
                       ++ [EvShutdown name p]) as Ht2.
  { rewrite Hm2. unfold m1. rewrite Hc1. simpl. by rewrite <- !app_assoc. }
  split_and!.
  - unfold m3. rewrite Hc3. simpl. rewrite Ht2.
    unfold hooksReturned. rewrite !omap_app. simpl. by rewrite <- !app_assoc.
  - rewrite Hm2. unfold m1. rewrite Hc1. unfold extendedBy. simpl.
    by rewrite !appendHook_option_list.
  - unfold m3. rewrite Hc3. unfold extendedBy. simpl.
    by rewrite !appendHook_option_list.
  - unfold GetPlugin, bind, getRegistry, ret. simpl. exact Hout.
  - unfold GetPlugin, bind, getRegistry, ret. simpl. unfold m3. rewrite Hc3. simpl.
    apply lookup_insert_eq.
Qed.

Lemma shutdownRange_run (entries : list (string * Plugin (World:=World))) errors m :
  shutdownRange entries errors m =
  (errors ++ omap shutdownFailure (shutdownRun entries (world m)),
   addTrace (setWorld m (worldAfterShutdown entries (world m)))
     (map shutdownCall entries)).
Proof.
  revert errors m. induction entries as [|[name p] entries IH]; intros errors m.
  - simpl. unfold ret, addTrace, setWorld. destruct m; simpl. by rewrite !app_nil_r.
  - simpl. unfold bind, emit, onWorld. simpl.
    destruct (PluginShutdown p (world m)) as [[e|] w1]; rewrite IH;
      unfold addTrace, setWorld, shutdownFailure; simpl;
      by rewrite <- !app_assoc.
Qed.

(** X7.  [Shutdown] calls [Shutdown] on every plugin even after some of
    them failed, each on the state its predecessor left.  It returns nil
    exactly when none of them returned an error; otherwise its error
    counts the failures and lists them in the order of the calls, each
    as "plugin N: " followed by the plugin's error. *)
Theorem Shutdown_reports_every_failure (range : RangeOrder) m :
  let entries := range (plugins (registry m)) in
  let run := shutdownRun entries (world m) in
  let errors := omap shutdownFailure run in
  let out := Shutdown range m in
  map fst run = map fst entries /\
  world (snd out) = worldAfterShutdown entries (world m) /\
  length errors = countIf (fun c => nonNil (snd c)) run /\
  (fst out = None <-> Forall (fun c => snd c = None) run) /\
  (errors <> [] ->
     fst out = Some (errorString
                 ("failed to shutdown " +:+ itoa (length errors)
                  +:+ " plugin(s): [" +:+ gostrings.Join (map Error errors) " "
                  +:+ "]"))).
Proof.
  intros entries run errors out.
  assert (out = Shutdown range m) as Hout by reflexivity. clearbody out.
  unfold Shutdown, bind, getRegistry in Hout. fold entries in Hout.
  rewrite shutdownRange_run in Hout. cbn [app] in Hout. fold run in Hout.
  fold errors in Hout.
  assert (length errors = countIf (fun c => nonNil (snd c)) run) as Hcount.
  { unfold errors. clear. induction run as [|[name [e|]] run IH];
      cbn [omap list_omap shutdownFailure snd fmap option_fmap option_map countIf nonNil length] in *; lia. }
  assert (errors = [] <-> Forall (fun c => snd c = None) run) as Hnil.
  { unfold errors. clear. induction run as [|[name [e|]] run IH]; simpl.
    - done.
    - split; [done|]. by intros [? _]%Forall_cons.
    - rewrite Forall_cons. simpl. tauto. }
  split_and!.
  - unfold run. clear. generalize (world m). induction entries as [|[name p] entries IH];
      intros w; simpl; [done|]. by rewrite IH.
  - rewrite Hout. by destruct errors.
  - exact Hcount.
  - rewrite <- Hnil, Hout. by destruct errors.
  - intros Hne. rewrite Hout. by destruct errors.
Qed.

Lemma setWorld_same m : setWorld m (world m) = m.
Proof. by destruct m. Qed.

Lemma runNotifyHooks_run {H : Type} (call : H -> World -> option error * World)
    failure hooks m :
  let run := notifyRun call hooks (world m) in
  let out := runNotifyHooks call failure hooks m in
  length run = length hooks /\
  (Forall (fun c => fst c = None) run ->
     out = (None, setWorld m (lastWorld (world m) run))) /\
  (forall i e w, run !! i = Some (Some e, w) ->
     Forall (fun c => fst c = None) (take i run) ->
     out = (Some (wrapError failure e), setWorld m w)).
Proof.
  revert m. induction hooks as [|h hooks IH]; intros m; cbv zeta.
  - simpl. split; [done|]. split; [|done]. intros _. unfold ret, lastWorld. simpl.
    by rewrite setWorld_same.
  - cbn [notifyRun runNotifyHooks]. unfold bind, onWorld.
    destruct (call h (world m)) as [[e|] w1] eqn:Hh; cbn [fst snd].
    + split; [simpl; f_equal; apply (IH (setWorld m w1))|].
      split; [by intros [? _]%Forall_cons|].
      intros [|i] e' w'; simpl.
      * by intros [= <- <-] _.
      * by intros _ [? _]%Forall_cons.
    + specialize (IH (setWorld m w1)). cbv zeta in IH. simpl in IH.
      destruct IH as (Hlen & Hnone & Hsome).
      split; [simpl; by f_equal|]. split.
      * intros [_ Hall]%Forall_cons. unfold setWorld in *. simpl in *.
        by rewrite Hnone.
      * intros [|i] e' w'; simpl; [done|].
        intros Hi [_ Hall]%Forall_cons. unfold setWorld in *. simpl in *.
        by rewrite (Hsome i e' w').
Qed.

(** X8.  Each of the eight session, message and agent triggers calls the
    hooks of its pipeline in order, each on the state its predecessor
    left.  When no hook returns an error the trigger returns nil after
    calling all of them; at the first error it stops, the hooks after it
    are not called, and the error comes back wrapped in the trigger's own
    text.  The registry, the configuration and the logs are as before. *)
Theorem notification_stops_at_first_error (n : Notification) m :
  let run := notified n (registry m) (world m) in
  let out := trigger n m in
  (Forall (fun c => fst c = None) run ->
     out = (None, setWorld m (lastWorld (world m) run))) /\
  (forall i e w, run !! i = Some (Some e, w) ->
     Forall (fun c => fst c = None) (take i run) ->
     out = (Some (wrapError (failurePrefix n) e), setWorld m w)).
Proof.
  destruct n; cbv zeta; unfold trigger, notified, failurePrefix;
    unfold TriggerSessionCreated, TriggerSessionUpdated, TriggerSessionDeleted,
      TriggerMessageCreated, TriggerMessageUpdated, TriggerAgentStart,
      TriggerAgentStep, TriggerAgentFinish, bind, getRegistry;
    match goal with |- context [runNotifyHooks ?call ?failure ?hooks m] =>
      destruct (runNotifyHooks_run call failure hooks m) as (_ & H1 & H2) end;
    split; assumption.
Qed.

End RegistryUnload.

(** ** Pipelines of no-op hooks, and the config pipeline *)
Section BaseHooks.
Context {World : Type}.
Implicit Types (m : Machine (World:=World)) (w : World) (r : Registry (World:=World))
  (p : Plugin (World:=World)).

Lemma runNotifyHooks_neutral {H : Type} (call : H -> World -> option error * World)
    failure hooks m :
  Forall (fun h => forall w, call h w = (None, w)) hooks ->
  runNotifyHooks call failure hooks m = (None, m).
Proof.
  induction 1 as [|h hooks Hh _ IH]; [done|].
  simpl. unfold bind, onWorld. rewrite Hh. destruct m. exact IH.
Qed.

Lemma LoadPlugin_hooksReturned (P : Hooks (World:=World) -> Prop) p pluginCtx m :
  (forall w, P (GetHooks p w)) ->
  Forall P (hooksReturned (trace m)) ->
  Forall P (hooksReturned (trace (snd (LoadPlugin p pluginCtx m)))).
Proof.
  intros Hp Hm. pose proof (LoadPlugin_cases p pluginCtx m) as Hc. cbv zeta in Hc.
  destruct (plugins (registry m) !! plugin.Name (Info p)); [by rewrite Hc|].
  destruct (Init p pluginCtx (world m)) as [[e|] w1]; simpl in Hc; rewrite Hc; simpl;
    rewrite !hooksReturned_snoc; simpl; rewrite ?app_nil_r; [done|].
  apply Forall_app. split; [done|]. by apply Forall_singleton.
Qed.

Lemma loadAll_hooksReturned (P : Hooks (World:=World) -> Prop) ps pluginCtx m :
  Forall (fun p => forall w, P (GetHooks p w)) ps ->
  Forall P (hooksReturned (trace m)) ->
  Forall P (hooksReturned (trace (snd (loadAll ps pluginCtx m)))).
Proof.
  intros Hps. revert m. induction Hps as [|p ps Hp _ IH]; intros m Hm; [done|].
  rewrite loadAll_cons. simpl. apply IH. by apply LoadPlugin_hooksReturned.
Qed.

Lemma omap_base {H : Type} (get : Hooks (World:=World) -> option H) (nil : H) loaded :
  Forall (fun hooks => get hooks = Some nil) loaded ->
  Forall (fun h => h = nil) (omap get loaded).
Proof.
  induction 1 as [|hooks loaded Hh _ IH]; [done|]. simpl. rewrite Hh.
  by apply Forall_cons.
Qed.

(** X9.  Plugins whose [Hooks()] is [NewBaseHooks()] change no outcome:
    after loading any number of them into a new registry every pipeline
    holds only the contract's no-op hooks, so that a permission request
    gets no decision, the tool pipelines return the caller's arguments
    and result, the config pipeline leaves the configuration as it is,
    every notification returns nil, and none of these calls changes the
    extensions' state. *)
Theorem base_hooks_change_no_outcome ps pluginCtx m0 :
  registry m0 = NewRegistry ->
  trace m0 = [] ->
  Forall (fun p => forall w, GetHooks p w = NewBaseHooks) ps ->
  let m := snd (loadAll ps pluginCtx m0) in
  onlyBaseHooks (registry m) /\
  (forall req,
     let out := TriggerPermissionRequest req m in
     fst out = (None, None) /\ world (snd out) = world m) /\
  (forall input,
     let out := TriggerToolExecuteBefore input m in
     fst out = (Arguments input, None) /\ world (snd out) = world m) /\
  (forall input result,
     let out := TriggerToolExecuteAfter input result m in
     fst out = (result, None) /\ world (snd out) = world m) /\
  (let out := TriggerConfigHooks m in
   fst out = None /\ config (snd out) = config m /\ world (snd out) = world m) /\
  (forall n, trigger n m = (None, m)).
Proof.
  intros Hr Ht Hps m.
  assert (onlyBaseHooks (registry m)) as Hbase.
  { assert (pipelinesOf (registry m) (hooksReturned (trace m))) as Hpipes.
    { assert (pipelinesOf (registry m0) (hooksReturned (trace m0))) as Hm0.
      { rewrite Hr, Ht. by repeat split. }
      unfold m. clear -Hm0. revert m0 Hm0.
      induction ps as [|p ps IH]; intros m0 Hm0; [done|].
      rewrite loadAll_cons. simpl. apply IH. by apply LoadPlugin_pipelinesOf. }
    assert (Forall (fun hooks => hooks = NewBaseHooks) (hooksReturned (trace m))) as Hall.
    { apply loadAll_hooksReturned; [exact Hps|]. by rewrite Ht. }
    unfold onlyBaseHooks.
    destruct Hpipes as (-> & -> & -> & -> & -> & ->).
    split_and!; apply omap_base; eapply Forall_impl; try exact Hall;
      by intros hooks ->. }
  split; [exact Hbase|].
  destruct Hbase as (Hc & Hs & Hm & Hp & Ht' & Ha).
  clearbody m. split_and!.
  - intros req. cbv zeta. unfold TriggerPermissionRequest, bind, getRegistry.
    clear -Hp. revert Hp. generalize (permHooks (registry m)). intros hooks Hall.
    revert m. induction Hall as [|h hooks -> _ IH]; intros m; [done|].
    rewrite runPermissionHooks_cons. simpl. apply (IH (stepped _ _ _)).
  - intros input. cbv zeta. unfold TriggerToolExecuteBefore, bind, getRegistry.
    clear -Ht'. revert Ht'. generalize (toolHooks (registry m)), (Arguments input).
    intros hooks args Hall.
    revert m. induction Hall as [|h hooks -> _ IH]; intros m; [done|].
    rewrite runToolBeforeHooks_cons. simpl. apply (IH (stepped _ _ _)).
  - intros input result. cbv zeta. unfold TriggerToolExecuteAfter, bind, getRegistry.
    clear -Ht'. revert Ht'. generalize (toolHooks (registry m)). intros hooks Hall.
    revert m. induction Hall as [|h hooks -> _ IH]; intros m; [done|].
    rewrite runToolAfterHooks_cons. simpl. apply (IH (stepped _ _ _)).
  - cbv zeta. unfold TriggerConfigHooks, bind, getRegistry.
    clear -Hc. revert Hc. generalize (configHooks (registry m)). intros hooks Hall.
    revert m. induction Hall as [|h hooks -> _ IH]; intros m; [done|].
    rewrite runConfigHooks_cons. simpl.
    match goal with |- context [runConfigHooks hooks ?m1] => apply (IH m1) end.
  - intros n. destruct n; unfold trigger;
      unfold TriggerSessionCreated, TriggerSessionUpdated, TriggerSessionDeleted,
        TriggerMessageCreated, TriggerMessageUpdated, TriggerAgentStart,
        TriggerAgentStep, TriggerAgentFinish, bind, getRegistry;
      apply runNotifyHooks_neutral;
      (eapply Forall_impl; [eassumption|]); by intros h ->.
Qed.

Lemma runConfigHooks_run (hooks : list (ConfigHook (World:=World))) m :
  Forall (fun c => snd c = None) (configRun hooks (config m) (world m)) ->
  let out := runConfigHooks hooks m in
  fst out = None /\
  registry (snd out) = registry m /\
  logs (snd out) = logs m /\
  (config (snd out), world (snd out)) = configAfter hooks (config m) (world m) /\
  trace (snd out) = trace m ++ map configCall (configRun hooks (config m) (world m)).
Proof.
  revert m. induction hooks as [|h hooks IH]; intros m Hall.
  - simpl. by rewrite app_nil_r.
  - cbv zeta. rewrite runConfigHooks_cons. cbn [configRun configAfter] in *.
    destruct (OnConfigLoad h (config m) (world m)) as [[err cfg1] w1] eqn:Hh.
    apply Forall_cons in Hall as [Herr Hall]. cbn [snd] in Herr. subst err.
    cbv zeta. cbn [fst snd].
    match goal with |- context [runConfigHooks hooks ?m1] =>
      specialize (IH m1 Hall) end.
    cbv zeta in IH. destruct IH as (-> & -> & -> & -> & ->).
    split_and!; try done. cbn [map]. unfold configCall at 2. simpl.
    by rewrite <- app_assoc.
Qed.

(** X10.  When no config hook returns an error, [TriggerConfigHooks]
    returns nil after calling every hook of the pipeline in order, each
    with the configuration object as its predecessors left it: what one
    hook changes in the configuration the next hook sees, and the caller
    afterwards. *)
Theorem config_hooks_thread_configuration m :
  let hooks := configHooks (registry m) in
  let run := configRun hooks (config m) (world m) in
  Forall (fun c => snd c = None) run ->
  let out := TriggerConfigHooks m in
  fst out = None /\
  map (fun c => fst (fst c)) run = hooks /\
  trace (snd out) = trace m ++ map configCall run /\
  (config (snd out), world (snd out)) = configAfter hooks (config m) (world m) /\
  (forall i c, run !! i = Some c ->
     snd (fst c) = fst (configAfter (take i hooks) (config m) (world m))).
Proof.
  intros hooks run Hall out.
  destruct (runConfigHooks_run hooks m Hall) as (Hres & _ & _ & Hafter & Htrace).
  cbv zeta in *. fold run in Htrace.
  split_and!; try done.
  - unfold run. clear. generalize (config m), (world m).
    induction hooks as [|h hooks IH]; intros cfg w; [done|]. cbn [configRun].
    destruct (OnConfigLoad h cfg w) as [[err cfg1] w1]. simpl. by rewrite IH.
  - unfold run. clear. generalize (config m), (world m).
    induction hooks as [|h hooks IH]; intros cfg w i c Hi; [done|].
    cbn [configRun] in Hi.
    destruct (OnConfigLoad h cfg w) as [[err cfg1] w1] eqn:Hh.
    destruct i as [|i]; [by injection Hi as <-|].
    cbn [take configAfter]. rewrite Hh. by apply IH.
Qed.

End BaseHooks.

(** ** The loader *)
Section LoaderMore.
Context {World : Type}.
Implicit Types (m : Machine (World:=World)) (w : World) (r : Registry (World:=World))
  (p : Plugin (World:=World)) (host : Host (World:=World)).

Lemma Join_snoc (es : list string) (e : string) :
  exists pre, gostrings.Join (es ++ [e]) "/" = pre +:+ e.
Proof.
  induction es as [|x es [pre IH]]; [by exists ""|].
  destruct es as [|y es].
  - exists (x +:+ "/"). simpl. by rewrite str_app_assoc.
  - exists (x +:+ "/" +:+ pre). change ((x :: y :: es) ++ [e]) with (x :: y :: (es ++ [e])).
    rewrite Join_cons. change ((y :: es) ++ [e]) with (y :: (es ++ [e])) in IH.
    rewrite IH. rewrite !str_app_assoc. reflexivity.
Qed.

Lemma sliceFrom_app_ge (n : nat) (s t : string) :
  gostrings.sliceFrom (String.length s + n) (s +:+ t) = gostrings.sliceFrom n t.
Proof. induction s as [|c s IH]; [done|]. simpl. exact IH. Qed.

Lemma HasSuffix_app (pre s sfx : string) :
  gostrings.HasSuffix s sfx = true -> gostrings.HasSuffix (pre +:+ s) sfx = true.
Proof.
  unfold gostrings.HasSuffix. intros [Hlen Heq]%andb_true_iff.
  apply Nat.leb_le in Hlen. rewrite str_length_app. apply andb_true_iff. split.
  - apply Nat.leb_le. lia.
  - replace (String.length pre + String.length s - String.length sfx)
      with (String.length pre + (String.length s - String.length sfx)) by lia.
    by rewrite sliceFrom_app_ge.
Qed.

(** [Clean] keeps a last element that is a proper name. *)
Lemma Clean_last (path name : string) (es : list string) :
  filepath.elements path = es ++ [name] ->
  keptElement name = true -> name <> ".." ->
  exists pre, filepath.Clean path = pre +:+ name.
Proof.
  intros Hel Hkept Hdots. unfold filepath.Clean.
  apply keptElement_spec in Hkept as (Hne & Hdot & _).
  destruct (String.eqb path "") eqn:Hpath.
  { apply String.eqb_eq in Hpath as ->. destruct es as [|? [|? ?]]; simplify_eq/=. }
  rewrite Hel, fold_left_app. cbn [fold_left].
  set (out := fold_left _ es []).
  unfold filepath.cleanStep.
  apply String.eqb_neq in Hne, Hdot, Hdots. rewrite Hne, Hdot, Hdots.
  destruct (Join_snoc (rev out) name) as [pre Hpre]. cbn [rev]. rewrite Hpre.
  destruct (gostrings.HasPrefix path "/").
  - exists ("/" +:+ pre). by rewrite str_app_assoc.
  - by exists pre.
Qed.

Lemma dirEntry_kept (name : string) :
  slashFree name = true -> gostrings.HasSuffix name ".so" = true ->
  keptElement name = true /\ name <> "..".
Proof.
  intros Hsf Hso. destruct (HasSuffix_inv _ _ Hso) as [s0 ->].
  split.
  - apply keptElement_spec. split_and!; try done.
    + intros [_ ?]%str_app_eq_nil. done.
    + by destruct s0 as [|c [|c' [|c'' s0]]].
  - by destruct s0 as [|c [|c' [|c'' s0]]].
Qed.

Lemma Join_dir_entry (dir name : string) :
  slashFree name = true -> gostrings.HasSuffix name ".so" = true ->
  gostrings.HasSuffix (filepath.Join [dir; name]) ".so" = true.
Proof.
  intros Hsf Hso. destruct (dirEntry_kept name Hsf Hso) as [Hkept Hdots].
  assert (name <> "") as Hne by (by apply keptElement_spec in Hkept as (? & _)).
  cbn [filepath.Join]. destruct (String.eqb dir "") eqn:Hdir.
  - apply String.eqb_neq in Hne. rewrite Hne. cbn [gostrings.Join].
    destruct (Clean_last name name [] (elements_slashFree_eq name Hsf) Hkept Hdots)
      as [pre ->].
    by apply HasSuffix_app.
  - rewrite Join_cons. cbn [gostrings.Join].
    destruct (Clean_last (dir +:+ String "/" name) name (filepath.elements dir))
      as [pre ->]; try done.
    + by rewrite elements_app_slash, (elements_slashFree_eq name Hsf).
    + by apply HasSuffix_app.
Qed.

Lemma firstSharedObject_spec dir (entries : list DirEntry) :
  match firstSharedObject dir entries with
  | Some path =>
      exists pre entry post,
        entries = pre ++ entry :: post /\
        Forall (fun x => isSharedObject x = false) pre /\
        isSharedObject entry = true /\
        path = filepath.Join [dir; entry_Name entry]
  | None => Forall (fun x => isSharedObject x = false) entries
  end.
Proof.
  induction entries as [|entry entries IH]; [by constructor|]. cbn [firstSharedObject].
  fold (isSharedObject entry). destruct (isSharedObject entry) eqn:Hentry.
  - by exists [], entry, entries.
  - destruct (firstSharedObject dir entries) as [path|].
    + destruct IH as (pre & x & post & -> & Hpre & Hx & ->).
      exists (entry :: pre), x, post. split_and!; try done. by apply Forall_cons.
    + by apply Forall_cons.
Qed.

(** X11.  For a path that is a directory [LoadFromPath] goes through the
    listing in its order, passes over sub-directories and names that do
    not end in [.so], and loads the first other entry as the artifact
    [dir/name]; this path always passes the [.so] check, so that the
    outcome is that of [loadGoPlugin] on it.  With no such entry it
    fails with "no .so file found in directory: " and the directory, and
    the machine is as before. *)
Theorem LoadFromPath_directory host path absPath entries pluginCtx m :
  Abs host path = inr absPath ->
  Stat host absPath = inr true ->
  ReadDir host absPath = inr entries ->
  Forall (fun entry => slashFree (entry_Name entry) = true) entries ->
  let out := LoadFromPath host path pluginCtx m in
  (Forall (fun entry => isSharedObject entry = false) entries ->
     out = (Some (errorString ("no .so file found in directory: " +:+ absPath)), m)) /\
  (forall pre entry post,
     entries = pre ++ entry :: post ->
     Forall (fun x => isSharedObject x = false) pre ->
     isSharedObject entry = true ->
     out = loadGoPlugin host (filepath.Join [absPath; entry_Name entry]) pluginCtx m).
Proof.
  intros Habs Hstat Hread Hnames out.
  assert (out = LoadFromPath host path pluginCtx m) as Hout by reflexivity.
  clearbody out. unfold LoadFromPath in Hout. rewrite Habs, Hstat in Hout.
  unfold findPluginInDir in Hout. rewrite Hread in Hout.
  pose proof (firstSharedObject_spec absPath entries) as Hfirst.
  destruct (firstSharedObject absPath entries) as [found|].
  - destruct Hfirst as (pre & entry & post & -> & Hpre & Hentry & ->).
    assert (gostrings.HasSuffix (filepath.Join [absPath; entry_Name entry]) ".so" = true)
      as Hso.
    { apply Forall_app in Hnames as [_ [Hsf _]%Forall_cons].
      apply Join_dir_entry; [done|].
      unfold isSharedObject in Hentry. by apply andb_true_iff in Hentry as [_ ?]. }
    rewrite Hso in Hout. simpl in Hout. split.
    + intros [_ [Hno _]%Forall_cons]%Forall_app. congruence.
    + intros pre' entry' post' Heq Hpre' Hentry'.
      assert (pre = pre' /\ entry = entry') as [<- <-]; [|done].
      clear -Heq Hpre Hentry Hpre' Hentry'.
      revert pre' Heq Hpre'. induction Hpre as [|x pre Hx _ IH]; intros pre' Heq Hpre'.
      * destruct Hpre' as [|y pre' Hy _]; [by simplify_eq/=|].
        simplify_eq/=. congruence.
      * destruct Hpre' as [|y pre' Hy Hpre']; simplify_eq/=; [congruence|].
        destruct (IH pre') as [-> ->]; done.
  - split; [done|].
    intros pre entry post -> _ Hentry.
    apply Forall_app in Hfirst as [_ [Hno _]%Forall_cons]. congruence.
Qed.

Lemma loadGoPlugin_cases host path pluginCtx m :
  let out := loadGoPlugin host path pluginCtx m in
  (is_Some (fst out) /\ snd out = m) \/
  (exists artifact p,
     Open host path = inr artifact /\ artifact !! "Plugin" = Some (SymPlugin p) /\
     fst out = wrapError "failed to load plugin: " <$> fst (LoadPlugin p pluginCtx m) /\
     snd out = snd (LoadPlugin p pluginCtx m)).
Proof.
  cbv zeta. unfold loadGoPlugin, Lookup.
  destruct (Open host path) as [err|artifact]; [left; by split|].
  destruct (artifact !! "Plugin") as [[p|]|] eqn:Hsym; [|left; by split..].
  right. exists artifact, p. split; [done|]. split; [done|].
  unfold bind. by destruct (LoadPlugin p pluginCtx m) as [[e|] m1].
Qed.

Lemma LoadFromPath_cases host path pluginCtx m :
  let out := LoadFromPath host path pluginCtx m in
  (is_Some (fst out) /\ snd out = m) \/
  (exists pluginPath artifact p,
     gostrings.HasSuffix pluginPath ".so" = true /\
     Open host pluginPath = inr artifact /\ artifact !! "Plugin" = Some (SymPlugin p) /\
     fst out = wrapError "failed to load plugin: " <$> fst (LoadPlugin p pluginCtx m) /\
     snd out = snd (LoadPlugin p pluginCtx m)).
Proof.
  cbv zeta. unfold LoadFromPath.
  destruct (Abs host path) as [err|absPath]; [left; by split|].
  destruct (Stat host absPath) as [err|isDir]; [left; by split|].
  destruct (if isDir then findPluginInDir host absPath else inr absPath)
    as [err|pluginPath]; [left; by split|].
  destruct (gostrings.HasSuffix pluginPath ".so") eqn:Hso; [|left; by split].
  cbn [negb].
  destruct (loadGoPlugin_cases host pluginPath pluginCtx m)
    as [?|(artifact & p & ? & ? & ? & ?)]; [by left|].
  right. by exists pluginPath, artifact, p.
Qed.

(** X12.  [LoadFromPath] is all or nothing on the registry.  When it
    returns an error the registry, its map and its six pipelines, is as
    before; when it returns nil, exactly one plugin was added to the
    map, the value of the symbol [Plugin] of an artifact whose path ends
    in [.so], under a name that was free, and its hooks were appended to
    the pipelines. *)
Theorem LoadFromPath_all_or_nothing host path pluginCtx m :
  let out := LoadFromPath host path pluginCtx m in
  (is_Some (fst out) -> registry (snd out) = registry m) /\
  (fst out = None ->
     exists pluginPath artifact p,
       gostrings.HasSuffix pluginPath ".so" = true /\
       Open host pluginPath = inr artifact /\
       artifact !! "Plugin" = Some (SymPlugin p) /\
       plugins (registry m) !! plugin.Name (Info p) = None /\
       plugins (registry (snd out)) =
         <[plugin.Name (Info p) := p]> (plugins (registry m)) /\
       extendedBy (registry m) (registry (snd out)) (GetHooks p (world (snd out)))).
Proof.
  intros out.
  destruct (LoadFromPath_cases host path pluginCtx m)
    as [[Herr Hm]|(pluginPath & artifact & p & Hso & Hopen & Hsym & Hres & Hm)];
    fold out in Herr, Hm || fold out in Hres, Hm.
  - rewrite Hm. split_and!; try done. intros Hnone. rewrite Hnone in Herr.
    by destruct Herr.
  - rewrite Hm, Hres.
    pose proof (LoadPlugin_cases p pluginCtx m) as Hc. cbv zeta in Hc.
    destruct (plugins (registry m) !! plugin.Name (Info p)) as [q|] eqn:Hq.
    { rewrite Hc. simpl. split_and!; done. }
    destruct (Init p pluginCtx (world m)) as [[e0|] w1] eqn:Hi; simpl in Hc;
      rewrite Hc; simpl.
    { split_and!; done. }
    split_and!; try done; try (by intros [? ?]).
    intros _. exists pluginPath, artifact, p. split_and!; try done.
    unfold extendedBy. simpl. by rewrite !appendHook_option_list.
Qed.

End LoaderMore.

Section LoaderRuns.
Context {World : Type}.
Implicit Types (m : Machine (World:=World)) (w : World) (r : Registry (World:=World))
  (p : Plugin (World:=World)) (host : Host (World:=World)).

Lemma LoadFromPath_frame host path pluginCtx m :
  let out := LoadFromPath host path pluginCtx m in
  logs (snd out) = logs m /\
  config (snd out) = config m /\
  size (plugins (registry (snd out))) =
    size (plugins (registry m)) + (if nonNil (fst out) then 0 else 1).
Proof.
  intros out.
  destruct (LoadFromPath_cases host path pluginCtx m)
    as [[Herr Hm]|(pluginPath & artifact & p & Hso & Hopen & Hsym & Hres & Hm)];
    fold out in Herr, Hm || fold out in Hres, Hm.
  - rewrite Hm. destruct Herr as [e ->]. simpl. split_and!; try done; lia.
  - rewrite Hm, Hres.
    pose proof (LoadPlugin_cases p pluginCtx m) as Hc. cbv zeta in Hc.
    destruct (plugins (registry m) !! plugin.Name (Info p)) as [q|] eqn:Hq.
    { rewrite Hc. simpl. split_and!; try done; lia. }
    destruct (Init p pluginCtx (world m)) as [[e0|] w1] eqn:Hi; simpl in Hc;
      rewrite Hc; simpl.
    { split_and!; try done; lia. }
    split_and!; try done; rewrite map_size_insert_None by done; lia.
Qed.

Lemma loadPaths_run host paths pluginCtx m :
  let outcomes := pathOutcomes host paths pluginCtx m in
  let out := loadPaths host paths pluginCtx m in
  map fst outcomes = paths /\
  config (snd out) = config m /\
  logs (snd out) = logs m ++ omap warningOf outcomes /\
  size (plugins (registry (snd out))) =
    size (plugins (registry m)) + countIf (fun c => negb (nonNil (snd c))) outcomes.
Proof.
  revert m. induction paths as [|path paths IH]; intros m; cbv zeta.
  - simpl. rewrite app_nil_r. split_and!; try done; lia.
  - cbn [loadPaths pathOutcomes]. unfold bind.
    destruct (LoadFromPath_frame host path pluginCtx m) as (Hlogs & Hcfg & Hsize).
    cbv zeta in Hlogs, Hcfg, Hsize.
    destruct (LoadFromPath host path pluginCtx m) as [[e|] m1]; cbn [fst snd] in *.
    + unfold logLine. cbv beta iota. cbn [fst snd]. fold (loadWarning path e).
      match goal with |- context [loadPaths host paths pluginCtx ?m2] =>
        destruct (IH m2) as (Hp & Hc & Hl & Hs) end.
      rewrite Hl, Hs, Hc. cbn [map fst]. rewrite Hp. cbn [logs config registry].
      rewrite Hlogs, Hcfg, Hsize.
      split_and!; try done.
      * cbn [omap list_omap warningOf fmap option_fmap option_map snd fst].
        by rewrite <- app_assoc.
      * simpl. lia.
    + destruct (IH m1) as (Hp & Hc & Hl & Hs). cbv zeta in Hp, Hc, Hl, Hs.
      rewrite Hl, Hs, Hc, Hlogs, Hcfg, Hsize. cbn [map fst]. rewrite Hp.
      split_and!; try done; simpl; lia.
Qed.

(** X13.  [LoadFromConfig] never fails.  It goes through all the plugin
    paths of the configuration, in their order, whatever happens to the
    earlier ones; for every path that fails to load it writes one
    warning with the path and the error to the diagnostic stream, and
    the plugin map grows by one plugin for every path that loads. *)
Theorem LoadFromConfig_warns_and_continues host pluginCtx m :
  let paths := GetPluginPaths (config m) in
  let outcomes := pathOutcomes host paths pluginCtx m in
  let out := LoadFromConfig host pluginCtx m in
  fst out = None /\
  map fst outcomes = paths /\
  config (snd out) = config m /\
  logs (snd out) = logs m ++ omap warningOf outcomes /\
  size (plugins (registry (snd out))) =
    size (plugins (registry m)) + countIf (fun c => negb (nonNil (snd c))) outcomes.
Proof.
  intros paths outcomes out.
  destruct (loadPaths_run host paths pluginCtx m) as (Hp & Hc & Hl & Hs).
  cbv zeta in Hp, Hc, Hl, Hs. fold outcomes in Hp, Hl, Hs.
  assert (out = LoadFromConfig host pluginCtx m) as Hout by reflexivity. clearbody out.
  unfold LoadFromConfig, bind, ret in Hout. cbn [fst snd] in Hout. fold paths in Hout.
  destruct (loadPaths host paths pluginCtx m) as [[] m1]. subst out. done.
Qed.

(** X14.  Loading the same path a second time registers nothing: when
    [LoadFromPath] returned nil for a path, a second call for it finds
    the plugin's name taken, calls neither [Init] nor [Hooks()], returns
    "failed to load plugin: plugin N is already loaded" and leaves the
    machine as the first call left it. *)
Theorem LoadFromPath_twice host path pluginCtx m :
  fst (LoadFromPath host path pluginCtx m) = None ->
  let m1 := snd (LoadFromPath host path pluginCtx m) in
  exists p,
    fst (GetPlugin (plugin.Name (Info p)) m1) = Some p /\
    LoadFromPath host path pluginCtx m1 =
    (Some (wrapError "failed to load plugin: "
             (errorString ("plugin " +:+ plugin.Name (Info p) +:+ " is already loaded"))),
     m1).
Proof.
  intros Hok m1.
  assert (m1 = snd (LoadFromPath host path pluginCtx m)) as Hm1 by reflexivity.
  clearbody m1. revert Hok Hm1. unfold LoadFromPath.
  destruct (Abs host path) as [err|absPath]; [done|].
  destruct (Stat host absPath) as [err|isDir]; [done|].
  destruct (if isDir then findPluginInDir host absPath else inr absPath)
    as [err|pluginPath]; [done|].
  destruct (gostrings.HasSuffix pluginPath ".so") eqn:Hso; [|done]. cbn [negb].
  unfold loadGoPlugin, Lookup.
  destruct (Open host pluginPath) as [err|artifact]; [done|].
  destruct (artifact !! "Plugin") as [[p|]|] eqn:Hsym; [|done..].
  unfold bind.
  pose proof (LoadPlugin_cases p pluginCtx m) as Hc. cbv zeta in Hc.
  destruct (plugins (registry m) !! plugin.Name (Info p)) as [q|] eqn:Hq;
    [by rewrite Hc|].
  destruct (Init p pluginCtx (world m)) as [[e0|] w1] eqn:Hi; simpl in Hc;
    rewrite Hc; [done|].
  cbn [fst snd]. intros _ ->. exists p.
  set (m2 := {| registry := _; config := _; world := _; trace := _; logs := _ |}).
  assert (plugins (registry m2) !! plugin.Name (Info p) = Some p) as Hin.
  { simpl. apply lookup_insert_eq. }
  split.
  - exact Hin.
  - pose proof (LoadPlugin_cases p pluginCtx m2) as Hc2. cbv zeta in Hc2.
    rewrite Hin in Hc2. change ((ret None m2).2) with m2. by rewrite Hc2.
Qed.

End LoaderRuns.

Section StartupMore.
Context {World : Type}.
Implicit Types (m : Machine (World:=World)) (host : Host (World:=World)).

Lemma runConfigHooks_result (hooks : list (ConfigHook (World:=World))) m :
  let out := runConfigHooks hooks m in
  registry (snd out) = registry m /\ logs (snd out) = logs m /\
  (forall e, fst out = Some e -> exists e0, e = wrapError "config hook failed: " e0).
Proof.
  revert m. induction hooks as [|h hooks IH]; intros m; [done|].
  cbv zeta. rewrite runConfigHooks_cons. cbv zeta.
  destruct (OnConfigLoad h (config m) (world m)) as [[[e0|] cfg1] w1]; cbn [fst snd].
  - split_and!; try done. intros e [= <-]. by exists e0.
  - match goal with |- context [runConfigHooks hooks ?m1] =>
      destruct (IH m1) as (-> & -> & He) end. done.
Qed.

(** X15.  [initPlugins] fails only on a config hook: a plugin that fails
    to load costs a warning, never the start-up.  When no config hook
    returns an error it registers the shutdown of the plugins as a
    clean-up function and logs "Plugins initialized" with the number of
    plugins in the registry; when it fails, its error is the hook's,
    wrapped twice, and no clean-up function is registered. *)
Theorem initPlugins_outcomes host (application : App) m :
  let pluginCtx := {| ctx_Config := config m; ctx_WorkingDir := WorkingDir (config m) |} in
  let m1 := snd (LoadFromConfig host pluginCtx m) in
  let run := configRun (configHooks (registry m1)) (config m1) (world m1) in
  let out := initPlugins host application m in
  Range host (plugins (registry m1)) ≡ₚ map_to_list (plugins (registry m1)) ->
  registry (snd out) = registry m1 /\
  (Forall (fun c => snd c = None) run ->
     fst out = (None, addCleanup application cleanupPlugins) /\
     logs (snd out) =
       logs m1 ++ [SlogInfo "Plugins initialized" (size (plugins (registry m1)))]) /\
  (forall e, fst (fst out) = Some e ->
     snd (fst out) = application /\
     logs (snd out) = logs m1 /\
     exists e0,
       e = wrapError "failed to trigger config hooks: "
             (wrapError "config hook failed: " e0)).
Proof.
  intros pluginCtx m1 run out Hrange.
  assert (out = initPlugins host application m) as Hout by reflexivity. clearbody out.
  unfold initPlugins, bind, getConfig in Hout. fold pluginCtx in Hout.
  pose proof (LoadFromConfig_nil host pluginCtx m) as Hload.
  destruct (LoadFromConfig host pluginCtx m) as [lerr m1'] eqn:Hl.
  simpl in Hload. subst lerr. subst m1. cbn [snd] in *.
  unfold TriggerConfigHooks, bind, getRegistry in Hout.
  destruct (runConfigHooks_result (configHooks (registry m1')) m1') as (Hreg & Hlogs & Herr).
  cbv zeta in Hreg, Hlogs, Herr.
  pose proof (runConfigHooks_run (configHooks (registry m1')) m1') as Hrun.
  cbv zeta in Hrun. fold run in Hrun.
  destruct (runConfigHooks (configHooks (registry m1')) m1') as [[e|] m2];
    cbn [fst snd] in *.
  - subst out. cbn [fst snd]. split_and!; try done.
    + intros Hall. by destruct (Hrun Hall) as [? _].
    + intros e' [= <-]. destruct (Herr e eq_refl) as [e0 ->].
      split_and!; try done. by exists e0.
  - unfold ListPlugins, bind, getRegistry, ret, logLine in Hout. cbn [fst snd] in Hout.
    subst out. cbn [fst snd registry logs]. split_and!; try done.
    intros _. split; [done|].
    rewrite Hlogs, Hreg, length_map, Hrange. by rewrite length_map_to_list.
Qed.

End StartupMore.

(** ** Tool names of skill paths *)
Import toolnames.

Section ToolNamesMore.
Implicit Types (s t rel : string) (c : ascii).

Lemma mapBytes_ext (P : ascii -> bool) (f g : ascii -> ascii) s :
  (forall c, P c = true -> f c = g c) ->
  allBytes P s = true -> mapBytes f s = mapBytes g s.
Proof.
  intros Hfg. induction s as [|c s IH]; [done|]. simpl.
  intros [Hc Hs]%andb_true_iff. by rewrite (Hfg c Hc), IH.
Qed.

Lemma mapBytes_allBytes (P Q : ascii -> bool) (f : ascii -> ascii) s :
  (forall c, P c = true -> Q (f c) = true) ->
  allBytes P s = true -> allBytes Q (mapBytes f s) = true.
Proof.
  intros Hf. induction s as [|c s IH]; [done|]. simpl.
  intros [Hc Hs]%andb_true_iff. by rewrite (Hf c Hc), IH.
Qed.

Lemma mapBytes_mapBytes (f g : ascii -> ascii) s :
  mapBytes f (mapBytes g s) = mapBytes (fun c => f (g c)) s.
Proof. induction s as [|c s IH]; [done|]. simpl. by rewrite IH. Qed.

Lemma mapBytes_app (f : ascii -> ascii) s t :
  mapBytes f (s +:+ t) = mapBytes f s +:+ mapBytes f t.
Proof. induction s as [|c s IH]; [done|]. rewrite str_app_cons. simpl. by rewrite IH. Qed.

Lemma length_mapBytes (f : ascii -> ascii) s :
  String.length (mapBytes f s) = String.length s.
Proof. induction s as [|c s IH]; [done|]. simpl. by rewrite IH. Qed.

Lemma ReplaceAll_slash s :
  gostrings.ReplaceAll s "/" "_" =
  mapBytes (fun c => if Ascii.eqb c "/" then "_"%char else c) s.
Proof.
  unfold gostrings.ReplaceAll. induction s as [|c s IH]; [done|].
  cbn [gostrings.replaceAll mapBytes].
  change "/" with (String "/" "") at 1. rewrite HasPrefix_cons.
  rewrite (Ascii.eqb_sym c "/").
  destruct (Ascii.eqb "/" c).
  - assert (gostrings.HasPrefix s "" = true) as -> by (by destruct s).
    cbn [String.length Nat.sub]. rewrite IH. reflexivity.
  - by rewrite IH.
Qed.

Lemma ToLower_mapBytes s : gostrings.ToLower s = mapBytes gostrings.toLowerByte s.
Proof. induction s as [|c s IH]; [done|]. simpl. by rewrite IH. Qed.

Lemma replaceNonWord_ascii s :
  allBytes isAscii s = true ->
  replaceNonWord 0 s = mapBytes (fun c => if isWordByte c then c else "_"%char) s.
Proof.
  induction s as [|c s IH]; [done|]. cbn [allBytes replaceNonWord mapBytes].
  intros [Hc Hs]%andb_true_iff.
  destruct (isWordByte c); [by rewrite IH|].
  unfold gostrings.runeWidth. unfold isAscii in Hc. rewrite Hc.
  cbn [Nat.sub]. by rewrite IH.
Qed.

Lemma byte_eqb c n :
  (n < 256)%nat -> Ascii.eqb c (ascii_of_nat n) = (gostrings.byte c =? n)%nat.
Proof.
  intros Hn. unfold gostrings.byte.
  destruct (Ascii.eqb_spec c (ascii_of_nat n)) as [->|Hne].
  - rewrite nat_ascii_embedding by done. symmetry. apply Nat.eqb_refl.
  - symmetry. apply Nat.eqb_neq. intros Heq. apply Hne.
    rewrite <- Heq. symmetry. apply ascii_nat_embedding.
Qed.

(** What the steps of [generateToolName] do to one byte of a path of
    validated names. *)
Lemma sanitise_byte c :
  isRelByte c = true ->
  let c1 := if Ascii.eqb c "/" then "_"%char else c in
  isAscii c1 = true /\
  gostrings.toLowerByte (if isWordByte c1 then c1 else "_"%char) = sanitise c /\
  isToolNameByte (sanitise c) = true.
Proof.
  unfold isRelByte, isNameByte, sanitise, isAscii, isWordByte, isToolNameByte,
    gostrings.toLowerByte, gostrings.isLower, gostrings.isUpper, gostrings.isDigit,
    gostrings.between.
  change "/"%char with (ascii_of_nat 47). change "-"%char with (ascii_of_nat 45).
  change "_"%char with (ascii_of_nat 95).
  rewrite !byte_eqb by lia.
  intros H. cbv zeta.
  destruct (Nat.eqb_spec (gostrings.byte c) 47) as [H47|H47].
  - unfold gostrings.byte. rewrite !orb_true_r.
    rewrite !nat_ascii_embedding by lia. done.
  - destruct (Nat.eqb_spec (gostrings.byte c) 45) as [H45|H45].
    + rewrite H45. unfold gostrings.byte. cbn [Nat.eqb orb].
      rewrite !nat_ascii_embedding by lia. done.
    + rewrite !orb_false_r in H. cbn [orb].
      apply orb_true_iff in H as [[Hl1 Hl2]%andb_true_iff|[Hd1 Hd2]%andb_true_iff];
        apply Nat.leb_le in Hl1, Hl2 || apply Nat.leb_le in Hd1, Hd2.
      * assert ((97 <=? gostrings.byte c) = true) as E1 by (apply Nat.leb_le; lia).
        assert ((gostrings.byte c <=? 122) = true) as E2 by (apply Nat.leb_le; lia).
        assert ((gostrings.byte c <=? 90) = false) as E3 by (apply Nat.leb_gt; lia).
        repeat (rewrite ?E1, ?E2, ?E3, ?andb_false_r; cbn [andb orb]).
        split; [apply Nat.ltb_lt; lia|]. done.
      * assert ((97 <=? gostrings.byte c) = false) as E1 by (apply Nat.leb_gt; lia).
        assert ((65 <=? gostrings.byte c) = false) as E2 by (apply Nat.leb_gt; lia).
        assert ((48 <=? gostrings.byte c) = true) as E3 by (apply Nat.leb_le; lia).
        assert ((gostrings.byte c <=? 57) = true) as E4 by (apply Nat.leb_le; lia).
        repeat (rewrite ?E1, ?E2, ?E3, ?E4; cbn [andb orb]).
        split; [apply Nat.ltb_lt; lia|]. done.
Qed.

Lemma generateToolName_rel rel :
  allBytes isRelByte rel = true -> gostrings.HasSuffix rel "/" = false ->
  generateToolName rel = "skills_" +:+ sanitised rel.
Proof.
  intros Hall Hsuf. unfold generateToolName.
  assert (gostrings.HasPrefix rel "./" = false) as Hpre.
  { apply not_true_is_false. intros Hp%HasPrefix_inv. rewrite Hp in Hall.
    rewrite allBytes_app in Hall. done. }
  unfold gostrings.TrimPrefix, gostrings.TrimSuffix. rewrite Hpre, Hsuf.
  f_equal. rewrite ReplaceAll_slash, replaceNonWord_ascii, ToLower_mapBytes.
  - rewrite !mapBytes_mapBytes. apply (mapBytes_ext isRelByte); [|done].
    intros c Hc. by destruct (sanitise_byte c Hc) as (_ & ? & _).
  - apply (mapBytes_allBytes isRelByte); [|done].
    intros c Hc. by destruct (sanitise_byte c Hc) as (? & _).
Qed.

Lemma name_rel s : allBytes isNameByte s = true -> allBytes isRelByte s = true.
Proof.
  induction s as [|c s IH]; [done|]. cbn [allBytes]. intros [Hc Hs]%andb_true_iff.
  rewrite (IH Hs). unfold isRelByte. by rewrite Hc.
Qed.

Lemma HasSuffix_byte_app s t c :
  t <> "" ->
  gostrings.HasSuffix (s +:+ t) (String c "") = gostrings.HasSuffix t (String c "").
Proof.
  intros Hne. unfold gostrings.HasSuffix. rewrite str_length_app.
  assert (1 <= String.length t) as Hlen by (destruct t; [done|simpl; lia]).
  cbn [String.length].
  replace (String.length s + String.length t - 1)
    with (String.length s + (String.length t - 1)) by lia.
  rewrite sliceFrom_app_ge.
  assert ((1 <=? String.length s + String.length t) = true) as ->
    by (apply Nat.leb_le; lia).
  by assert ((1 <=? String.length t) = true) as -> by (by apply Nat.leb_le).
Qed.

Lemma name_no_slash_suffix s :
  validateSkillName s = true -> s <> "" /\ gostrings.HasSuffix s "/" = false.
Proof.
  unfold validateSkillName. intros [Hne Hall]%andb_true_iff.
  apply negb_true_iff, String.eqb_neq in Hne. split; [done|].
  apply not_true_is_false. intros [s0 ->]%HasSuffix_inv.
  rewrite allBytes_app in Hall. by apply andb_true_iff in Hall as [_ ?].
Qed.

Lemma str_app_inv_head s t1 t2 : s +:+ t1 = s +:+ t2 -> t1 = t2.
Proof.
  induction s as [|c s IH]; [done|]. rewrite !str_app_cons. intros [= H]. by apply IH.
Qed.

Lemma sanitised_inj s t :
  allBytes isNameByte s = true -> allBytes isNameByte t = true ->
  sanitised s = sanitised t -> s = t.
Proof.
  assert (forall c d, isNameByte c = true -> isNameByte d = true ->
            sanitise c = sanitise d -> c = d) as Hbyte.
  { intros c d. unfold isNameByte, sanitise, gostrings.isLower, gostrings.isDigit,
      gostrings.between.
    change "/"%char with (ascii_of_nat 47). change "-"%char with (ascii_of_nat 45).
    change "_"%char with (ascii_of_nat 95).
    rewrite !byte_eqb by lia. intros Hc Hd.
    assert (forall x, gostrings.byte x = 95 ->
              (97 <=? gostrings.byte x) && (gostrings.byte x <=? 122)
              || (48 <=? gostrings.byte x) && (gostrings.byte x <=? 57)
              || (gostrings.byte x =? 45) = true -> False) as Hnot.
    { intros x ->. done. }
    assert (forall x y : ascii, gostrings.byte x = gostrings.byte y -> x = y) as Hinj.
    { intros x y Hxy. rewrite <- (ascii_nat_embedding x), <- (ascii_nat_embedding y).
      unfold gostrings.byte in Hxy. by rewrite Hxy. }
    destruct (Nat.eqb_spec (gostrings.byte c) 45) as [Hc45|Hc45];
      destruct (Nat.eqb_spec (gostrings.byte d) 45) as [Hd45|Hd45]; cbn [orb].
    - intros _. apply Hinj. congruence.
    - destruct (Nat.eqb_spec (gostrings.byte d) 47) as [Hd47|Hd47].
      + rewrite Hd47 in Hd. done.
      + intros <-. exfalso. apply (Hnot (ascii_of_nat 95)); [|done].
        unfold gostrings.byte. by rewrite nat_ascii_embedding by lia.
    - destruct (Nat.eqb_spec (gostrings.byte c) 47) as [Hc47|Hc47].
      + rewrite Hc47 in Hc. done.
      + intros ->. exfalso. apply (Hnot (ascii_of_nat 95)); [|done].
        unfold gostrings.byte. by rewrite nat_ascii_embedding by lia.
    - destruct (Nat.eqb_spec (gostrings.byte c) 47) as [Hc47|Hc47];
        [rewrite Hc47 in Hc; done|].
      destruct (Nat.eqb_spec (gostrings.byte d) 47) as [Hd47|Hd47];
        [rewrite Hd47 in Hd; done|].
      done. }
  revert t. induction s as [|c s IH]; intros [|d t]; try done.
  cbn [allBytes sanitised mapBytes]. intros [Hc Hs]%andb_true_iff [Hd Ht]%andb_true_iff.
  intros [= Hcd Hst]. f_equal; [by apply Hbyte|]. by apply IH.
Qed.

(** X16.  For a path of validated skill names, one name or several
    joined by separators, the tool name is [skills_] followed by the
    path with every hyphen and every separator turned into an
    underscore.  So two skills with different validated names directly
    under a skills directory never share a tool name, while a skill in a
    sub-directory [a/b] always gets the tool name of a skill named
    [a-b]. *)
Theorem tool_names_of_validated_names :
  (forall rel,
     allBytes isRelByte rel = true -> gostrings.HasSuffix rel "/" = false ->
     generateToolName rel = "skills_" +:+ sanitised rel) /\
  (forall a b,
     validateSkillName a = true -> validateSkillName b = true ->
     generateToolName a = generateToolName b -> a = b) /\
  (forall a b,
     validateSkillName a = true -> validateSkillName b = true ->
     validateSkillName (a +:+ "-" +:+ b) = true /\
     generateToolName (a +:+ "/" +:+ b) = generateToolName (a +:+ "-" +:+ b)).
Proof.
  split; [exact generateToolName_rel|]. split.
  - intros a b Ha Hb.
    destruct (name_no_slash_suffix a Ha) as [_ Hsa].
    destruct (name_no_slash_suffix b Hb) as [_ Hsb].
    unfold validateSkillName in Ha, Hb.
    apply andb_true_iff in Ha as [_ Ha]. apply andb_true_iff in Hb as [_ Hb].
    rewrite !generateToolName_rel by (done || by apply name_rel).
    intros Heq%str_app_inv_head. by apply sanitised_inj.
  - intros a b Ha Hb.
    destruct (name_no_slash_suffix a Ha) as [Hane _].
    destruct (name_no_slash_suffix b Hb) as [Hbne Hsb].
    assert (allBytes isNameByte a = true /\ allBytes isNameByte b = true) as [Ha' Hb'].
    { unfold validateSkillName in Ha, Hb.
      apply andb_true_iff in Ha as [_ Ha]. by apply andb_true_iff in Hb as [_ Hb]. }
    assert (forall sep : string, gostrings.HasSuffix (a +:+ sep +:+ b) "/" = false) as Hsuf.
    { intros sep. rewrite <- str_app_assoc.
      by rewrite (HasSuffix_byte_app (a +:+ sep) b "/" Hbne). }
    split.
    + unfold validateSkillName. rewrite !allBytes_app, Ha', Hb'. simpl.
      rewrite andb_true_r. apply negb_true_iff, String.eqb_neq.
      intros [? _]%str_app_eq_nil. done.
    + rewrite !generateToolName_rel; try apply Hsuf.
      * unfold sanitised. rewrite !mapBytes_app. reflexivity.
      * rewrite !allBytes_app, (name_rel a Ha'), (name_rel b Hb'). done.
      * rewrite !allBytes_app, (name_rel a Ha'), (name_rel b Hb'). done.
Qed.

Lemma length_replaceNonWord skip s :
  String.length (replaceNonWord skip s) <= String.length s.
Proof.
  revert skip. induction s as [|c s IH]; intros skip; [done|].
  cbn [replaceNonWord String.length].
  destruct skip as [|k]; [|specialize (IH k); lia].
  destruct (isWordByte c); cbn [String.length].
  - specialize (IH 0). lia.
  - specialize (IH (gostrings.runeWidth (String c s) - 1)). lia.
Qed.

Lemma length_ToLower s : String.length (gostrings.ToLower s) = String.length s.
Proof. by rewrite ToLower_mapBytes, length_mapBytes. Qed.

Lemma length_sliceTo_le n s : String.length (gostrings.sliceTo n s) <= String.length s.
Proof.
  revert n. induction s as [|c s IH]; intros [|n]; simpl; try lia.
  specialize (IH n). lia.
Qed.

(** X17.  Whatever the path, the tool name [generateToolName] returns is
    [skills_] followed by bytes of [[a-z0-9_]] only, at most as many as
    the path has bytes: no upper-case letter, hyphen, dot, separator or
    byte of a multi-byte character ever reaches a tool name. *)
Theorem generateToolName_shape skillPath :
  exists rest,
    generateToolName skillPath = "skills_" +:+ rest /\
    allBytes isToolNameByte rest = true /\
    String.length rest <= String.length skillPath.
Proof.
  unfold generateToolName. eexists. split; [reflexivity|]. split.
  - apply ToLower_toolName, replaceNonWord_word.
  - rewrite length_ToLower.
    etransitivity; [apply length_replaceNonWord|].
    rewrite ReplaceAll_slash, length_mapBytes.
    unfold gostrings.TrimSuffix, gostrings.TrimPrefix.
    pose proof (length_sliceFrom 2 skillPath) as H2.
    set (trimmed := if gostrings.HasPrefix skillPath "./"
                    then gostrings.sliceFrom (String.length "./") skillPath
                    else skillPath).
    assert (String.length trimmed <= String.length skillPath) as Htrim.
    { unfold trimmed. destruct (gostrings.HasPrefix skillPath "./"); [|done].
      change (String.length "./") with 2. lia. }
    destruct (gostrings.HasSuffix trimmed "/"); [|done].
    etransitivity; [apply length_sliceTo_le|done].
Qed.

End ToolNamesMore.

(** ** Discovery: what is found, what is written, what is ignored *)
Section DiscoveryMore.
Implicit Types (env : Env) (st : Discovery) (e : WalkEntry) (s : Skill).

Lemma keepLast_subset (l : list Skill) s : s ∈ keepLast l -> s ∈ l.
Proof.
  induction l as [|s' l IH]; [done|]. simpl.
  destruct (existsb (hasToolName (ToolName s')) l).
  - intros ?. right. by apply IH.
  - intros [->|?]%elem_of_cons; [by left|right; by apply IH].
Qed.

Lemma validSkills_elem env entries s :
  s ∈ validSkills env entries <-> exists e, e ∈ entries /\ validSkill env e = Some s.
Proof. unfold validSkills. apply list_elem_of_omap. Qed.

(** X18.  Every skill [discoverSkills] returns was parsed from a file of
    the walk named [SKILL.md]: its [Path] is the path of that entry,
    [FullPath] is the directory of the file, its name is a validated
    name and the basename of that directory, and its description has at
    least 20 bytes. *)
Theorem discovered_skills_are_validated env basePaths s :
  s ∈ fst (discoverSkills env basePaths) ->
  (exists e, e ∈ entriesOf env basePaths /\
             isSkillFile e = true /\ walk_path e = Path s) /\
  parseSkillMD env (Path s) = inr s /\
  FullPath s = filepath.Dir (Path s) /\
  skills.Name s = filepath.Base (FullPath s) /\
  validateSkillName (skills.Name s) = true /\
  20 <= String.length (skills.Description s).
Proof.
  unfold discoverSkills. cbn [fst].
  destruct (discover_tracks env basePaths) as [-> _].
  intros (e & He & [Hfile Hparse]%validSkill_Some)%keepLast_subset%validSkills_elem.
  pose proof (parseSkillMD_Path _ _ _ Hparse) as Hpath.
  split; [by exists e|]. rewrite Hpath. split; [done|].
  apply parseSkillMD_inr in Hparse
    as (contentStr & first & fmText & body & fm & _ & _ & _
        & (Hne & Hvalid & Hdir & Hdesc) & ->).
  done.
Qed.

Lemma removeFirst_length t (l : list Skill) :
  t ∈ map ToolName l -> S (length (removeFirst t l)) = length l.
Proof.
  induction l as [|s l IH]; [by intros ?%elem_of_nil|]. simpl.
  change (String.eqb (ToolName s) t) with (hasToolName t s).
  destruct (hasToolName t s) eqn:Hs; [done|].
  intros [Heq|Hin]%elem_of_cons.
  - symmetry in Heq. apply hasToolName_eq in Heq. congruence.
  - simpl. by rewrite IH.
Qed.

Lemma walk_warnings env entries valid st :
  tracks valid st ->
  let st' := fold_left (visit env) entries st in
  stderr st' = stderr st ++ warningsOf env valid entries /\
  length (stderr st') + length (allSkills st') =
    length (stderr st) + length (allSkills st) + countIf isSkillFile entries.
Proof.
  revert valid st. induction entries as [|e entries IH]; intros valid st Hst.
  - simpl. rewrite app_nil_r. split; [done|lia].
  - cbv zeta. cbn [fold_left warningsOf countIf].
    pose proof (visit_tracks env valid st e Hst) as Hst'.
    destruct (IH _ _ Hst') as [Herr Hlen]. cbv zeta in Herr, Hlen.
    rewrite Hlen, Herr. clear IH Herr Hlen.
    destruct (isSkillFile e) eqn:Hfile.
    + destruct (parseSkillMD env (walk_path e)) as [parseErr|s] eqn:Hparse.
      * rewrite (visit_rejected _ _ _ _ Hfile Hparse). cbn [stderr allSkills].
        assert (validSkill env e = None) as ->.
        { unfold validSkill. by rewrite Hfile, Hparse. }
        cbn [option_list]. rewrite app_nil_r, <- app_assoc, length_app. simpl.
        split; [done|lia].
      * assert (validSkill env e = Some s) as Hv.
        { unfold validSkill. by rewrite Hfile, Hparse. }
        rewrite Hv, (visit_valid _ _ _ _ Hv). cbn [option_list].
        destruct Hst as [Hall Hseen]. rewrite Hseen.
        rewrite <- (parseSkillMD_Path _ _ _ Hparse).
        destruct (lastWith (ToolName s) valid) as [earlier|] eqn:Hlast;
          cbn [fmap option_fmap option_map stderr allSkills].
        -- rewrite <- app_assoc, !length_app. cbn [length].
           assert (ToolName s ∈ map ToolName (allSkills st)) as Hin.
           { rewrite Hall, keepLast_names.
             destruct (lastWith_Some _ _ _ Hlast) as [<- Hearlier].
             by apply (list_elem_of_fmap_2 ToolName). }
           pose proof (removeFirst_length _ _ Hin). split; [done|lia].
        -- rewrite length_app. simpl. split; [done|lia].
    + rewrite visit_other by done.
      assert (validSkill env e = None) as ->.
      { unfold validSkill. by rewrite Hfile. }
      cbn [option_list]. rewrite app_nil_r. split; [done|lia].
Qed.

(** X19.  The diagnostic stream of a discovery holds, in the order of
    the walk, one warning for every SKILL.md file that does not parse
    and one for every valid skill whose tool name was seen before, and
    nothing else.  So every SKILL.md file of the walk is accounted for
    once: the warnings and the skills returned are together as many as
    the files. *)
Theorem discovery_accounts_for_every_skill_file env basePaths :
  let entries := entriesOf env basePaths in
  let found := discover env basePaths in
  stderr found = warningsOf env [] entries /\
  length (stderr found) + length (fst (discoverSkills env basePaths)) =
    countIf isSkillFile entries.
Proof.
  cbv zeta. unfold discoverSkills, discover. cbn [fst]. rewrite discover_walk.
  assert (tracks [] {| allSkills := []; seenToolNames := ∅; stderr := [] |}) as Hinit.
  { by split. }
  destruct (walk_warnings env (entriesOf env basePaths) [] _ Hinit) as [-> ->].
  done.
Qed.

Lemma walk_filter env entries st :
  fold_left (visit env) entries st =
  fold_left (visit env) (List.filter isSkillFile entries) st.
Proof.
  revert st. induction entries as [|e entries IH]; intros st; [done|]. simpl.
  destruct (isSkillFile e) eqn:Hfile; simpl; [apply IH|].
  rewrite visit_other by done. apply IH.
Qed.

(** X20.  A discovery depends on nothing but the SKILL.md files of the
    walk: base paths that do not exist, entries the walk reports an
    error for, directories, also those named [SKILL.md], and files with
    any other name, [skill.md] included, change neither the skills
    returned nor the diagnostic stream. *)
Theorem discovery_reads_only_skill_files env basePaths basePaths' :
  List.filter isSkillFile (entriesOf env basePaths) =
  List.filter isSkillFile (entriesOf env basePaths') ->
  discover env basePaths = discover env basePaths' /\
  discoverSkills env basePaths = discoverSkills env basePaths'.
Proof.
  intros Heq.
  assert (discover env basePaths = discover env basePaths') as Hd.
  { unfold discover. rewrite !discover_walk.
    rewrite (walk_filter env (entriesOf env basePaths)).
    rewrite (walk_filter env (entriesOf env basePaths')). by rewrite Heq. }
  split; [done|]. unfold discoverSkills. by rewrite Hd.
Qed.

Lemma keepLast_covered (c b : list Skill) :
  Forall (fun s => ToolName s ∈ map ToolName b) c -> keepLast (c ++ b) = keepLast b.
Proof.
  induction 1 as [|s c Hs _ IH]; [done|]. simpl.
  assert (existsb (hasToolName (ToolName s)) (c ++ b) = true) as ->; [|done].
  apply existsb_hasToolName. rewrite map_app. apply elem_of_app. by right.
Qed.

Lemma keepLast_app_cong (a b1 b2 : list Skill) :
  (forall t, t ∈ map ToolName b1 <-> t ∈ map ToolName b2) ->
  keepLast b1 = keepLast b2 ->
  keepLast (a ++ b1) = keepLast (a ++ b2).
Proof.
  intros Hnames Hkeep. induction a as [|s a IH]; [done|]. simpl.
  assert (existsb (hasToolName (ToolName s)) (a ++ b1) =
          existsb (hasToolName (ToolName s)) (a ++ b2)) as ->.
  { apply eq_true_iff_eq. rewrite !existsb_hasToolName, !map_app, !elem_of_app.
    by rewrite Hnames. }
  by rewrite IH.
Qed.

(** X21.  When the working directory is the home directory the project
    path is the home path, and [~/.crush/skills] is walked twice.  The
    skills returned are those of a single walk, but every valid skill
    under that path is then announced as a duplicate of a skill under
    the same path. *)
Theorem home_working_directory_walks_twice env homeDir :
  UserHomeDir env = inr homeDir ->
  let basePaths := getSkillBasePaths env homeDir in
  let b := filepath.Join [homeDir; ".crush"; "skills"] in
  exists lower,
    basePaths = lower ++ [b; b] /\
    fst (discoverSkills env basePaths) = fst (discoverSkills env (lower ++ [b])) /\
    (forall s, s ∈ validSkills env (entriesOf env [b]) ->
       exists earlier,
         earlier ∈ validSkills env (entriesOf env [b]) /\
         ToolName earlier = ToolName s /\
         duplicateWarning (ToolName s) (Path earlier) (Path s)
           ∈ stderr (discover env basePaths)).
Proof.
  intros Hhome basePaths b.
  assert (exists lower, basePaths = lower ++ [b; b]) as [lower Hpaths].
  { unfold basePaths, getSkillBasePaths. rewrite Hhome. fold b.
    eexists. rewrite <- app_assoc. reflexivity. }
  exists lower. split; [done|]. rewrite Hpaths. clear Hpaths basePaths.
  change (lower ++ [b; b]) with (lower ++ [b] ++ [b]).
  set (vb := validSkills env (entriesOf env [b])).
  split.
  - unfold discoverSkills. cbn [fst].
    destruct (discover_tracks env (lower ++ [b] ++ [b])) as [-> _].
    destruct (discover_tracks env (lower ++ [b])) as [-> _].
    rewrite !entriesOf_app, !validSkills_app. fold vb.
    apply keepLast_app_cong.
    + intros t. rewrite map_app, elem_of_app. tauto.
    + apply keepLast_covered. apply Forall_forall. intros s Hs.
      by apply (list_elem_of_fmap_2 ToolName).
  - intros s Hs.
    apply validSkills_elem in Hs as (e & He & Hv).
    apply list_elem_of_split in He as (pre & post & Hsplit).
    set (before := validSkills env (entriesOf env lower) ++ vb ++ validSkills env pre).
    assert (s ∈ vb) as Hsvb.
    { apply validSkills_elem. exists e. split; [|done]. rewrite Hsplit. set_solver. }
    destruct (lastWith (ToolName s) before) as [earlier|] eqn:Hlast.
    + exists earlier.
      assert (earlier ∈ vb /\ ToolName earlier = ToolName s) as [Hin Hname].
      { unfold before in Hlast. rewrite app_assoc, lastWith_app in Hlast.
        destruct (lastWith (ToolName s) (validSkills env pre)) as [s1|] eqn:H1.
        - injection Hlast as ->. destruct (lastWith_Some _ _ _ H1) as [? Hin1].
          split; [|done]. unfold vb. rewrite Hsplit, validSkills_app.
          apply elem_of_app. by left.
        - rewrite lastWith_app in Hlast.
          destruct (lastWith (ToolName s) vb) as [s2|] eqn:H2.
          + injection Hlast as ->. by destruct (lastWith_Some _ _ _ H2).
          + apply lastWith_None in H2. exfalso. apply H2.
            by apply (list_elem_of_fmap_2 ToolName). }
      split; [done|]. split; [done|].
      apply (discover_stderr_at env (lower ++ [b] ++ [b])
               (entriesOf env lower ++ entriesOf env [b] ++ pre) e post).
      * rewrite !entriesOf_app. rewrite Hsplit at 2. by rewrite <- !app_assoc.
      * intros st [_ Hst]. rewrite (visit_valid _ _ _ _ Hv), Hst.
        rewrite !validSkills_app. fold vb. fold before. rewrite Hlast. simpl.
        by eexists.
    + apply lastWith_None in Hlast. exfalso. apply Hlast.
      unfold before. rewrite !map_app, !elem_of_app. right. left.
      by apply (list_elem_of_fmap_2 ToolName).
Qed.

End DiscoveryMore.

(** ** The skills plugin *)
Section SkillsPlugin.
Implicit Types (env : Env) (p : skillsplugin.Plugin).

Lemma Init_cases env pluginCtx p :
  let found := fst (discoverSkills env (getSkillBasePaths env (ctx_WorkingDir pluginCtx))) in
  let warnings :=
    stderr (discover env (getSkillBasePaths env (ctx_WorkingDir pluginCtx))) in
  skillsplugin.Init env pluginCtx p =
  (None,
   {| skillsplugin.skills := found;
      skillsplugin.tools :=
        skillsplugin.tools p ++
        map (fun s => {| skillsplugin.name := ToolName s;
                         skillsplugin.description := skills.Description s;
                         skillsplugin.skill := s |}) found |},
   warnings ++
   match found with
   | [] => []
   | _ :: _ =>
       ("Skills Plugin: Loaded " +:+ itoa (length found) +:+ " skill(s)" +:+ newline)
       :: map (fun s => "  - " +:+ ToolName s +:+ ": " +:+ skills.Description s
                        +:+ newline) found
   end).
Proof.
  cbv zeta. unfold skillsplugin.Init, discoverSkills. cbn [fst].
  by destruct (allSkills (discover env _)).
Qed.

(** X22.  [Init] of the skills plugin never fails.  It stores the
    discovered skills and appends one tool per skill, in the order of
    the skills, named by the skill's tool name, to the tools the plugin
    already has; on a new plugin the tool names are pairwise distinct.
    What it writes to the diagnostic stream is the warnings of the
    discovery and, after them, nothing when no skill was found and
    otherwise the headline "Skills Plugin: Loaded N skill(s)" followed
    by one line "  - tool name: description" per skill, in the order of
    the skills.  A second [Init] replaces the skills but keeps the old
    tools, so that every tool is registered twice. *)
Theorem skills_Init_registers_one_tool_per_skill env pluginCtx p :
  let basePaths := getSkillBasePaths env (ctx_WorkingDir pluginCtx) in
  let found := fst (discoverSkills env basePaths) in
  let out := skillsplugin.Init env pluginCtx p in
  let p1 := snd (fst out) in
  let again := skillsplugin.Init env pluginCtx p1 in
  fst (fst out) = None /\
  skillsplugin.skills p1 = found /\
  map skillsplugin.skill (skillsplugin.tools p1) =
    map skillsplugin.skill (skillsplugin.tools p) ++ found /\
  map (fun t => info_Name (skillsplugin.Info t)) (skillsplugin.tools p1) =
    map (fun t => info_Name (skillsplugin.Info t)) (skillsplugin.tools p)
    ++ map ToolName found /\
  (skillsplugin.tools p = [] ->
     NoDup (map (fun t => info_Name (skillsplugin.Info t)) (skillsplugin.tools p1))) /\
  snd out =
    stderr (discover env basePaths) ++
    match found with
    | [] => []
    | _ :: _ =>
        ("Skills Plugin: Loaded " +:+ itoa (length found) +:+ " skill(s)" +:+ newline)
        :: map (fun s => "  - " +:+ ToolName s +:+ ": " +:+ skills.Description s
                         +:+ newline) found
    end /\
  length (snd out) =
    length (stderr (discover env basePaths))
    + (if (0 <? length found)%nat then S (length found) else 0) /\
  (skillsplugin.tools p = [] ->
     skillsplugin.skills (snd (fst again)) = found /\
     skillsplugin.tools (snd (fst again)) =
       skillsplugin.tools p1 ++ skillsplugin.tools p1).
Proof.
  intros basePaths found out p1 again.
  pose proof (Init_cases env pluginCtx p) as Hout.
  cbv zeta in Hout. fold basePaths in Hout. fold found in Hout.
  fold out in Hout.
  pose proof (Init_cases env pluginCtx p1) as Hagain.
  cbv zeta in Hagain. fold basePaths in Hagain. fold found in Hagain.
  fold again in Hagain.
  assert (p1 = snd (fst out)) as Hp1 by reflexivity. clearbody p1 again.
  rewrite Hout in Hp1. cbn [fst snd] in Hp1. rewrite Hout, Hagain. cbn [fst snd].
  subst p1. cbn [skillsplugin.skills skillsplugin.tools].
  split_and!; try done.
  - rewrite map_app, map_map. cbn [skillsplugin.skill]. by rewrite map_id.
  - by rewrite map_app, map_map.
  - intros ->. cbn [app]. rewrite map_map. cbn [skillsplugin.Info info_Name skillsplugin.name].
    unfold found, discoverSkills. cbn [fst].
    destruct (discover_tracks env basePaths) as [-> _]. apply keepLast_NoDup.
  - rewrite length_app. destruct found; cbn [length]; [done|]. by rewrite length_map.
  - by intros ->.
Qed.

Lemma range_singleton {World : Type} (range : RangeOrder (World:=World)) k v :
  range {[ k := v ]} ≡ₚ map_to_list ({[ k := v ]} : gmap string (Plugin (World:=World))) ->
  range {[ k := v ]} = [(k, v)].
Proof.
  rewrite map_to_list_singleton. intros H. by apply Permutation_singleton_r in H.
Qed.

(** X23.  Loading the skills plugin into a new registry always
    succeeds: a plugin that finds no skill, or only invalid ones, still
    loads.  Afterwards the registry holds it under the name
    [crush-skills], every pipeline holds the one no-op hook of its
    [NewBaseHooks()], and [GetPluginTools] returns one tool per
    discovered skill, in the order of the skills, with the skill's tool
    name and description, no parameters, and pairwise distinct names;
    running such a tool returns the skill's name, directory and content
    and no error. *)
Theorem skills_plugin_provides_discovered_tools env pluginCtx
    (range : RangeOrder (World:=skillsplugin.World))
    (asToolProvider : ToolProvider (World:=skillsplugin.World))
    (m : Machine (World:=skillsplugin.World)) :
  registry m = NewRegistry ->
  world m = (skillsplugin.NewPlugin, []) ->
  asToolProvider (skillsplugin.asPlugin env) = Some skillsplugin.GetTools ->
  let found :=
    fst (discoverSkills env (getSkillBasePaths env (ctx_WorkingDir pluginCtx))) in
  let out := LoadPlugin (skillsplugin.asPlugin env) pluginCtx m in
  let m1 := snd out in
  range (plugins (registry m1)) ≡ₚ map_to_list (plugins (registry m1)) ->
  let provided := fst (GetPluginTools range asToolProvider m1) in
  fst out = None /\
  fst (GetPlugin "crush-skills" m1) = Some (skillsplugin.asPlugin env) /\
  pipelinesOf (registry m1) [NewBaseHooks] /\
  map adapter_Info provided =
    map (fun s => {| info_Name := ToolName s;
                     info_Description := skills.Description s;
                     info_Parameters := ∅ |}) found /\
  NoDup (map (fun a => info_Name (adapter_Info a)) provided) /\
  (forall i a s params w,
     provided !! i = Some a -> found !! i = Some s ->
     adapter_Run a params w =
     (("Launching skill: " +:+ skills.Name s +:+ newline +:+ newline
       +:+ "Base directory for this skill: " +:+ FullPath s
       +:+ newline +:+ newline +:+ Content s, None), w)).
Proof.
  intros Hr Hw Hprovider found out m1 Hrange provided.
  pose proof (LoadPlugin_cases (skillsplugin.asPlugin env) pluginCtx m) as Hc.
  cbv zeta in Hc.
  match type of Hc with match ?x with _ => _ end =>
    assert (x = None) as Hfree by (rewrite Hr; apply lookup_empty);
    rewrite Hfree in Hc; clear Hfree end.
  pose proof (Init_cases env pluginCtx skillsplugin.NewPlugin) as Hinit.
  cbv zeta in Hinit. fold found in Hinit.
  match type of Hinit with _ = (_, _, _ ++ ?lines) => set (summary := lines) in Hinit end.
  match type of Hc with match fst ?x with _ => _ end =>
    assert (x = (None,
                 ({| skillsplugin.skills := found;
                     skillsplugin.tools :=
                       map (fun s => {| skillsplugin.name := ToolName s;
                                        skillsplugin.description := skills.Description s;
                                        skillsplugin.skill := s |}) found |},
                  stderr (discover env (getSkillBasePaths env (ctx_WorkingDir pluginCtx)))
                  ++ summary))) as Hi
  end.
  { rewrite Hw. cbn [Init skillsplugin.asPlugin fst snd]. by rewrite Hinit. }
  rewrite Hi in Hc. cbn [fst snd] in Hc. fold out in Hc.
  assert (m1 = snd out) as Hm1 by reflexivity. clearbody m1.
  rewrite Hc in Hm1. cbn [snd] in Hm1.
  assert (plugins (registry m1) = {[ "crush-skills" := skillsplugin.asPlugin env ]})
    as Hplugins.
  { rewrite Hm1. cbn [registry plugins registerHooks storePlugin]. rewrite Hr.
    apply insert_empty. }
  assert (provided =
          map NewAgentTool (skillsplugin.GetTools (world m1))) as Hprovided.
  { unfold provided, GetPluginTools, bind, getRegistry, ret. cbn [fst snd].
    rewrite Hplugins in Hrange |- *. rewrite (range_singleton range _ _ Hrange).
    cbn [map snd concat]. rewrite Hprovider. by rewrite app_nil_r. }
  clearbody provided. subst provided.
  assert (world m1 =
          ({| skillsplugin.skills := found;
              skillsplugin.tools :=
                map (fun s => {| skillsplugin.name := ToolName s;
                                 skillsplugin.description := skills.Description s;
                                 skillsplugin.skill := s |}) found |},
           stderr (discover env (getSkillBasePaths env (ctx_WorkingDir pluginCtx)))
           ++ summary)) as Hworld.
  { by rewrite Hm1. }
  rewrite Hworld. unfold skillsplugin.GetTools. cbn [fst skillsplugin.tools].
  rewrite !map_map.
  split_and!.
  - by rewrite Hc.
  - unfold GetPlugin, bind, getRegistry, ret. cbn [fst snd]. rewrite Hplugins.
    apply lookup_singleton_eq.
  - rewrite Hm1. unfold pipelinesOf.
    cbn [registry registerHooks storePlugin configHooks sessionHooks messageHooks
         permHooks toolHooks agentHooks].
    rewrite Hr. by repeat split.
  - done.
  - unfold adapter_Info, NewAgentTool. cbn.
    unfold found, discoverSkills. cbn [fst].
    destruct (discover_tracks env (getSkillBasePaths env (ctx_WorkingDir pluginCtx)))
      as [-> _].
    apply keepLast_NoDup.
  - intros i a s params w Ha Hs.
    rewrite list_lookup_fmap, Hs in Ha. injection Ha as <-. reflexivity.
Qed.

End SkillsPlugin.

(** ** The further properties on the example extensions *)
Import moreexamples.

Lemma failed_LoadPlugin_registers_nothing_witness :
  let m := machine twoPlugins in
  let out := LoadPlugin (baseHooksPlugin "alpha") (startupContext m) m in
  fst out = Some (errorString "plugin alpha is already loaded") /\
  snd out = m.
Proof.
  intros m out. split; [reflexivity|].
  pose proof (failed_LoadPlugin_registers_nothing (baseHooksPlugin "alpha")
                (startupContext m) m _ eq_refl) as (_ & _ & _ & Hdup & _).
  apply Hdup. by eexists.
Defined.

Lemma successful_LoadPlugin_registers_witness :
  let m := machine twoPlugins in
  let out := LoadPlugin strictPlugin (startupContext m) m in
  fst out = None /\
  fst (GetPlugin "strict" (snd out)) = Some strictPlugin /\
  configHooks (registry (snd out)) = [rejectConfig].
Proof.
  intros m out.
  pose proof (successful_LoadPlugin_registers strictPlugin (startupContext m) m eq_refl)
    as (_ & _ & Hget & _ & (Hconfig & _) & _).
  split; [reflexivity|]. split; [exact Hget | exact Hconfig].
Defined.

Lemma pipelines_hold_hooks_in_load_order_witness :
  let m := machine NewRegistry in
  let out := loadAll [baseHooksPlugin "alpha"; brokenInit; strictPlugin]
               (startupContext m) m in
  configHooks (registry (snd out)) = [NilConfigHook; rejectConfig] /\
  permHooks (registry (snd out)) = [NilPermissionHook].
Proof.
  intros m out.
  pose proof (pipelines_hold_hooks_in_load_order
                [baseHooksPlugin "alpha"; brokenInit; strictPlugin]
                (startupContext m) m eq_refl eq_refl)
    as (Hconfig & _ & _ & Hperm & _).
  split; [exact Hconfig | exact Hperm].
Defined.

Lemma ListPlugins_lists_loaded_witness :
  let m := machine NewRegistry in
  let out := loadAll [baseHooksPlugin "alpha"; brokenInit; strictPlugin;
                      baseHooksPlugin "alpha"] (startupContext m) m in
  length (fst (ListPlugins map_to_list (snd out))) = 2 /\
  NoDup (map plugin.Name (fst (ListPlugins map_to_list (snd out)))).
Proof.
  intros m out.
  pose proof (ListPlugins_lists_loaded map_to_list
                [baseHooksPlugin "alpha"; brokenInit; strictPlugin;
                 baseHooksPlugin "alpha"] (startupContext m) m eq_refl (reflexivity _))
    as (_ & Hlen & Hnd & _).
  split; [exact Hlen | exact Hnd].
Defined.

Lemma UnloadPlugin_outcomes_witness :
  let m := machine stubbornRegistry in
  fst (UnloadPlugin "busy" m) =
    Some (wrapError "failed to shutdown plugin busy: " (errorString "still busy")) /\
  registry (snd (UnloadPlugin "busy" m)) = stubbornRegistry /\
  fst (UnloadPlugin "alpha" m) = None /\
  fst (GetPlugin "alpha" (snd (UnloadPlugin "alpha" m))) = None /\
  fst (UnloadPlugin "gamma" m) = Some (errorString "plugin gamma is not loaded").
Proof.
  intros m.
  pose proof (UnloadPlugin_outcomes "busy" m) as (_ & _ & Hbusy).
  destruct (Hbusy stubborn eq_refl) as (_ & _ & Hres & Hreg).
  pose proof (UnloadPlugin_outcomes "alpha" m) as (_ & _ & Halpha).
  destruct (Halpha (baseHooksPlugin "alpha") eq_refl) as (_ & _ & Hnone & _ & Hget & _).
  pose proof (UnloadPlugin_outcomes "gamma" m) as (_ & Hgamma & _).
  split_and!; [exact Hres | exact Hreg | exact Hnone | exact Hget |].
  by rewrite (Hgamma eq_refl).
Defined.

Lemma reload_registers_hooks_twice_witness :
  let m := machine NewRegistry in
  let m1 := snd (LoadPlugin strictPlugin (startupContext m) m) in
  let m2 := snd (UnloadPlugin "strict" m1) in
  let m3 := snd (LoadPlugin strictPlugin (startupContext m) m2) in
  length (hooksReturned (trace m3)) = 2 /\
  fst (GetPlugin "strict" m2) = None /\
  configHooks (registry m3) = [rejectConfig; rejectConfig].
Proof.
  intros m m1 m2 m3.
  destruct (reload_registers_hooks_twice strictPlugin (startupContext m) m
              eq_refl eq_refl eq_refl)
    as (first & second & Hhooks & _ & _ & Hgone & _).
  split; [|split; [exact Hgone | reflexivity]].
  exact (f_equal length Hhooks).
Defined.

Lemma Shutdown_reports_every_failure_witness :
  let m := machine stubbornRegistry in
  fst (Shutdown map_to_list m) =
  Some (errorString "failed to shutdown 1 plugin(s): [plugin busy: still busy]") /\
  world (snd (Shutdown map_to_list m)) = 2.
Proof.
  intros m.
  pose proof (Shutdown_reports_every_failure map_to_list m)
    as (_ & Hworld & _ & _ & Herr).
  split; [|exact Hworld].
  rewrite Herr; [reflexivity|]. vm_compute. done.
Defined.

Lemma notification_stops_at_first_error_witness :
  let m := machine (sessionRegistry [countSessions; rejectSessions; countSessions]) in
  trigger (SessionCreated session1) m =
    (Some (wrapError "session created hook failed: " (errorString "quota exceeded")),
     setWorld m 2) /\
  trigger (SessionUpdated session1) m = (None, setWorld m 2).
Proof.
  intros m.
  pose proof (notification_stops_at_first_error (SessionCreated session1) m)
    as [_ Hfail].
  pose proof (notification_stops_at_first_error (SessionUpdated session1) m)
    as [Hok _].
  split.
  - apply (Hfail 1 (errorString "quota exceeded") 2 eq_refl).
    repeat constructor.
  - apply Hok. repeat constructor.
Defined.

Lemma base_hooks_change_no_outcome_witness :
  let m0 := machine NewRegistry in
  let m := snd (loadAll [baseHooksPlugin "alpha"; baseHooksPlugin "beta"]
                  (startupContext m0) m0) in
  length (permHooks (registry m)) = 2 /\
  fst (TriggerPermissionRequest (request "bash") m) = (None, None) /\
  fst (TriggerToolExecuteAfter viewCall viewResult m) = (viewResult, None).
Proof.
  intros m0 m.
  assert (Forall (fun p : Plugin (World:=nat) => forall w, GetHooks p w = NewBaseHooks)
            [baseHooksPlugin "alpha"; baseHooksPlugin "beta"]) as Hbase.
  { repeat constructor. }
  pose proof (base_hooks_change_no_outcome
                [baseHooksPlugin "alpha"; baseHooksPlugin "beta"]
                (startupContext m0) m0 eq_refl eq_refl Hbase)
    as (_ & Hperm & _ & Hafter & _).
  split; [reflexivity|]. split.
  - apply (Hperm (request "bash")).
  - apply (Hafter viewCall viewResult).
Defined.

Lemma config_hooks_thread_configuration_witness :
  let m := machine (configRegistry [relocate; requireRelocated]) in
  fst (TriggerConfigHooks m) = None /\
  WorkingDir (config (snd (TriggerConfigHooks m))) = "/srv/work" /\
  fst (TriggerConfigHooks (machine (configRegistry [requireRelocated; relocate]))) =
    Some (wrapError "config hook failed: " (errorString "not relocated")).
Proof.
  intros m.
  assert (Forall (fun c : ConfigHook (World:=nat) * Config * option error => snd c = None)
            (configRun (configHooks (registry m)) (config m) (world m))) as Hrun.
  { repeat constructor. }
  pose proof (config_hooks_thread_configuration m Hrun) as (Hres & _ & _ & Hafter & _).
  split; [exact Hres|]. split; [|reflexivity].
  change (WorkingDir (fst (config (snd (TriggerConfigHooks m)),
                           world (snd (TriggerConfigHooks m)))) = "/srv/work").
  by rewrite Hafter.
Defined.

Lemma LoadFromPath_directory_witness :
  let m := machine NewRegistry in
  let out := LoadFromPath dirHost "/plugins" (startupContext m) m in
  fst out = None /\
  fst (GetPlugin "strict" (snd out)) = Some strictPlugin.
Proof.
  intros m out.
  assert (Forall (fun entry => slashFree (entry_Name entry) = true) pluginDir) as Hnames.
  { repeat constructor. }
  pose proof (LoadFromPath_directory dirHost "/plugins" "/plugins" pluginDir
                (startupContext m) m eq_refl eq_refl eq_refl Hnames) as [_ Hfirst].
  assert (out = loadGoPlugin dirHost
                  (filepath.Join ["/plugins";
                                  entry_Name {| entry_Name := "strict.so";
                                                entry_IsDir := false |}])
                  (startupContext m) m) as ->.
  { apply (Hfirst [ {| entry_Name := "cache.so"; entry_IsDir := true |};
                    {| entry_Name := "README.md"; entry_IsDir := false |} ]
                  {| entry_Name := "strict.so"; entry_IsDir := false |}
                  [ {| entry_Name := "zeta.so"; entry_IsDir := false |} ]);
      [reflexivity | repeat constructor | reflexivity]. }
  split; reflexivity.
Defined.

Lemma LoadFromPath_all_or_nothing_witness :
  let m := machine NewRegistry in
  registry (snd (LoadFromPath host0 "/plugins/renamed.so" (startupContext m) m)) =
    NewRegistry /\
  exists p,
    plugins (registry (snd (LoadFromPath host0 "/plugins/strict.so"
                              (startupContext m) m))) =
    <[plugin.Name (Info p) := p]> (plugins (registry m)).
Proof.
  intros m.
  pose proof (LoadFromPath_all_or_nothing host0 "/plugins/renamed.so"
                (startupContext m) m) as (Hfail & _).
  pose proof (LoadFromPath_all_or_nothing host0 "/plugins/strict.so"
                (startupContext m) m) as (_ & Hok).
  split.
  - apply Hfail. by eexists.
  - destruct (Hok eq_refl) as (_ & _ & p & _ & _ & _ & _ & Hplugins & _).
    by exists p.
Defined.

Lemma LoadFromConfig_warns_and_continues_witness :
  let out := LoadFromConfig host0 (startupContext machine2) machine2 in
  fst out = None /\
  logs (snd out) =
    [Stderr ("Warning: failed to load plugin from /plugins/missing.so: "
             +:+ "failed to open plugin: plugin.Open: no such file" +:+ newline)] /\
  size (plugins (registry (snd out))) = 1.
Proof.
  intros out.
  pose proof (LoadFromConfig_warns_and_continues host0 (startupContext machine2) machine2)
    as (Hres & _ & _ & Hlogs & Hsize).
  split; [exact Hres|]. split.
  - fold out in Hlogs. rewrite Hlogs. reflexivity.
  - fold out in Hsize. rewrite Hsize. reflexivity.
Defined.

Lemma LoadFromPath_twice_witness :
  let m := machine NewRegistry in
  let m1 := snd (LoadFromPath host0 "/plugins/strict.so" (startupContext m) m) in
  exists p,
    fst (GetPlugin (plugin.Name (Info p)) m1) = Some p /\
    fst (LoadFromPath host0 "/plugins/strict.so" (startupContext m) m1) =
    Some (wrapError "failed to load plugin: "
            (errorString ("plugin " +:+ plugin.Name (Info p) +:+ " is already loaded"))) /\
    snd (LoadFromPath host0 "/plugins/strict.so" (startupContext m) m1) = m1.
Proof.
  intros m m1.
  destruct (LoadFromPath_twice host0 "/plugins/strict.so" (startupContext m) m eq_refl)
    as (p & Hget & Hagain).
  exists p. fold m1 in Hget, Hagain. rewrite Hagain. by split.
Defined.

Lemma initPlugins_outcomes_witness :
  let started := {| cleanupFuncs := [cleanupEvents]; AgentCoordinator := false |} in
  let out := initPlugins quietHost started machine2 in
  fst out = (None, {| cleanupFuncs := [cleanupEvents; cleanupPlugins];
                      AgentCoordinator := false |}) /\
  last (logs (snd out)) = Some (SlogInfo "Plugins initialized" 1) /\
  snd (fst (initPlugins host0 started machine2)) = started.
Proof.
  intros started out.
  pose proof (initPlugins_outcomes quietHost started machine2 (reflexivity _))
    as (_ & Hok & _).
  pose proof (initPlugins_outcomes host0 started machine2 (reflexivity _))
    as (_ & _ & Hfail).
  assert (Forall (fun c : ConfigHook (World:=nat) * Config * option error => snd c = None)
            (configRun
               (configHooks
                  (registry (snd (LoadFromConfig quietHost (startupContext machine2)
                                    machine2))))
               (config (snd (LoadFromConfig quietHost (startupContext machine2) machine2)))
               (world (snd (LoadFromConfig quietHost (startupContext machine2) machine2)))))
    as Hrun.
  { vm_compute. repeat constructor. }
  destruct (Hok Hrun) as [Hres Hlogs].
  split; [exact Hres|]. split.
  - fold out in Hlogs. rewrite Hlogs. reflexivity.
  - by destruct (Hfail _ eq_refl) as (Happ & _).
Defined.

Lemma tool_names_of_validated_names_witness :
  generateToolName "brand-guidelines" = "skills_brand_guidelines" /\
  generateToolName "tools/analyzer" = generateToolName "tools-analyzer" /\
  (generateToolName "foo" = generateToolName "brand-guidelines" ->
   "foo" = "brand-guidelines").
Proof.
  destruct tool_names_of_validated_names as (Hname & Hinj & Hnested).
  split; [|split].
  - rewrite (Hname "brand-guidelines" eq_refl eq_refl). reflexivity.
  - apply (Hnested "tools" "analyzer" eq_refl eq_refl).
  - apply (Hinj "foo" "brand-guidelines" eq_refl eq_refl).
Defined.

Lemma generateToolName_shape_witness :
  exists rest,
    generateToolName "./Tools/PDF Reader/" = "skills_" +:+ rest /\
    allBytes isToolNameByte rest = true /\
    String.length rest <= 19.
Proof. apply (generateToolName_shape "./Tools/PDF Reader/"). Defined.

Lemma discovered_skills_are_validated_witness :
  exists s,
    s ∈ fst (discoverSkills env0 (getSkillBasePaths env0 "/work")) /\
    Path s = projectBase +:+ "/foo/SKILL.md" /\
    FullPath s = filepath.Dir (Path s) /\
    validateSkillName (skills.Name s) = true.
Proof.
  destruct (parseSkillMD env0 (projectBase +:+ "/foo/SKILL.md")) as [|local] eqn:Hlocal;
    [by vm_compute in Hlocal|].
  assert (local ∈ fst (discoverSkills env0 (getSkillBasePaths env0 "/work"))) as Hin.
  { vm_compute. vm_compute in Hlocal. injection Hlocal as <-. right. left. }
  exists local. split; [exact Hin|].
  destruct (discovered_skills_are_validated env0 _ local Hin)
    as (_ & _ & Hfull & _ & Hvalid & _).
  split; [|split; [exact Hfull | exact Hvalid]].
  vm_compute in Hlocal. by injection Hlocal as <-.
Defined.

Lemma discovery_accounts_for_every_skill_file_witness :
  let paths := getSkillBasePaths env0 "/work" in
  length (stderr (discover env0 paths)) = 2 /\
  length (fst (discoverSkills env0 paths)) = 2 /\
  countIf isSkillFile (entriesOf env0 paths) = 4.
Proof.
  intros paths.
  destruct (discovery_accounts_for_every_skill_file env0 paths) as [Herr Hcount].
  split; [|split; reflexivity].
  rewrite Herr. reflexivity.
Defined.

Lemma discovery_reads_only_skill_files_witness :
  discoverSkills env0 (getSkillBasePaths env0 "/work") =
  discoverSkills env0 [globalBase; projectBase].
Proof.
  apply (discovery_reads_only_skill_files env0 (getSkillBasePaths env0 "/work")
           [globalBase; projectBase]).
  reflexivity.
Defined.

Lemma home_working_directory_walks_twice_witness :
  exists lower,
    getSkillBasePaths envHome "/home/u" = lower ++ [homeBase; homeBase] /\
    fst (discoverSkills envHome (getSkillBasePaths envHome "/home/u")) =
    fst (discoverSkills envHome (lower ++ [homeBase])) /\
    length (fst (discoverSkills envHome (getSkillBasePaths envHome "/home/u"))) = 1 /\
    stderr (discover envHome (getSkillBasePaths envHome "/home/u")) =
    [duplicateWarning "skills_foo" (homeBase +:+ "/foo/SKILL.md")
       (homeBase +:+ "/foo/SKILL.md")].
Proof.
  destruct (home_working_directory_walks_twice envHome "/home/u" eq_refl)
    as (lower & Hpaths & Hsame & _).
  exists lower. split; [exact Hpaths|]. split; [exact Hsame|].
  split; reflexivity.
Defined.

Lemma skills_Init_registers_one_tool_per_skill_witness :
  let pluginCtx := {| ctx_Config := cfg0; ctx_WorkingDir := "/work" |} in
  let out := skillsplugin.Init env0 pluginCtx skillsplugin.NewPlugin in
  fst (fst out) = None /\
  map (fun t => info_Name (skillsplugin.Info t)) (skillsplugin.tools (snd (fst out))) =
    ["skills_baz"; "skills_foo"] /\
  drop 2 (snd out) =
    [ "Skills Plugin: Loaded 2 skill(s)" +:+ newline;
      "  - skills_baz: Checks the baz of a project" +:+ newline;
      "  - skills_foo: Formats reports the foo way" +:+ newline ] /\
  length (snd out) = 5.
Proof.
  intros pluginCtx out.
  pose proof (skills_Init_registers_one_tool_per_skill env0 pluginCtx
                skillsplugin.NewPlugin) as (Hres & _ & _ & Hnames & _ & Hlines & Hlen & _).
  split; [exact Hres|]. split; [|split].
  - fold out in Hnames. rewrite Hnames. reflexivity.
  - fold out in Hlines. rewrite Hlines. reflexivity.
  - fold out in Hlen. rewrite Hlen. reflexivity.
Defined.

Lemma skills_plugin_provides_discovered_tools_witness :
  let pluginCtx := {| ctx_Config := cfg0; ctx_WorkingDir := "/work" |} in
  let m1 := snd (LoadPlugin (skillsplugin.asPlugin env0) pluginCtx skillsMachine) in
  let provided :=
    fst (GetPluginTools map_to_list (fun _ => Some skillsplugin.GetTools) m1) in
  fst (LoadPlugin (skillsplugin.asPlugin env0) pluginCtx skillsMachine) = None /\
  map (fun a => info_Name (adapter_Info a)) provided = ["skills_baz"; "skills_foo"] /\
  length (permHooks (registry m1)) = 1.
Proof.
  intros pluginCtx m1 provided.
  pose proof (skills_plugin_provides_discovered_tools env0 pluginCtx map_to_list
                (fun _ => Some skillsplugin.GetTools) skillsMachine
                eq_refl eq_refl eq_refl (reflexivity _))
    as (Hres & _ & (_ & _ & _ & Hperm & _) & Hinfo & _).
  split; [exact Hres|]. split.
  - fold m1 provided in Hinfo.
    change (map (fun a => info_Name (adapter_Info a)) provided)
      with (map info_Name (map adapter_Info provided)).
    rewrite Hinfo. reflexivity.
  - fold m1 in Hperm. by rewrite Hperm.
Defined.

(** ** Event forwarding *)
Section Forwarding.
Context {World : Type}.
Implicit Types (m : Machine (World:=World)) (n : Notification).

Lemma runNotifyHooks_logs {H : Type} (call : H -> World -> option error * World)
    failure hooks m lines :
  runNotifyHooks call failure hooks (appendLogs m lines) =
  (fst (runNotifyHooks call failure hooks m),
   appendLogs (snd (runNotifyHooks call failure hooks m)) lines).
Proof.
  revert m. induction hooks as [|h hooks IH]; intros m; [done|].
  cbn [runNotifyHooks]. unfold bind, onWorld. cbn [world appendLogs].
  destruct (call h (world m)) as [[e|] w1]; [done|].
  exact (IH {| registry := registry m; config := config m; world := w1;
               trace := trace m; logs := logs m |}).
Qed.

Lemma trigger_logs n m lines :
  trigger n (appendLogs m lines) =
  (fst (trigger n m), appendLogs (snd (trigger n m)) lines).
Proof.
  destruct n; unfold trigger;
    unfold TriggerSessionCreated, TriggerSessionUpdated, TriggerSessionDeleted,
      TriggerMessageCreated, TriggerMessageUpdated, TriggerAgentStart,
      TriggerAgentStep, TriggerAgentFinish, bind, getRegistry;
    apply runNotifyHooks_logs.
Qed.

Lemma appendLogs_app m l1 l2 : appendLogs (appendLogs m l1) l2 = appendLogs m (l1 ++ l2).
Proof. unfold appendLogs. simpl. by rewrite app_assoc. Qed.

Lemma appendLogs_nil m : appendLogs m [] = m.
Proof. destruct m. unfold appendLogs. simpl. by rewrite app_nil_r. Qed.

Lemma deliveries_logs ns m lines :
  deliveries ns (appendLogs m lines) = deliveries ns m /\
  delivered ns (appendLogs m lines) = appendLogs (delivered ns m) lines.
Proof.
  revert m. induction ns as [|n ns IH]; intros m; [done|].
  cbn [deliveries delivered fold_left]. rewrite trigger_logs. cbn [fst snd].
  destruct (IH (snd (trigger n m))) as [-> Hd]. split; [done|]. exact Hd.
Qed.

Lemma forward_step n m lines :
  let out := trigger n (appendLogs m lines) in
  snd (logHookError (forwardingMessage n) (fst out) (snd out)) =
  appendLogs (snd (trigger n m))
    (lines ++ option_list (forwardingError (n, fst (trigger n m)))).
Proof.
  cbv zeta. rewrite trigger_logs. cbn [fst snd]. unfold forwardingError. cbn [fst snd].
  destruct (fst (trigger n m)) as [e|].
  - unfold logHookError, logLine, appendLogs. simpl. by rewrite <- app_assoc.
  - unfold logHookError, ret. simpl. by rewrite app_nil_r.
Qed.

Lemma forwardSessionEvents_cons event ch m :
  forwardSessionEvents (event :: ch) m =
  let n := sessionNotification event in
  let out := trigger n m in
  forwardSessionEvents ch (snd (logHookError (forwardingMessage n) (fst out) (snd out))).
Proof.
  cbv zeta. cbn [forwardSessionEvents]. unfold sessionNotification.
  destruct event as [[] payload]; cbn [event_Type event_Payload trigger forwardingMessage];
    unfold bind;
    match goal with |- context [logHookError _ _ ?x] => idtac end;
    match goal with |- (let (_, _) := (let (_, _) := ?t in _) in _) = _ =>
      destruct t as [err m1] end;
    cbn [fst snd];
    match goal with |- (let (_, _) := ?t in _) = _ => by destruct t end.
Qed.

Lemma forwardMessageEvents_cons event ch m :
  forwardMessageEvents (event :: ch) m =
  match messageNotification event with
  | Some n =>
      let out := trigger n m in
      forwardMessageEvents ch
        (snd (logHookError (forwardingMessage n) (fst out) (snd out)))
  | None => forwardMessageEvents ch m
  end.
Proof.
  cbn [forwardMessageEvents]. unfold messageNotification.
  destruct event as [[] payload]; cbn [event_Type event_Payload trigger forwardingMessage];
    unfold bind; [| |done];
    match goal with |- (let (_, _) := (let (_, _) := ?t in _) in _) = _ =>
      destruct t as [err m1] end;
    cbn [fst snd];
    match goal with |- (let (_, _) := ?t in _) = _ => by destruct t end.
Qed.

Lemma forwardSessionEvents_run ch m lines :
  let ns := map sessionNotification ch in
  forwardSessionEvents ch (appendLogs m lines) =
  (tt, appendLogs (delivered ns m) (lines ++ omap forwardingError (deliveries ns m))).
Proof.
  revert m lines. induction ch as [|event ch IH]; intros m lines; cbv zeta.
  - cbn. unfold ret. by rewrite app_nil_r.
  - rewrite forwardSessionEvents_cons. cbv zeta. rewrite forward_step, IH.
    cbn [map deliveries delivered fold_left omap list_omap].
    unfold forwardingError at 2. cbn [fst snd].
    destruct (fst (trigger (sessionNotification event) m)) as [e|];
      cbn [fmap option_fmap option_map option_list];
      by rewrite <- ?app_assoc, ?app_nil_r.
Qed.

Lemma forwardMessageEvents_run ch m lines :
  let ns := omap messageNotification ch in
  forwardMessageEvents ch (appendLogs m lines) =
  (tt, appendLogs (delivered ns m) (lines ++ omap forwardingError (deliveries ns m))).
Proof.
  revert m lines. induction ch as [|event ch IH]; intros m lines; cbv zeta.
  - cbn. unfold ret. by rewrite app_nil_r.
  - rewrite forwardMessageEvents_cons. cbn [omap list_omap].
    destruct (messageNotification event) as [n|]; [|apply IH].
    cbv zeta. rewrite forward_step, IH.
    cbn [deliveries delivered fold_left omap list_omap].
    unfold forwardingError at 2. cbn [fst snd].
    destruct (fst (trigger n m)) as [e|];
      cbn [fmap option_fmap option_map option_list];
      by rewrite <- ?app_assoc, ?app_nil_r.
Qed.

Lemma delivered_frame ns m :
  registry (delivered ns m) = registry m /\ config (delivered ns m) = config m /\
  trace (delivered ns m) = trace m /\ logs (delivered ns m) = logs m.
Proof.
  revert m. induction ns as [|n ns IH]; intros m; [done|].
  cbn [delivered fold_left]. fold (delivered ns (snd (trigger n m))).
  destruct (IH (snd (trigger n m))) as (-> & -> & -> & ->).
  clear IH. destruct n; unfold trigger;
    unfold TriggerSessionCreated, TriggerSessionUpdated, TriggerSessionDeleted,
      TriggerMessageCreated, TriggerMessageUpdated, TriggerAgentStart,
      TriggerAgentStep, TriggerAgentFinish, bind, getRegistry;
    match goal with |- context [runNotifyHooks ?call ?failure ?hooks m] =>
      generalize hooks; intros hooks'; revert m;
      induction hooks' as [|h hooks' IH]; intros m; [done|];
      cbn [runNotifyHooks]; unfold bind, onWorld;
      destruct (call h (world m)) as [[e|] w1]; [done|];
      apply (IH {| registry := registry m; config := config m; world := w1;
                   trace := trace m; logs := logs m |})
    end.
Qed.

(** X24.  A hook that fails never stops the forwarding of events.  Every
    session event is delivered to the session pipeline as the
    notification of its type, a deleted session with the session's ID;
    every created or updated message goes to the message pipeline,
    while deleted messages are dropped.  The error of a delivery is
    logged, nothing else is logged, and the forwarders go on with the
    next event; they leave the registry, the configuration and the
    trace as they are. *)
Theorem event_forwarding_survives_hook_errors
    (sessions : list (pubsub_Event Session)) (messages : list (pubsub_Event Message)) m :
  let sent := map sessionNotification sessions in
  let out := forwardSessionEvents sessions m in
  let sent' := omap messageNotification messages in
  let out' := forwardMessageEvents messages m in
  (world (snd out) = world (delivered sent m) /\
   logs (snd out) = logs m ++ omap forwardingError (deliveries sent m) /\
   registry (snd out) = registry m /\ config (snd out) = config m /\
   trace (snd out) = trace m) /\
  (world (snd out') = world (delivered sent' m) /\
   logs (snd out') = logs m ++ omap forwardingError (deliveries sent' m) /\
   registry (snd out') = registry m /\ config (snd out') = config m /\
   trace (snd out') = trace m) /\
  length sent = length sessions /\
  length sent' =
    countIf (fun event => match event_Type event with DeletedEvent => false | _ => true end)
      messages.
Proof.
  cbv zeta.
  pose proof (forwardSessionEvents_run sessions m []) as Hs.
  pose proof (forwardMessageEvents_run messages m []) as Hm.
  cbv zeta in Hs, Hm. rewrite appendLogs_nil in Hs, Hm. rewrite Hs, Hm.
  cbn [fst snd appendLogs world logs registry config trace app].
  destruct (delivered_frame (map sessionNotification sessions) m) as (-> & -> & -> & ->).
  destruct (delivered_frame (omap messageNotification messages) m) as (-> & -> & -> & ->).
  split_and!; try done.
  - by rewrite length_map.
  - clear. induction messages as [|[[] payload] messages IH]; [done|..];
      cbn [omap list_omap countIf event_Type]; unfold messageNotification at 1;
      cbn [event_Type length]; lia.
Qed.

End Forwarding.

(** ** The example plugin [auto-approve] *)
Section AutoApprove.
Context {World : Type}.
Context (ToLower : string -> string)
  (slog : autoapprove.slogRecord -> World -> World)
  (markInitialized : World -> World).
Implicit Types (m : Machine (World:=World)) (w : World) (req : CreatePermissionRequest).

Lemma readOnlyTools_spec (toolName : string) :
  default false (autoapprove.readOnlyTools !! toolName) = true <->
  toolName ∈ ["view"; "glob"; "grep"; "ls"; "fetch"].
Proof.
  unfold autoapprove.readOnlyTools.
  rewrite !elem_of_cons, elem_of_nil.
  destruct (decide (toolName = "view")) as [->|H1]; [rewrite lookup_insert_eq; naive_solver|].
  rewrite lookup_insert_ne by done.
  destruct (decide (toolName = "glob")) as [->|H2]; [rewrite lookup_insert_eq; naive_solver|].
  rewrite lookup_insert_ne by done.
  destruct (decide (toolName = "grep")) as [->|H3]; [rewrite lookup_insert_eq; naive_solver|].
  rewrite lookup_insert_ne by done.
  destruct (decide (toolName = "ls")) as [->|H4]; [rewrite lookup_insert_eq; naive_solver|].
  rewrite lookup_insert_ne by done.
  destruct (decide (toolName = "fetch")) as [->|H5];
    [rewrite lookup_singleton_eq; naive_solver|].
  rewrite lookup_singleton_ne by done. naive_solver.
Qed.

(** X25.  The permission hook of the example plugin [auto-approve] never
    denies a request and never fails.  It allows a request when the tool
    is one of [view], [glob], [grep], [ls] and [fetch], or else when
    [strings.ToLower] of the action contains the text [read] anywhere,
    and hands one debug record to the structured log, naming the tool
    and the session in the first case, the tool and the action in the
    second; otherwise it has no opinion and does nothing.  When it is
    the first hook of the permission pipeline, a request it allows is
    allowed without any later hook being asked, and a denial is the
    denial of a later hook.  Loading the plugin succeeds when its name
    is free: [Init] logs one info record with the number of read-only
    tools and marks the plugin initialized, and the hook is appended to
    the permission pipeline. *)
Theorem auto_approve_allows_or_abstains req m rest :
  let hook := autoapprove.autoApprovePermissionHook ToLower slog in
  let readOnly :=
    bool_decide (req_ToolName req ∈ ["view"; "glob"; "grep"; "ls"; "fetch"]) in
  let readAction := autoapprove.Contains (ToLower (req_Action req)) "read" in
  let asked w := stepped m (EvPermissionRequest hook req) w in
  let record level msg attrs :=
    {| autoapprove.rec_Level := level; autoapprove.rec_Message := msg;
       autoapprove.rec_Attrs := attrs |} in
  permHooks (registry m) = hook :: rest ->
  TriggerPermissionRequest req m =
    (if readOnly then
       ((Some true, None),
        asked (slog (record autoapprove.LevelDebug "Auto-approving read-only tool"
                       [("tool", autoapprove.StringValue (req_ToolName req));
                        ("session", autoapprove.StringValue (req_SessionID req))])
                 (world m)))
     else if readAction then
       ((Some true, None),
        asked (slog (record autoapprove.LevelDebug "Auto-approving read action"
                       [("tool", autoapprove.StringValue (req_ToolName req));
                        ("action", autoapprove.StringValue (req_Action req))])
                 (world m)))
     else runPermissionHooks rest req (asked (world m))) /\
  (fst (fst (TriggerPermissionRequest req m)) = Some false ->
     readOnly = false /\ readAction = false /\
     fst (fst (runPermissionHooks rest req (asked (world m)))) = Some false) /\
  (forall w, exists d w1,
     OnPermissionRequest hook req w = ((d, None), w1) /\ d <> Some false) /\
  (forall pluginCtx m0,
     plugins (registry m0) !! "auto-approve" = None ->
     let out := LoadPlugin (autoapprove.Plugin ToLower slog markInitialized) pluginCtx m0 in
     fst out = None /\
     permHooks (registry (snd out)) = permHooks (registry m0) ++ [hook] /\
     world (snd out) =
       markInitialized
         (slog (record autoapprove.LevelInfo "Auto-approve plugin initialized"
                  [("read_only_tools", autoapprove.IntValue 5)])
            (world m0))).
Proof.
  intros hook readOnly readAction asked record Hhooks.
  assert (forall w,
            OnPermissionRequest hook req w =
            if readOnly then
              ((Some true, None),
               slog (record autoapprove.LevelDebug "Auto-approving read-only tool"
                       [("tool", autoapprove.StringValue (req_ToolName req));
                        ("session", autoapprove.StringValue (req_SessionID req))]) w)
            else if readAction then
              ((Some true, None),
               slog (record autoapprove.LevelDebug "Auto-approving read action"
                       [("tool", autoapprove.StringValue (req_ToolName req));
                        ("action", autoapprove.StringValue (req_Action req))]) w)
            else ((None, None), w)) as Hhook.
  { intros w. unfold hook. cbn [OnPermissionRequest autoapprove.autoApprovePermissionHook].
    unfold autoapprove.OnPermissionRequest, readOnly.
    pose proof (readOnlyTools_spec (req_ToolName req)) as Hspec.
    destruct (default false (autoapprove.readOnlyTools !! req_ToolName req)).
    - rewrite bool_decide_eq_true_2 by (by apply Hspec). done.
    - rewrite bool_decide_eq_false_2; [|intros H; by apply Hspec in H]. done. }
  assert (TriggerPermissionRequest req m =
          (if readOnly then
             ((Some true, None),
              asked (slog (record autoapprove.LevelDebug "Auto-approving read-only tool"
                             [("tool", autoapprove.StringValue (req_ToolName req));
                              ("session", autoapprove.StringValue (req_SessionID req))])
                       (world m)))
           else if readAction then
             ((Some true, None),
              asked (slog (record autoapprove.LevelDebug "Auto-approving read action"
                             [("tool", autoapprove.StringValue (req_ToolName req));
                              ("action", autoapprove.StringValue (req_Action req))])
                       (world m)))
           else runPermissionHooks rest req (asked (world m)))) as Htrigger.
  { unfold TriggerPermissionRequest, bind, getRegistry. rewrite Hhooks.
    rewrite runPermissionHooks_cons, Hhook. cbv zeta.
    destruct readOnly; [done|]. by destruct readAction. }
  split; [exact Htrigger|]. split; [|split].
  - rewrite Htrigger. destruct readOnly; [done|]. by destruct readAction.
  - intros w. rewrite Hhook. destruct readOnly; [by eexists _, _|].
    destruct readAction; by eexists _, _.
  - intros pluginCtx m0 Hfree out.
    pose proof (LoadPlugin_cases (autoapprove.Plugin ToLower slog markInitialized)
                  pluginCtx m0) as Hc.
    cbv zeta in Hc.
    change (plugin.Name (plugin.Info (autoapprove.Plugin ToLower slog markInitialized)))
      with "auto-approve" in Hc.
    rewrite Hfree in Hc.
    cbn [plugin.Init plugin.GetHooks autoapprove.Plugin fst snd] in Hc. fold out in Hc.
    rewrite Hc. cbn [fst snd registry world]. split; [done|]. split; [|done].
    cbn [registerHooks permHooks Permission_ storePlugin appendHook]. done.
Qed.

End AutoApprove.

(** ** The non-interactive run *)
Import streaming.

Section Streaming.
Implicit Types (st : Loop) (msg : StreamedMessage) (cur : string).

Lemma printedText_app out1 out2 :
  printedText (out1 ++ out2) = printedText out1 +:+ printedText out2.
Proof.
  induction out1 as [|[| |part] out1 IH]; cbn [app printedText]; try done.
  by rewrite IH, str_app_assoc.
Qed.

Lemma sliceFrom_app_le n (s t : string) :
  n <= String.length s ->
  gostrings.sliceFrom n (s +:+ t) = gostrings.sliceFrom n s +:+ t.
Proof.
  revert n. induction s as [|c s IH]; intros [|n] Hn; simpl in *; try done; try lia.
  apply IH. lia.
Qed.

Lemma sliceFrom_length s : gostrings.sliceFrom (String.length s) s = "".
Proof. induction s as [|c s IH]; [done|]. exact IH. Qed.

(** The part printed for a text that extends the text read so far, and
    the rest of a later text, are together the rest of the later text. *)
Lemma parts_join cur c later :
  String.length cur <= String.length c ->
  gostrings.HasPrefix later c = true ->
  gostrings.sliceFrom (String.length cur) c
    +:+ gostrings.sliceFrom (String.length c) later =
  gostrings.sliceFrom (String.length cur) later.
Proof.
  intros Hlen Hp. apply HasPrefix_inv in Hp. rewrite Hp at 2.
  by rewrite sliceFrom_app_le.
Qed.

Lemma last_cons {A : Type} (x d : A) (l : list A) :
  List.last (x :: l) d = List.last l x.
Proof.
  revert x d. induction l as [|y l IH]; intros x d; [done|].
  change (List.last (x :: y :: l) d) with (List.last (y :: l) d).
  by rewrite !IH.
Qed.

Lemma HasPrefix_refl s : gostrings.HasPrefix s s = true.
Proof. induction s as [|a s IH]; [done|]. simpl. by rewrite Ascii.eqb_refl. Qed.

Lemma growing_last cur (l : list string) :
  growing cur l -> gostrings.HasPrefix (List.last l cur) cur = true.
Proof.
  revert cur. induction l as [|x l IH]; intros cur Hgrow.
  - apply HasPrefix_refl.
  - destruct Hgrow as [Hx Hgrow]. rewrite last_cons.
    specialize (IH x Hgrow). apply HasPrefix_inv in Hx. apply HasPrefix_inv in IH.
    rewrite IH. rewrite Hx at 1. rewrite str_app_assoc. apply HasPrefix_app.
Qed.

Lemma streamLoop_growing isCancelled sessID id msgs st cur :
  let shown := List.filter (relevant sessID) msgs in
  Forall (fun msg => stream_ID msg = id) shown ->
  growing cur (map stream_Content shown) ->
  default 0 (messageReadBytes st !! id) = String.length cur ->
  let out := streamLoop isCancelled sessID (map SelMessage msgs) st in
  let final := List.last (map stream_Content shown) cur in
  fst out = None /\
  printedText (stdout (snd out)) =
    printedText (stdout st) +:+ gostrings.sliceFrom (String.length cur) final /\
  messageReadBytes (snd out) !! id =
    match shown with [] => messageReadBytes st !! id | _ => Some (String.length final) end.
Proof.
  revert st cur. induction msgs as [|msg msgs IH]; intros st cur; cbv zeta.
  - intros _ _ Hread. cbn. rewrite printedText_app. cbn [printedText].
    by rewrite sliceFrom_length, !str_app_nil_r.
  - cbn [List.filter map streamLoop]. fold (relevant sessID msg).
    destruct (relevant sessID msg) eqn:Hrel.
    + cbn [map growing]. intros [Hid Hall]%Forall_cons [Hpre Hgrow] Hread.
      cbn [print messageReadBytes stdout]. rewrite Hid, Hread.
      assert (String.length cur <= String.length (stream_Content msg)) as Hlen.
      { by apply HasPrefix_length. }
      assert ((String.length (stream_Content msg) <? String.length cur) = false) as ->
        by (apply Nat.ltb_ge; lia).
      match goal with |- context [streamLoop isCancelled sessID (map SelMessage msgs) ?st1] =>
        destruct (IH st1 (stream_Content msg) Hall Hgrow) as (Hres & Hout & Hfinal) end.
      { cbn [messageReadBytes]. by rewrite lookup_insert_eq. }
      cbv zeta in Hres, Hout, Hfinal.
      rewrite last_cons, Hres, Hout, Hfinal. split; [done|]. split.
      * cbn [stdout]. rewrite !printedText_app. cbn [printedText].
        rewrite !str_app_nil_r, !str_app_assoc. f_equal.
        apply parts_join; [done|]. by apply growing_last.
      * cbn [messageReadBytes]. rewrite lookup_insert_eq.
        by destruct (List.filter (relevant sessID) msgs).
    + intros Hall Hgrow Hread.
      match goal with |- context [streamLoop isCancelled sessID (map SelMessage msgs) ?st1] =>
        destruct (IH st1 cur Hall Hgrow) as (Hres & Hout & Hfinal) end.
      { exact Hread. }
      cbv zeta in Hres, Hout, Hfinal. rewrite Hres, Hout, Hfinal.
      split; [done|]. split; [|done].
      cbn [print stdout]. rewrite printedText_app. cbn [printedText].
      by rewrite str_app_nil_r.
Qed.

Lemma streamLoop_app isCancelled sessID msgs rest st :
  fst (streamLoop isCancelled sessID (map SelMessage msgs) st) = None ->
  exists st1,
    streamLoop isCancelled sessID (map SelMessage msgs ++ rest) st =
      streamLoop isCancelled sessID rest st1 /\
    printedText (stdout st1) =
      printedText (stdout (snd (streamLoop isCancelled sessID (map SelMessage msgs) st))) /\
    messageReadBytes st1 =
      messageReadBytes (snd (streamLoop isCancelled sessID (map SelMessage msgs) st)).
Proof.
  revert st. induction msgs as [|msg msgs IH]; intros st.
  - intros _. exists st. cbn. split; [done|]. rewrite printedText_app. cbn [printedText].
    by rewrite str_app_nil_r.
  - cbn [map app streamLoop].
    destruct (String.eqb (stream_SessionID msg) sessID && stream_Assistant msg
              && (0 <? stream_Parts msg)); [|apply IH].
    destruct (String.length (stream_Content msg) <? _); [done|apply IH].
Qed.

(** X26.  While the loop of [RunNonInteractive] receives messages, it
    prints every byte of the assistant's message once: when the texts of
    the printed message each start with the text before them, what is on
    standard output between the escape sequences is the latest text, no
    error is returned, and messages of other sessions, of other roles or
    without parts print nothing.  A text shorter than what was already
    read ends the run with an error and prints nothing. *)
Theorem stream_prints_each_byte_once isCancelled sessID id (msgs : list StreamedMessage) :
  let shown := List.filter (relevant sessID) msgs in
  let latest := List.last (map stream_Content shown) "" in
  Forall (fun msg => stream_ID msg = id) shown ->
  growing "" (map stream_Content shown) ->
  let out := streamLoop isCancelled sessID (map SelMessage msgs) start in
  fst out = None /\
  printedText (stdout (snd out)) = latest /\
  (forall msg,
     relevant sessID msg = true -> stream_ID msg = id ->
     String.length (stream_Content msg) < String.length latest ->
     let out' := streamLoop isCancelled sessID (map SelMessage (msgs ++ [msg])) start in
     fst out' =
       Some (Some (errorString
                     ("message content is shorter than read bytes: "
                      +:+ itoa (String.length (stream_Content msg)) +:+ " < "
                      +:+ itoa (String.length latest)))) /\
     printedText (stdout (snd out')) = latest).
Proof.
  intros shown latest Hall Hgrow out.
  destruct (streamLoop_growing isCancelled sessID id msgs start "" Hall Hgrow)
    as (Hres & Hout & Hread); [done|].
  cbv zeta in Hres, Hout, Hread. fold shown latest out in Hres, Hout, Hread.
  cbn [start stdout printedText String.length] in Hout.
  rewrite str_app_nil_l, sliceFrom_0 in Hout.
  split; [exact Hres|]. split; [exact Hout|].
  intros msg Hrel Hid Hshort out'.
  assert (out' = streamLoop isCancelled sessID (map SelMessage (msgs ++ [msg])) start)
    as Hout' by reflexivity. clearbody out'.
  rewrite map_app in Hout'.
  destruct (streamLoop_app isCancelled sessID msgs (map SelMessage [msg]) start Hres)
    as (st1 & Heq & Hprinted & Hbytes).
  fold out in Hprinted, Hbytes. rewrite Heq in Hout'. clear Heq.
  cbn [map streamLoop] in Hout'. fold (relevant sessID msg) in Hout'.
  rewrite Hrel in Hout'. cbn [print messageReadBytes] in Hout'.
  assert (shown <> []) as Hne.
  { intros Hnil. unfold latest in Hshort. rewrite Hnil in Hshort. simpl in Hshort. lia. }
  assert (messageReadBytes (snd out) !! id = Some (String.length latest)) as Hread'.
  { rewrite Hread. clear -Hne. by destruct shown. }
  rewrite Hid, Hbytes, Hread' in Hout'. cbn [from_option Datatypes.id] in Hout'.
  assert ((String.length (stream_Content msg) <? String.length latest) = true) as Hlt
    by (by apply Nat.ltb_lt).
  rewrite Hlt in Hout'. subst out'. split; [done|].
  cbn [snd stdout print]. rewrite !printedText_app. cbn [printedText].
  by rewrite !str_app_nil_r, Hprinted.
Qed.

End Streaming.

Lemma event_forwarding_survives_hook_errors_witness :
  let m := machine (sessionRegistry [rejectSessions; countSessions]) in
  logs (snd (forwardSessionEvents sessionEvents m)) =
    [SlogError "Plugin session created hook failed"
       (wrapError "session created hook failed: " (errorString "quota exceeded"))] /\
  world (snd (forwardSessionEvents sessionEvents m)) = 3 /\
  world (snd (forwardMessageEvents messageEvents m)) = 0.
Proof.
  intros m.
  destruct (event_forwarding_survives_hook_errors sessionEvents messageEvents m)
    as ((Hworld & Hlogs & _) & (Hworld' & _) & _).
  split; [|split].
  - rewrite Hlogs. reflexivity.
  - rewrite Hworld. reflexivity.
  - rewrite Hworld'. reflexivity.
Defined.

Lemma auto_approve_allows_or_abstains_witness :
  TriggerPermissionRequest spreadRequest approverMachine =
    ((Some true, None),
     stepped approverMachine (EvPermissionRequest approver spreadRequest)
       [ {| autoapprove.rec_Level := autoapprove.LevelDebug;
            autoapprove.rec_Message := "Auto-approving read action";
            autoapprove.rec_Attrs :=
              [("tool", autoapprove.StringValue "bash");
               ("action", autoapprove.StringValue "Spread the change")] |} ]) /\
  fst (TriggerPermissionRequest (request "bash") approverMachine) = (Some false, None) /\
  permHooks (registry (snd (LoadPlugin
                              (autoapprove.Plugin gostrings.ToLower keepRecord id)
                              (startupContext emptyMachine) emptyMachine))) =
    [approver].
Proof.
  destruct (auto_approve_allows_or_abstains gostrings.ToLower keepRecord id
              spreadRequest approverMachine [denyQuietly] eq_refl)
    as (Hallow & _ & _ & Hload).
  destruct (auto_approve_allows_or_abstains gostrings.ToLower keepRecord id
              (request "bash") approverMachine [denyQuietly] eq_refl)
    as (Habstain & _).
  split; [|split].
  - rewrite Hallow. reflexivity.
  - rewrite Habstain. reflexivity.
  - destruct (Hload (startupContext emptyMachine) emptyMachine eq_refl) as (_ & Hperm & _).
    rewrite Hperm. reflexivity.
Defined.

Lemma stream_prints_each_byte_once_witness :
  let out := streamLoop (fun _ => false) "s1" (map SelMessage answer) start in
  fst out = None /\
  printedText (stdout (snd out)) = "Hello" /\
  fst (streamLoop (fun _ => false) "s1"
         (map SelMessage (answer ++ [streamed "s1" "He"])) start) =
    Some (Some (errorString "message content is shorter than read bytes: 2 < 5")).
Proof.
  intros out.
  assert (Forall (fun msg => stream_ID msg = "m1") (List.filter (relevant "s1") answer))
    as Hid by (repeat constructor).
  assert (growing "" (map stream_Content (List.filter (relevant "s1") answer))) as Hgrow
    by (repeat split).
  destruct (stream_prints_each_byte_once (fun _ => false) "s1" "m1" answer Hid Hgrow)
    as (Hres & Hout & Hshort).
  split; [exact Hres|]. split; [exact Hout|].
  destruct (Hshort (streamed "s1" "He") eq_refl eq_refl) as [Herr _].
  - simpl. lia.
  - exact Herr.
Defined.

(** ** Start-up and shutdown of the application *)
Import shutdownlog.

Section AppShutdown.
Context {World : Type}.
Implicit Types (m : Machine (World:=World)) (host : Host (World:=World))
  (application : App).



Lemma Shutdown_frame (range : RangeOrder (World:=World)) m :
  let out := Shutdown range m in
  registry (snd out) = registry m /\ config (snd out) = config m /\
  trace (snd out) = trace m ++ map shutdownCall (range (plugins (registry m))).
Proof.
  cbv zeta. unfold Shutdown, bind, getRegistry.
  pose proof (shutdownRange_frame (range (plugins (registry m))) [] m) as H.
  cbv zeta in H.
  destruct (shutdownRange (range (plugins (registry m))) [] m) as [errors m1].
  by destruct errors.
Qed.





End AppShutdown.


(** ** The text of a SKILL.md file *)
Section SkillText.
Implicit Types (env : Env) (s t sep pre body : string).

Lemma HasPrefix_app_long s t sep :
  String.length sep <= String.length s ->
  gostrings.HasPrefix (s +:+ t) sep = gostrings.HasPrefix s sep.
Proof.
  revert sep. induction s as [|c s IH]; intros sep Hlen.
  - destruct sep; simpl in Hlen; [by destruct t|lia].
  - destruct sep as [|a sep]; [done|]. rewrite str_app_cons. simpl in *.
    destruct (Ascii.eqb a c); [|done]. apply IH. lia.
Qed.

(** The first occurrence of a separator in a text stays the first one
    when the text goes on. *)
Lemma index_app s t sep i :
  gostrings.index s sep = Some i -> gostrings.index (s +:+ t) sep = Some i.
Proof.
  revert i. induction s as [|c s IH]; intros i.
  - rewrite index_unfold. destruct (gostrings.HasPrefix "" sep) eqn:Hp; [|done].
    intros [= <-]. apply HasPrefix_nil in Hp as ->. by destruct t.
  - intros Hi. pose proof (index_bound _ _ _ Hi) as Hb.
    rewrite index_unfold in Hi. rewrite str_app_cons, index_unfold, <- str_app_cons.
    rewrite HasPrefix_app_long by lia.
    destruct (gostrings.HasPrefix (String c s) sep); [done|].
    destruct (gostrings.index s sep) as [k|] eqn:Hk; [|done].
    by rewrite (IH k eq_refl).
Qed.

Lemma index_delimited pre rest :
  gostrings.index (pre +:+ "---") "---" = Some (String.length pre) ->
  gostrings.index (pre +:+ "---" +:+ rest) "---" = Some (String.length pre) /\
  gostrings.sliceTo (String.length pre) (pre +:+ "---" +:+ rest) = pre /\
  gostrings.sliceFrom (String.length pre + 3) (pre +:+ "---" +:+ rest) = rest.
Proof.
  intros Hi. split; [|split].
  - rewrite <- str_app_assoc. by apply index_app.
  - apply sliceTo_app.
  - rewrite <- str_app_assoc.
    replace (String.length pre + 3) with (String.length (pre +:+ "---"))
      by (rewrite str_length_app; reflexivity).
    apply sliceFrom_app.
Qed.

(** X28.  [parseSkillMD] takes the text between the first two [---] of
    the file for the frontmatter and everything after the second one
    for the content: whatever stands in front of the first [---] is
    ignored without a warning, and further [---] in the body, such as
    horizontal rules, stay in the content, which is the body with the
    white space around it trimmed. *)
Theorem skill_body_keeps_later_delimiters env skillPath pre frontmatterText body
    frontmatter :
  ReadFile env skillPath =
    inr (pre +:+ "---" +:+ frontmatterText +:+ "---" +:+ body) ->
  gostrings.index (pre +:+ "---") "---" = Some (String.length pre) ->
  gostrings.index (frontmatterText +:+ "---") "---" =
    Some (String.length frontmatterText) ->
  Unmarshal env frontmatterText = inr frontmatter ->
  validFrontmatter skillPath frontmatter ->
  exists skill,
    parseSkillMD env skillPath = inr skill /\
    Content skill = TrimSpace env body /\
    skills.Name skill = fm_Name frontmatter /\
    skills.Description skill = fm_Description frontmatter.
Proof.
  intros Hread Hpre Hfm Hyaml Hvalid.
  exists (skillOf env skillPath body frontmatter). split; [|done].
  apply parseSkillMD_inr.
  exists (pre +:+ "---" +:+ frontmatterText +:+ "---" +:+ body), pre, frontmatterText,
    body, frontmatter.
  split_and!; try done.
  unfold gostrings.SplitN. cbn [Z.eqb Z.ltb Z.compare Z.to_nat Pos.to_nat Pos.iter_op Nat.add].
  destruct (index_delimited pre (frontmatterText +:+ "---" +:+ body) Hpre)
    as (Hi1 & Ht1 & Hf1).
  destruct (index_delimited frontmatterText body Hfm) as (Hi2 & Ht2 & Hf2).
  rewrite (splitN_unfold 3) by lia. rewrite Hi1. cbn [String.length]. rewrite Ht1, Hf1.
  rewrite (splitN_unfold (3 - 1)) by lia. rewrite Hi2. cbn [String.length].
  rewrite Ht2, Hf2. reflexivity.
Qed.

End SkillText.

Lemma skill_body_keeps_later_delimiters_witness :
  let text :=
    "# notes" +:+ "---" +:+ fooFrontmatter +:+ "---"
    +:+ (newline +:+ "Step one" +:+ newline +:+ "---" +:+ newline +:+ "Step two") in
  let env :=
    {| ReadFile := fun _ => inr text;
       IsNotExist := IsNotExist env0; WalkDir := WalkDir env0; Getenv := Getenv env0;
       UserHomeDir := UserHomeDir env0; Unmarshal := Unmarshal env0;
       TrimSpace := TrimSpace env0 |} in
  exists skill,
    parseSkillMD env "/work/.crush/skills/foo/SKILL.md" = inr skill /\
    Content skill = "Step one" +:+ newline +:+ "---" +:+ newline +:+ "Step two".
Proof.
  intros text env.
  destruct (skill_body_keeps_later_delimiters env "/work/.crush/skills/foo/SKILL.md"
              "# notes" fooFrontmatter
              (newline +:+ "Step one" +:+ newline +:+ "---" +:+ newline +:+ "Step two")
              (frontmatterOf "foo" "Formats reports the foo way")
              eq_refl eq_refl eq_refl eq_refl)
    as (skill & Hparse & Hcontent & _).
  { split_and!; [done|reflexivity|reflexivity|simpl; lia]. }
  exists skill. split; [exact Hparse|]. rewrite Hcontent. reflexivity.
Defined.
